(** * Organize-by-Team: the CSV-driven photo reorganizer

    A shallow embedding of [organize_photos_by_team] (organize.py) and of
    [PhotoOrganizer.run_organizer] (organize-mac.py), together with the part
    of the Python runtime the two functions call: [str.strip],
    [os.path.join], [os.path.exists], [os.makedirs] and [shutil.move], over
    a POSIX file tree of regular files and directories (no symbolic links,
    no permissions, a single device).  A string is held as the bytes of its
    UTF-8 encoding.  The file tree takes a name and a path of any length;
    the bounds of the kernel on them are stated apart ([Limits]), for the
    theorems that ask for them.  The table returned by [pandas.read_csv] is
    taken as it is handed to the loop.  The Browse buttons of the two
    windows are embedded with the answer of their dialog as an argument. *)

From Stdlib Require Import Ascii String Permutation.
From stdpp Require Import base decidable option list strings pretty gmap fin_maps.

Local Open Scope string_scope.
Local Open Scope list_scope.

(** ** Python strings *)

Module Str.

(** A [str] is held as the bytes of its UTF-8 encoding. *)
Definition utf8 (cp : N) : string :=
  let byte (n : N) := ascii_of_N n in
  let cont (n : N) := byte (0x80 + n mod 64)%N in
  if (cp <? 0x80)%N then String (byte cp) ""
  else if (cp <? 0x800)%N then
    String (byte (0xC0 + cp / 64)%N) (String (cont cp) "")
  else if (cp <? 0x10000)%N then
    String (byte (0xE0 + cp / 4096)%N)
      (String (cont (cp / 64)%N) (String (cont cp) ""))
  else
    String (byte (0xF0 + cp / 262144)%N)
      (String (cont (cp / 4096)%N)
         (String (cont (cp / 64)%N) (String (cont cp) ""))).

(** The code points for which [str.isspace] holds: those of bidirectional
    type WS, B or S and those of category Zs. *)
Definition space_code_points : list N :=
  [0x09; 0x0A; 0x0B; 0x0C; 0x0D; 0x1C; 0x1D; 0x1E; 0x1F; 0x20; 0x85; 0xA0;
   0x1680; 0x2000; 0x2001; 0x2002; 0x2003; 0x2004; 0x2005; 0x2006; 0x2007;
   0x2008; 0x2009; 0x200A; 0x2028; 0x2029; 0x202F; 0x205F; 0x3000]%N.

Definition whitespace : list string := utf8 <$> space_code_points.

(** [c.isspace()] for a string [c] of one character. *)
Definition isspace (c : string) : bool := existsb (String.eqb c) whitespace.

Definition is_sep (c : ascii) : bool :=
  if decide (c = "/"%char) then true else false.

(** [s.lstrip(chars)] and [s.rstrip(chars)], the set [chars] given as a
    predicate. *)
Fixpoint lstrip_by (p : ascii -> bool) (s : string) : string :=
  match s with
  | EmptyString => EmptyString
  | String c s' => if p c then lstrip_by p s' else s
  end.

Fixpoint rstrip_by (p : ascii -> bool) (s : string) : string :=
  match s with
  | EmptyString => EmptyString
  | String c s' =>
      match rstrip_by p s' with
      | EmptyString => if p c then EmptyString else String c EmptyString
      | r => String c r
      end
  end.

Definition is_empty (s : string) : bool :=
  match s with EmptyString => true | _ => false end.

(** [s.lstrip()]: the characters of white space at the start are dropped,
    each of one, two or three bytes. *)
Fixpoint lstrip (s : string) : string :=
  match s with
  | EmptyString => EmptyString
  | String a s1 =>
      if isspace (String a "") then lstrip s1
      else match s1 with
           | EmptyString => s
           | String b s2 =>
               if isspace (String a (String b "")) then lstrip s2
               else match s2 with
                    | EmptyString => s
                    | String c s3 =>
                        if isspace (String a (String b (String c "")))
                        then lstrip s3 else s
                    end
           end
  end.

(** [s.rstrip()]: the string ends after its last character that is not
    white space, that is where the rest of it is white space only. *)
Fixpoint rstrip (s : string) : string :=
  match s with
  | EmptyString => EmptyString
  | String c s' => if is_empty (lstrip s) then EmptyString else String c (rstrip s')
  end.

(** [s.strip()] *)
Definition strip (s : string) : string := rstrip (lstrip s).

Definition startswith_sep (s : string) : bool :=
  match s with
  | String c _ => is_sep c
  | EmptyString => false
  end.

Fixpoint endswith_sep (s : string) : bool :=
  match s with
  | EmptyString => false
  | String c EmptyString => is_sep c
  | String _ s' => endswith_sep s'
  end.

(** [s.split("/")] *)
Fixpoint split_sep (s : string) : list string :=
  match s with
  | EmptyString => [EmptyString]
  | String c s' =>
      if is_sep c then EmptyString :: split_sep s'
      else match split_sep s' with
           | h :: t => String c h :: t
           | [] => [String c EmptyString]
           end
  end.

(** [(s[:i], s[i:])] for [i = s.rfind("/") + 1] *)
Fixpoint rpartition_sep (s : string) : string * string :=
  match s with
  | EmptyString => (EmptyString, EmptyString)
  | String c s' =>
      let '(h, t) := rpartition_sep s' in
      if is_sep c then (String c h, t)
      else match h with
           | EmptyString => (EmptyString, String c t)
           | _ => (String c h, t)
           end
  end.

(** [s == "/" * len(s)] *)
Fixpoint all_sep (s : string) : bool :=
  match s with
  | EmptyString => true
  | String c s' => is_sep c && all_sep s'
  end.

(** ["/".join(l)] *)
Fixpoint join_sep (l : list string) : string :=
  match l with
  | [] => EmptyString
  | [x] => x
  | x :: l' => x +:+ "/" +:+ join_sep l'
  end.

Fixpoint startswith (pre s : string) : bool :=
  match pre, s with
  | EmptyString, _ => true
  | String a pre', String b s' =>
      if decide (a = b) then startswith pre' s' else false
  | String _ _, EmptyString => false
  end.

End Str.

(** ** posixpath *)

Module PosixPath.
Import Str.

(** [os.path.join(a, b)] *)
Definition join (a b : string) : string :=
  if startswith_sep b then b
  else if is_empty a || endswith_sep a then a +:+ b
  else a +:+ "/" +:+ b.

(** [os.path.split(p)] *)
Definition split (p : string) : string * string :=
  let '(head, tail) := rpartition_sep p in
  if negb (is_empty head) && negb (all_sep head)
  then (rstrip_by is_sep head, tail)
  else (head, tail).

(** [os.path.basename(p)] *)
Definition basename (p : string) : string := snd (rpartition_sep p).

Definition isabs (p : string) : bool := startswith_sep p.

(** The loop body of [os.path.normpath] over the components. *)
Fixpoint normpath_comps (initial_slashes : bool) (comps new_comps : list string)
  : list string :=
  match comps with
  | [] => new_comps
  | comp :: rest =>
      if decide (comp = "" \/ comp = ".") then
        normpath_comps initial_slashes rest new_comps
      else if decide (comp <> ".."
                      \/ (initial_slashes = false /\ new_comps = [])
                      \/ (new_comps <> [] /\ last new_comps = Some ".."))
      then normpath_comps initial_slashes rest (new_comps ++ [comp])
      else normpath_comps initial_slashes rest (removelast new_comps)
  end.

(** [os.path.normpath(path)] *)
Definition normpath (path : string) : string :=
  if is_empty path then "." else
  let initial_slashes :=
    if startswith_sep path then
      if startswith "//" path && negb (startswith "///" path) then 2 else 1
    else 0 in
  let comps := normpath_comps (negb (initial_slashes =? 0)%nat) (split_sep path) [] in
  let path' :=
    match initial_slashes with
    | 0 => join_sep comps
    | 1 => "/" +:+ join_sep comps
    | _ => "//" +:+ join_sep comps
    end in
  if is_empty path' then "." else path'.

End PosixPath.

(** ** The file tree *)

(** An entry is a regular file with its content or a directory.  The tree
    maps the location of every entry, the list of names leading to it from
    the root, to the entry; the root directory is at [[]]. *)
Inductive entry :=
  | File (content : string)
  | Dir.

Global Instance entry_eq_dec : EqDecision entry.
Proof. solve_decision. Defined.

Record FS := mkFS {
  tree : gmap (list string) entry;
  cwd : list string
}.

Inductive errno :=
  | ENOENT | EEXIST | ENOTDIR | EISDIR | EINVAL | EBUSY | ENOTEMPTY.

Global Instance errno_eq_dec : EqDecision errno.
Proof. solve_decision. Defined.

(** ** Exceptions and the state monad of the embedding *)

Inductive shutil_error :=
  | DestinationExists (real_dst : string)
  | MoveIntoItself (src dst : string).

(** [OSError e] stands for the subclass Python picks from the error number:
    [FileNotFoundError] for [ENOENT], [FileExistsError] for [EEXIST],
    [NotADirectoryError] for [ENOTDIR], [IsADirectoryError] for [EISDIR],
    plain [OSError] otherwise.  [ValueError] stands for the errors of a
    table that does not parse ([EmptyDataError], [ParserError],
    [UnicodeDecodeError]). *)
Inductive exn :=
  | KeyError (key : string)
  | ValueError (what : string)
  | OSError (e : errno)
  | ShutilError (why : shutil_error)
  | SameFileError.

(** [isinstance(e, OSError)]; [shutil.Error] and [shutil.SameFileError]
    derive from [OSError]. *)
Definition is_OSError (e : exn) : bool :=
  match e with
  | OSError _ | ShutilError _ | SameFileError => true
  | KeyError _ | ValueError _ => false
  end.

Inductive outcome (A : Type) :=
  | Returns (a : A)
  | Raises (e : exn).
Arguments Returns {A} a.
Arguments Raises {A} e.

(** A computation runs from a file tree to an outcome and the file tree it
    leaves behind, also when it raises. *)
Definition Py (A : Type) : Type := FS -> outcome A * FS.

Definition ret {A} (a : A) : Py A := fun fs => (Returns a, fs).

Definition raise {A} (e : exn) : Py A := fun fs => (Raises e, fs).

Definition bind {A B} (m : Py A) (k : A -> Py B) : Py B :=
  fun fs =>
    match m fs with
    | (Returns a, fs') => k a fs'
    | (Raises e, fs') => (Raises e, fs')
    end.

Declare Scope py_scope.
Delimit Scope py_scope with py.
Notation "x <- m ;; k" := (bind m (fun x => k))
  (at level 100, m at next level, right associativity) : py_scope.
Notation "m ;; k" := (bind m (fun _ => k))
  (at level 100, right associativity) : py_scope.
Local Open Scope py_scope.

(** [for x in l: body(x)] *)
Fixpoint for_each {A} (l : list A) (body : A -> Py unit) : Py unit :=
  match l with
  | [] => ret tt
  | x :: l' => body x ;; for_each l' body
  end.

(** Reading the tree does not change it. *)
Definition inspect {A} (f : FS -> A) : Py A := fun fs => (Returns (f fs), fs).

(** A system call either fails with an error number, leaving the tree as it
    is, or installs a new tree. *)
Definition syscall (f : FS -> errno + FS) : Py unit :=
  fun fs =>
    match f fs with
    | inl e => (Raises (OSError e), fs)
    | inr fs' => (Returns tt, fs')
    end.

(** [try: m  except FileExistsError: pass] *)
Definition pass_FileExistsError (m : Py unit) : Py unit :=
  fun fs =>
    match m fs with
    | (Raises (OSError EEXIST), fs') => (Returns tt, fs')
    | r => r
    end.

(** [try: m  except OSError: handler] *)
Definition except_OSError (m : Py unit) (handler : Py unit) : Py unit :=
  fun fs =>
    match m fs with
    | (Raises e, fs') => if is_OSError e then handler fs' else (Raises e, fs')
    | r => r
    end.

(** ** Finite maps given by their lookup function *)

Definition tabulate {K V} `{Countable K} (ks : list K) (f : K -> option V)
  : gmap K V :=
  list_to_map (omap (fun k => pair k <$> f k) ks).

Definition keys (t : gmap (list string) entry) : list (list string) :=
  (map_to_list t).*1.

(** [rebase old new k] is the location under [new] that corresponds to [k]
    under [old]. *)
Definition rebase (old new k : list string) : list string :=
  new ++ drop (length old) k.

Definition is_prefix (old k : list string) : bool :=
  bool_decide (old `prefix_of` k).

(** The subtree at [old] moved to [new]: whatever was at or under [new] is
    replaced. *)
Definition move_lookup (t : gmap (list string) entry) (old new k : list string)
  : option entry :=
  if is_prefix new k then t !! rebase new old k
  else if is_prefix old k then None
  else t !! k.

Definition move_subtree (old new : list string) (t : gmap (list string) entry)
  : gmap (list string) entry :=
  tabulate (keys t ++ (rebase old new <$> List.filter (is_prefix old) (keys t)))
           (move_lookup t old new).

(** The entries under [old] copied under [new]; [new] itself stays as it is. *)
Definition graft_lookup (t : gmap (list string) entry) (old new k : list string)
  : option entry :=
  if is_prefix new k && negb (bool_decide (k = new)) then t !! rebase new old k
  else t !! k.

Definition graft_subtree (old new : list string) (t : gmap (list string) entry)
  : gmap (list string) entry :=
  tabulate (keys t ++ (rebase old new <$> List.filter (is_prefix old) (keys t)))
           (graft_lookup t old new).

(** Everything strictly under [old] removed. *)
Definition clear_subtree (old : list string) (t : gmap (list string) entry)
  : gmap (list string) entry :=
  filter (fun kv => ¬ (old `prefix_of` kv.1 /\ kv.1 <> old)) t.

Definition has_children (t : gmap (list string) entry) (old : list string) : bool :=
  existsb (fun k => is_prefix old k && negb (bool_decide (k = old))) (keys t).

(** ** os: path resolution and the system calls *)

Module OS.
Import Str PosixPath.

Definition is_dir_at (t : gmap (list string) entry) (k : list string) : bool :=
  match t !! k with Some Dir => true | _ => false end.

(** One step of path resolution from the directory at [cur]. *)
Definition lookup_step (t : gmap (list string) entry) (cur : list string)
    (comp : string) : errno + list string :=
  match t !! cur with
  | None => inl ENOENT
  | Some (File _) => inl ENOTDIR
  | Some Dir =>
      if decide (comp = "" \/ comp = ".") then inr cur
      else if decide (comp = "..") then
        match t !! removelast cur with
        | Some _ => inr (removelast cur)
        | None => inl ENOENT
        end
      else
        match t !! (cur ++ [comp]) with
        | Some _ => inr (cur ++ [comp])
        | None => inl ENOENT
        end
  end.

Fixpoint walk (t : gmap (list string) entry) (cur : list string)
    (comps : list string) : errno + list string :=
  match comps with
  | [] => inr cur
  | comp :: rest =>
      match lookup_step t cur comp with
      | inr cur' => walk t cur' rest
      | inl e => inl e
      end
  end.

Definition start (fs : FS) (path : string) : list string :=
  if isabs path then [] else cwd fs.

(** [os.stat(path)]: the location the path leads to. *)
Definition stat (fs : FS) (path : string) : errno + list string :=
  if is_empty path then inl ENOENT
  else walk (tree fs) (start fs path) (split_sep path).

(** [os.path.exists(path)] *)
Definition path_exists (fs : FS) (path : string) : bool :=
  match stat fs path with inr _ => true | inl _ => false end.

(** [os.path.isdir(path)] *)
Definition isdir (fs : FS) (path : string) : bool :=
  match stat fs path with inr k => is_dir_at (tree fs) k | inl _ => false end.

(** [os.path.samefile(a, b)], [False] where it raises. *)
Definition samefile (fs : FS) (a b : string) : bool :=
  match stat fs a, stat fs b with
  | inr ka, inr kb => bool_decide (ka = kb)
  | _, _ => false
  end.

(** [os.getcwd()] *)
Definition getcwd (fs : FS) : string := "/" +:+ join_sep (cwd fs).

(** [os.path.abspath(path)] *)
Definition abspath (fs : FS) (path : string) : string :=
  normpath (if isabs path then path else join (getcwd fs) path).

Fixpoint rstrip_empty (comps : list string) : list string :=
  match comps with
  | [] => []
  | c :: rest =>
      match rstrip_empty rest with
      | [] => if is_empty c then [] else [c]
      | r => c :: r
      end
  end.

Definition has_trailing_sep (path : string) : bool := endswith_sep path.

(** The directory that holds the last component of [path], and that
    component; trailing slashes are dropped first, and a path of slashes
    only has no last component. *)
Definition parent_and_name (fs : FS) (path : string)
  : errno + (list string * option string) :=
  if is_empty path then inl ENOENT
  else
    let comps := rstrip_empty (split_sep path) in
    match last comps with
    | None => inr ([], None)
    | Some name =>
        match walk (tree fs) (start fs path) (removelast comps) with
        | inl e => inl e
        | inr P =>
            match tree fs !! P with
            | Some Dir => inr (P, Some name)
            | Some (File _) => inl ENOTDIR
            | None => inl ENOENT
            end
        end
    end.

Definition is_dots (name : string) : bool :=
  bool_decide (name = "." \/ name = "..").

Definition with_tree (fs : FS) (t : gmap (list string) entry) : FS :=
  {| tree := t; cwd := cwd fs |}.

(** [mkdir(2)] *)
Definition mkdir_sys (path : string) (fs : FS) : errno + FS :=
  match parent_and_name fs path with
  | inl e => inl e
  | inr (_, None) => inl EEXIST
  | inr (P, Some name) =>
      if is_dots name then inl EEXIST
      else match tree fs !! (P ++ [name]) with
           | Some _ => inl EEXIST
           | None => inr (with_tree fs (<[P ++ [name] := Dir]> (tree fs)))
           end
  end.

(** [rename(2)] *)
Definition rename_sys (src dst : string) (fs : FS) : errno + FS :=
  match parent_and_name fs src with
  | inl e => inl e
  | inr (Ps, ns) =>
  match parent_and_name fs dst with
  | inl e => inl e
  | inr (Pd, nd) =>
  match ns, nd with
  | Some ns, Some nd =>
      if is_dots ns || is_dots nd then inl EBUSY else
      let old := Ps ++ [ns] in
      let new := Pd ++ [nd] in
      match tree fs !! old with
      | None => inl ENOENT
      | Some (File c) =>
          if has_trailing_sep src || has_trailing_sep dst then inl ENOTDIR
          else if bool_decide (old = new) then inr fs
          else if is_prefix new old then inl ENOTEMPTY
          else match tree fs !! new with
               | Some Dir => inl EISDIR
               | _ => inr (with_tree fs (move_subtree old new (tree fs)))
               end
      | Some Dir =>
          if bool_decide (old = new) then inr fs
          else if is_prefix old new then inl EINVAL
          else if is_prefix new old then inl ENOTEMPTY
          else match tree fs !! new with
               | Some (File _) => inl ENOTDIR
               | Some Dir =>
                   if has_children (tree fs) new then inl ENOTEMPTY
                   else inr (with_tree fs (move_subtree old new (tree fs)))
               | None => inr (with_tree fs (move_subtree old new (tree fs)))
               end
      end
  | _, _ => inl EBUSY
  end end end.

(** [unlink(2)] *)
Definition unlink_sys (path : string) (fs : FS) : errno + FS :=
  match parent_and_name fs path with
  | inl e => inl e
  | inr (_, None) => inl EISDIR
  | inr (P, Some name) =>
      if is_dots name then inl EISDIR
      else match tree fs !! (P ++ [name]) with
           | None => inl ENOENT
           | Some Dir => inl EISDIR
           | Some (File _) =>
               if has_trailing_sep path then inl ENOTDIR
               else inr (with_tree fs (delete (P ++ [name]) (tree fs)))
           end
  end.

(** [rmdir(2)] *)
Definition rmdir_sys (path : string) (fs : FS) : errno + FS :=
  match parent_and_name fs path with
  | inl e => inl e
  | inr (_, None) => inl EBUSY
  | inr (P, Some name) =>
      if bool_decide (name = ".") then inl EINVAL
      else if bool_decide (name = "..") then inl ENOTEMPTY
      else match tree fs !! (P ++ [name]) with
           | None => inl ENOENT
           | Some (File _) => inl ENOTDIR
           | Some Dir =>
               if has_children (tree fs) (P ++ [name]) then inl ENOTEMPTY
               else inr (with_tree fs (delete (P ++ [name]) (tree fs)))
           end
  end.

(** [open(path, "wb")] followed by writing [content] *)
Definition write_sys (path content : string) (fs : FS) : errno + FS :=
  match parent_and_name fs path with
  | inl e => inl e
  | inr (_, None) => inl EISDIR
  | inr (P, Some name) =>
      if is_dots name then inl EISDIR
      else match tree fs !! (P ++ [name]) with
           | Some Dir => inl EISDIR
           | Some (File _) =>
               if has_trailing_sep path then inl ENOTDIR
               else inr (with_tree fs (<[P ++ [name] := File content]> (tree fs)))
           | None =>
               if has_trailing_sep path then inl EISDIR
               else inr (with_tree fs (<[P ++ [name] := File content]> (tree fs)))
           end
  end.

Definition mkdir (path : string) : Py unit := syscall (mkdir_sys path).
Definition rename (src dst : string) : Py unit := syscall (rename_sys src dst).
Definition unlink (path : string) : Py unit := syscall (unlink_sys path).
Definition rmdir (path : string) : Py unit := syscall (rmdir_sys path).

(** [os.makedirs(name)], with [exist_ok=False]: the recursion of os.py on
    the head of the path, which is shorter than the path at every call. *)
Fixpoint makedirs_rec (fuel : nat) (name : string) : Py unit :=
  match fuel with
  | O => mkdir name
  | S fuel' =>
      let '(head, tail) := split name in
      let '(head, tail) := if is_empty tail then split head else (head, tail) in
      exists_head <- inspect (fun fs => path_exists fs head) ;;
      if negb (is_empty head) && negb (is_empty tail) && negb exists_head then
        pass_FileExistsError (makedirs_rec fuel' head) ;;
        if bool_decide (tail = ".") then ret tt
        else mkdir name
      else mkdir name
  end.

Definition makedirs (name : string) : Py unit :=
  makedirs_rec (String.length name) name.

End OS.

(** ** shutil *)

Module Shutil.
Import Str PosixPath OS.

(** [shutil._basename(path)] *)
Definition _basename (path : string) : string :=
  basename (rstrip_by is_sep path).

(** [shutil._samefile(src, dst)] *)
Definition _samefile (fs : FS) (src dst : string) : bool := samefile fs src dst.

(** [shutil._destinsrc(src, dst)] *)
Definition _destinsrc (fs : FS) (src dst : string) : bool :=
  let src := abspath fs src in
  let dst := abspath fs dst in
  let src := if endswith_sep src then src else src +:+ "/" in
  let dst := if endswith_sep dst then dst else dst +:+ "/" in
  startswith src dst.

(** [shutil.copy2(src, dst)] of a regular file; the file times and modes
    [copystat] carries over are not part of the tree. *)
Definition copy2 (src dst : string) : Py unit :=
  dst_is_dir <- inspect (fun fs => isdir fs dst) ;;
  let dst := if dst_is_dir then join dst (basename src) else dst in
  same <- inspect (fun fs => _samefile fs src dst) ;;
  if same then raise SameFileError
  else
    source <- inspect (fun fs =>
                match stat fs src with
                | inr k => inr (tree fs !! k)
                | inl e => inl e
                end) ;;
    match source with
    | inl e => raise (OSError e)
    | inr (Some (File content)) => syscall (write_sys dst content)
    | inr _ => raise (OSError EISDIR)
    end.

(** [shutil.copytree(src, dst)].  The destination [os.makedirs] leaves is
    a new, empty directory outside the source, and the source is copied
    under it.  [os.makedirs] can also return on a destination that was
    there before, for a path ending in "." through a ".." of a directory
    it created on the way; the copy into such a destination is not
    followed entry by entry and is reported as the [shutil.Error] that
    collects the failures of the entries. *)
Definition copytree (src dst : string) : Py unit :=
  src_is_dir <- inspect (fun fs => isdir fs src) ;;
  if negb src_is_dir then raise (OSError ENOTDIR)
  else
    makedirs dst ;;
    fun fs =>
      match stat fs src, stat fs dst with
      | inr old, inr new =>
          if is_dir_at (tree fs) new && negb (has_children (tree fs) new)
             && negb (is_prefix old new)
          then (Returns tt, with_tree fs (graft_subtree old new (tree fs)))
          else (Raises (ShutilError (DestinationExists dst)), fs)
      | _, _ => (Raises (ShutilError (DestinationExists dst)), fs)
      end.

(** [shutil.rmtree(path)]: the entries below go first, then the directory
    itself with [os.rmdir(path)]. *)
Definition rmtree (path : string) : Py unit :=
  fun fs =>
    match stat fs path with
    | inl e => (Raises (OSError e), fs)
    | inr old =>
        if is_dir_at (tree fs) old
        then rmdir path (with_tree fs (clear_subtree old (tree fs)))
        else (Raises (OSError ENOTDIR), fs)
    end.

(** The [try: os.rename(src, real_dst)  except OSError: ...] of
    [shutil.move]; there are no symbolic links and no immutable flags. *)
Definition rename_or_copy (src dst real_dst : string) : Py unit :=
  except_OSError (rename src real_dst)
    (src_is_dir <- inspect (fun fs => isdir fs src) ;;
     if src_is_dir then
       inside <- inspect (fun fs => _destinsrc fs src dst) ;;
       if inside then raise (ShutilError (MoveIntoItself src dst))
       else copytree src real_dst ;; rmtree src
     else copy2 src real_dst ;; unlink src).

(** [shutil.move(src, dst)] *)
Definition move (src dst : string) : Py unit :=
  dst_is_dir <- inspect (fun fs => isdir fs dst) ;;
  if dst_is_dir then
    same <- inspect (fun fs => _samefile fs src dst) ;;
    if same then rename src dst
    else
      let real_dst := join dst (_basename src) in
      taken <- inspect (fun fs => path_exists fs real_dst) ;;
      if taken then raise (ShutilError (DestinationExists real_dst))
      else rename_or_copy src dst real_dst
  else rename_or_copy src dst dst.

End Shutil.

(** ** pandas: the table handed to the loop *)

Module Pandas.

(** A cell as the row holds it that [iterrows] yields, of the common type
    of the columns of the table: a float where the columns are integers
    and floats, the value as [read_csv] typed it where a column of text is
    among them.  A float keeps the text [str] prints for it; a missing cell
    is NaN. *)
Inductive scalar :=
  | SStr (s : string)
  | SInt (z : Z)
  | SFloat (repr : string)
  | SBool (b : bool)
  | SNaN.

(** [str(x)] *)
Definition str (x : scalar) : string :=
  match x with
  | SStr s => s
  | SInt z => pretty z
  | SFloat repr => repr
  | SBool true => "True"
  | SBool false => "False"
  | SNaN => "nan"
  end.

(** The table by its column labels and its rows, the rows of
    [DataFrame.values]. *)
Record DataFrame := mkDataFrame {
  columns : list string;
  data : list (list scalar)
}.

(** A row as [iterrows] yields it: the column labels and the values. *)
Record Series := mkSeries {
  labels : list string;
  values : list scalar
}.

Definition iterrows (df : DataFrame) : list (nat * Series) :=
  imap (fun i r => (i, mkSeries (columns df) r)) (data df).

(** [row[key]]: the first column labelled [key], [KeyError] without one;
    a row shorter than the header is padded with NaN. *)
Definition getitem (row : Series) (key : string) : Py scalar :=
  match list_find (fun label => label = key) (labels row) with
  | Some (i, _) => ret (nth i (values row) SNaN)
  | None => raise (KeyError key)
  end.

End Pandas.

(** ** organize.py *)

Module Organize.
Import Str PosixPath OS Shutil Pandas.

(** Lines 13-14: [if not os.path.exists(team_directory):
    os.makedirs(team_directory)] *)
Definition create_team_directory (team_directory : string) : Py unit :=
  team_directory_exists <- inspect (fun fs => path_exists fs team_directory) ;;
  if negb team_directory_exists then makedirs team_directory else ret tt.

(** Lines 17-18: [if os.path.exists(source_path):
    shutil.move(source_path, destination_path)] *)
Definition move_if_exists (source_path destination_path : string) : Py unit :=
  source_exists <- inspect (fun fs => path_exists fs source_path) ;;
  if source_exists then move source_path destination_path else ret tt.

(** Lines 10-18: the body of the loop, for one [(index, row)] of
    [df.iterrows()]. *)
Definition loop_body (image_directory team_col photo_col : string)
    (item : nat * Series) : Py unit :=
  let '(index, row) := item in
  team_value <- getitem row team_col ;;
  let team_name := strip (str team_value) in
  photo_value <- getitem row photo_col ;;
  let photo_name := strip (str photo_value) in
  let team_directory := join image_directory team_name in
  create_team_directory team_directory ;;
  let source_path := join image_directory photo_name in
  let destination_path := join team_directory photo_name in
  move_if_exists source_path destination_path.

Section with_read_csv.

(** [pd.read_csv]: what the table file at a path parses to in a file tree,
    or the exception it raises; reading leaves the tree as it is. *)
Variable read_csv : string -> FS -> outcome DataFrame.

Definition pd_read_csv (csv_path : string) : Py DataFrame :=
  fun fs => (read_csv csv_path fs, fs).

Definition organize_photos_by_team
    (csv_path image_directory team_col photo_col : string) : Py unit :=
  df <- pd_read_csv csv_path ;;
  for_each (iterrows df) (loop_body image_directory team_col photo_col).

(** The module-level widgets [run_organizer] reads, each with the text it
    holds. *)
Record Widgets := mkWidgets {
  csv_entry : string;
  dir_entry : string;
  team_col_combobox : string;
  photo_col_combobox : string
}.

Definition run_organizer (w : Widgets) : Py unit :=
  let csv_path := csv_entry w in
  let image_directory := dir_entry w in
  let team_col := team_col_combobox w in
  let photo_col := photo_col_combobox w in
  organize_photos_by_team csv_path image_directory team_col photo_col.

End with_read_csv.

End Organize.

(** ** organize-mac.py *)

Module OrganizeMac.
Import Str PosixPath OS Shutil Pandas.

(** The widgets of a [PhotoOrganizer] window that [run_organizer] reads. *)
Record PhotoOrganizer := mkPhotoOrganizer {
  csv_entry : string;
  dir_entry : string;
  team_col_combobox : string;
  photo_col_combobox : string
}.

Section with_read_csv.

Variable read_csv : string -> FS -> outcome DataFrame.

(** [PhotoOrganizer.run_organizer(self)], lines 72-88 *)
Definition run_organizer (self : PhotoOrganizer) : Py unit :=
  let csv_path := csv_entry self in
  let image_directory := dir_entry self in
  let team_col := team_col_combobox self in
  let photo_col := photo_col_combobox self in
  df <- (fun fs => (read_csv csv_path fs, fs)) ;;
  for_each (iterrows df) (fun '(index, row) =>
    team_value <- getitem row team_col ;;
    let team_name := strip (str team_value) in
    photo_value <- getitem row photo_col ;;
    let photo_name := strip (str photo_value) in
    let team_directory := join image_directory team_name in
    team_directory_exists <- inspect (fun fs => path_exists fs team_directory) ;;
    (if negb team_directory_exists then makedirs team_directory else ret tt) ;;
    let source_path := join image_directory photo_name in
    let destination_path := join team_directory photo_name in
    source_exists <- inspect (fun fs => path_exists fs source_path) ;;
    if source_exists then move source_path destination_path else ret tt).

End with_read_csv.

End OrganizeMac.

(** ** The bounds of the kernel on names and paths *)

Module Limits.
Import PosixPath.

(** A call of the kernel fails with [ENAMETOOLONG] for a name of more than
    [NAME_MAX] bytes and for a path of [PATH_MAX] bytes or more, and Python
    raises [ValueError] for a path with a null byte before it calls.  The
    names that are in a tree have passed these bounds; [os.makedirs] meets
    them with the team value of a row. *)
Definition NAME_MAX : nat := 255.
Definition PATH_MAX : nat := 4096.

Fixpoint has_null (s : string) : bool :=
  match s with
  | EmptyString => false
  | String c s' => bool_decide (c = "000"%char) || has_null s'
  end.

(** A name that a directory can be made under. *)
Definition name_fits (name : string) : bool :=
  (String.length name <=? NAME_MAX)%nat && negb (has_null name).

(** A path that a call takes. *)
Definition path_fits (path : string) : bool :=
  (String.length path <? PATH_MAX)%nat.

(** The team directory of every row can be made in [dir]. *)
Definition teams_fit (dir : string) (rows : list (string * string)) : bool :=
  forallb (fun r => name_fits r.1 && path_fits (join dir r.1)) rows.

End Limits.

(** ** The notions the properties are stated with *)

Module Props.
Import Str PosixPath OS Pandas.

(** The entry a path leads to, if any. *)
Definition entry_at (fs : FS) (path : string) : option entry :=
  match stat fs path with
  | inr k => tree fs !! k
  | inl _ => None
  end.

Fixpoint has_sep (s : string) : bool :=
  match s with
  | EmptyString => false
  | String c s' => is_sep c || has_sep s'
  end.

(** A plain name: one non-empty path segment other than "." and "..". *)
Definition plain_name (s : string) : bool :=
  negb (is_empty s) && negb (has_sep s) && negb (is_dots s).

(** A team value is a plain name, or empty after trimming. *)
Definition team_name_ok (s : string) : bool := is_empty s || plain_name s.

(** The directory path has no ".." segment. *)
Definition no_dotdot (path : string) : bool :=
  forallb (fun comp => negb (bool_decide (comp = ".."))) (split_sep path).

(** [dir] leads to the directory at [D]. *)
Definition leads_to_dir (fs : FS) (dir : string) (D : list string) : Prop :=
  stat fs dir = inr D /\ is_dir_at (tree fs) D = true.

(** The cell of a row under a column label, if the row has the column. *)
Definition cell (row : Series) (col : string) : option scalar :=
  match list_find (fun label => label = col) (labels row) with
  | Some (i, _) => Some (nth i (values row) SNaN)
  | None => None
  end.

(** The trimmed text of a cell. *)
Definition trimmed (row : Series) (col : string) : option string :=
  (fun v => strip (str v)) <$> cell row col.

(** The trimmed team and photo of a row. *)
Definition names (team_col photo_col : string) (row : Series)
  : option (string * string) :=
  match trimmed row team_col, trimmed row photo_col with
  | Some team, Some photo => Some (team, photo)
  | _, _ => None
  end.

(** A string of white space only. *)
Inductive spaces : string -> Prop :=
  | spaces_nil : spaces ""
  | spaces_cons w s : w ∈ whitespace -> spaces s -> spaces (w +:+ s).

(** [r] is [s] with white space taken off both ends, and all of it: [r]
    neither starts nor ends with a character of white space. *)
Definition stripped_of (s r : string) : Prop :=
  exists l t,
    s = l +:+ r +:+ t
    /\ spaces l /\ spaces t
    /\ (forall w u, w ∈ whitespace -> r <> w +:+ u)
    /\ (forall w u, w ∈ whitespace -> r <> u +:+ w).

(** *** What a row does to the tree, for plain names under the directory
    at [D] *)

Definition ensure_dir_at (k : list string) (t : gmap (list string) entry)
  : gmap (list string) entry :=
  match t !! k with
  | None => <[k := Dir]> t
  | Some _ => t
  end.

(** Where the entry at [D ++ [photo]] goes: [None] when the move raises,
    [Some None] when nothing moves, [Some (Some new)] when it moves to
    [new]. *)
Definition move_plan (D : list string) (team photo : string)
    (t : gmap (list string) entry) : option (option (list string)) :=
  match t !! (D ++ [photo]) with
  | None => Some None
  | Some e =>
      if is_dir_at t (D ++ [team]) then
        if is_dir_at t (D ++ [team; photo]) then
          match t !! (D ++ [team; photo; photo]) with
          | None => Some (Some (D ++ [team; photo; photo]))
          | Some _ => None
          end
        else
          match t !! (D ++ [team; photo]), e with
          | None, _ => Some (Some (D ++ [team; photo]))
          | Some (File _), File _ => Some (Some (D ++ [team; photo]))
          | _, _ => None
          end
      else None
  end.

Definition relocate (D : list string) (team photo : string)
    (t : gmap (list string) entry) : option (gmap (list string) entry) :=
  match move_plan D team photo t with
  | None => None
  | Some None => Some t
  | Some (Some new) => Some (move_subtree (D ++ [photo]) new t)
  end.

Definition row_effect (D : list string) (row : string * string)
    (t : gmap (list string) entry) : option (gmap (list string) entry) :=
  let '(team, photo) := row in
  if is_empty team then Some t
  else relocate D team photo (ensure_dir_at (D ++ [team]) t).

Fixpoint rows_effect (D : list string) (rows : list (string * string))
    (t : gmap (list string) entry) : option (gmap (list string) entry) :=
  match rows with
  | [] => Some t
  | row :: rest =>
      match row_effect D row t with
      | Some t' => rows_effect D rest t'
      | None => None
      end
  end.

(** Two locations neither of which is at or under the other. *)
Definition apart (a b : list string) : Prop :=
  ¬ a `prefix_of` b /\ ¬ b `prefix_of` a.

(** *** Tables of plain names *)

(** The trimmed team and photo of every row, when every row has both
    columns. *)
Definition table_rows (team_col photo_col : string) (df : DataFrame)
  : option (list (string * string)) :=
  mapM (fun r => names team_col photo_col (mkSeries (columns df) r)) (data df).

Definition row_names_ok (r : string * string) : bool :=
  team_name_ok r.1 && plain_name r.2.

(** No team value is the photo value of a row, the same or another. *)
Definition teams_differ_from_photos (rs : list (string * string)) : Prop :=
  forall r1 r2, r1 ∈ rs -> r2 ∈ rs -> r1.1 <> r2.2.

(** Every team is a plain name or empty, every photo is a plain name, and
    no team is a photo. *)
Definition plain_rows (rs : list (string * string)) : bool :=
  forallb row_names_ok rs
  && forallb (fun r1 =>
       forallb (fun r2 => negb (bool_decide (r1.1 = r2.2))) rs) rs.

Definition distinct_photos (rs : list (string * string)) : bool :=
  bool_decide (NoDup rs.*2).

(** The computation ends in an exception. *)
Definition raises {A} (r : outcome A * FS) : Prop :=
  exists e fs', r = (Raises e, fs').

End Props.

(** ** Concrete inputs for the examples *)

Module Scenario.
Import Pandas.

(** The directory [/D] with the regular files [a.jpg] and [b.jpg]. *)
Definition photos_dir : FS :=
  mkFS (list_to_map
          [([], Dir); (["D"], Dir);
           (["D"; "a.jpg"], File "A"); (["D"; "b.jpg"], File "B")])
       [].

(** The same with the team directory [/D/Red] in place. *)
Definition photos_dir_with_Red : FS :=
  mkFS (list_to_map
          [([], Dir); (["D"], Dir); (["D"; "Red"], Dir);
           (["D"; "a.jpg"], File "A"); (["D"; "b.jpg"], File "B")])
       [].

(** The directory [/D] with a directory [sub] that holds the file [x]. *)
Definition albums_dir : FS :=
  mkFS (list_to_map
          [([], Dir); (["D"], Dir); (["D"; "sub"], Dir);
           (["D"; "sub"; "x"], File "X"); (["D"; "a.jpg"], File "A")])
       [].

(** A table with the columns [Team] and [Photo] and text cells. *)
Definition table (rows : list (string * string)) : DataFrame :=
  mkDataFrame ["Team"; "Photo"] ((fun r => [SStr r.1; SStr r.2]) <$> rows).

(** A table source that parses to [df] whatever the path. *)
Definition reads (df : DataFrame) : string -> FS -> outcome DataFrame :=
  fun _ _ => Returns df.

Definition row (team photo : string) : Series :=
  mkSeries ["Team"; "Photo"] [SStr team; SStr photo].

End Scenario.

(** ** tkinter: the text of an [Entry] *)

Module Tk.

(** An index into the text of an entry: a position, which is clamped to
    the text, or [tk.END]. *)
Inductive index :=
  | Position (n : nat)
  | END.

Definition resolve (i : index) (text : string) : nat :=
  match i with
  | Position n => Nat.min n (String.length text)
  | END => String.length text
  end.

(** [text[:n]] and [text[n:]] *)
Definition upto (n : nat) (text : string) : string := substring 0 n text.

Definition from (n : nat) (text : string) : string :=
  substring n (String.length text - n) text.

(** [Entry.delete(first, last)]: the characters from [first] up to, not
    including, [last]. *)
Definition delete (first last : index) (text : string) : string :=
  let a := resolve first text in
  let b := resolve last text in
  if (a <? b)%nat then upto a text +:+ from b text else text.

(** [Entry.insert(index, string)] *)
Definition insert (i : index) (s : string) (text : string) : string :=
  let a := resolve i text in
  upto a text +:+ s +:+ from a text.

End Tk.

(** ** organize.py: the window and its buttons *)

Module OrganizeWindow.
Import Tk.

(** Lines 20-23.  [filename] is what [filedialog.askopenfilename] returns:
    the path chosen, or the empty string when the dialog is cancelled. *)
Definition browse_csv (filename : string) (w : Organize.Widgets)
  : Organize.Widgets :=
  let text := delete (Position 0) END (Organize.csv_entry w) in
  let text := insert (Position 0) filename text in
  Organize.mkWidgets text (Organize.dir_entry w)
    (Organize.team_col_combobox w) (Organize.photo_col_combobox w).

(** Lines 25-28.  [dirname] is what [filedialog.askdirectory] returns. *)
Definition browse_dir (dirname : string) (w : Organize.Widgets)
  : Organize.Widgets :=
  let text := delete (Position 0) END (Organize.dir_entry w) in
  let text := insert (Position 0) dirname text in
  Organize.mkWidgets (Organize.csv_entry w) text
    (Organize.team_col_combobox w) (Organize.photo_col_combobox w).

(** Lines 37-76: the widgets as the module builds them, two empty entries
    and the two comboboxes after [set("Team")] and [set("Photo")]. *)
Definition window : Organize.Widgets := Organize.mkWidgets "" "" "Team" "Photo".

End OrganizeWindow.

(** ** PyQt5: the text of a [QLineEdit], the choice of a [QComboBox] *)

Module Qt.

(** [QLineEdit.maxLength()], which the source leaves at its default. *)
Definition maxLength : nat := Z.to_nat 32767.

(** [QLineEdit.setText(text)]: the text is cut at [maxLength]. *)
Definition setText (text : string) : string := substring 0 maxLength text.

(** A [QComboBox] that is not editable: its items and the current one. *)
Record QComboBox := mkQComboBox {
  items : list string;
  currentIndex : option nat
}.

Definition new_QComboBox : QComboBox := mkQComboBox [] None.

(** [addItems(texts)]: the first item added to an empty box becomes the
    current one. *)
Definition addItems (texts : list string) (box : QComboBox) : QComboBox :=
  mkQComboBox (items box ++ texts)
    (match currentIndex box, items box ++ texts with
     | None, _ :: _ => Some 0%nat
     | current, _ => current
     end).

(** [setCurrentText(text)]: the item with that text becomes the current
    one, when there is one. *)
Definition setCurrentText (text : string) (box : QComboBox) : QComboBox :=
  match list_find (fun item => item = text) (items box) with
  | Some (i, _) => mkQComboBox (items box) (Some i)
  | None => box
  end.

(** [currentText()] *)
Definition currentText (box : QComboBox) : string :=
  match currentIndex box with
  | Some i => nth i (items box) ""
  | None => ""
  end.

End Qt.

(** ** organize-mac.py: the window and its buttons *)

Module OrganizeMacWindow.
Import Qt.

(** Lines 62-65.  [dialog] is the pair [QFileDialog.getOpenFileName]
    returns, the path chosen and the filter, both empty when the dialog is
    cancelled. *)
Definition browse_csv (dialog : string * string)
    (self : OrganizeMac.PhotoOrganizer) : OrganizeMac.PhotoOrganizer :=
  let '(filename, _) := dialog in
  OrganizeMac.mkPhotoOrganizer (setText filename) (OrganizeMac.dir_entry self)
    (OrganizeMac.team_col_combobox self) (OrganizeMac.photo_col_combobox self).

(** Lines 67-70.  [dirname] is what [QFileDialog.getExistingDirectory]
    returns. *)
Definition browse_dir (dirname : string)
    (self : OrganizeMac.PhotoOrganizer) : OrganizeMac.PhotoOrganizer :=
  OrganizeMac.mkPhotoOrganizer (OrganizeMac.csv_entry self) (setText dirname)
    (OrganizeMac.team_col_combobox self) (OrganizeMac.photo_col_combobox self).

(** Lines 16-60: the widgets [initUI] builds, with the texts they hold. *)
Definition initUI : OrganizeMac.PhotoOrganizer :=
  let team_col_combobox :=
    setCurrentText "Team"
      (addItems ["Team"; "Division"; "Period"] new_QComboBox) in
  let photo_col_combobox :=
    setCurrentText "Photo" (addItems ["Photo"; "SPA"] new_QComboBox) in
  OrganizeMac.mkPhotoOrganizer "" ""
    (currentText team_col_combobox) (currentText photo_col_combobox).

End OrganizeMacWindow.

(** ** The outcome of a run, also when it raises *)

Module Outcomes.
Import Str PosixPath OS Pandas Props.

(** [dir] is the image directory at [D]: a path that leads to the
    directory there, or the empty path, which [os.path.join] drops, with [D]
    the working directory. *)
Definition image_directory_at (fs : FS) (dir : string) (D : list string) : Prop :=
  (dir = "" /\ D = cwd fs /\ is_dir_at (tree fs) D = true)
  \/ leads_to_dir fs dir D.

(** The computation raises and leaves the file tree [fs]. *)
Definition raises_in {A} (fs : FS) (r : outcome A * FS) : Prop :=
  exists e, r = (Raises e, fs).

(** Whether every row returns, and the tree the rows leave: a row that
    raises has at most put its team directory in place. *)
Fixpoint rows_outcome (D : list string) (rows : list (string * string))
    (t : gmap (list string) entry) : bool * gmap (list string) entry :=
  match rows with
  | [] => (true, t)
  | row :: rest =>
      match row_effect D row t with
      | Some t' => rows_outcome D rest t'
      | None => (false, ensure_dir_at (D ++ [row.1]) t)
      end
  end.


(** Nothing is at [k] or below it. *)
Definition vacant (t : gmap (list string) entry) (k : list string) : bool :=
  forallb (fun k' => negb (is_prefix k k')) (keys t).

(** No team value is empty. *)
Definition named_teams (rs : list (string * string)) : bool :=
  forallb (fun r => negb (is_empty r.1)) rs.

(** The entry at [D ++ [photo]], if there is one, moved into the directory
    at [D ++ [team]]. *)
Definition filed (D : list string) (team : string)
    (t : gmap (list string) entry) (photo : string) : gmap (list string) entry :=
  match t !! (D ++ [photo]) with
  | Some _ => move_subtree (D ++ [photo]) (D ++ [team; photo]) t
  | None => t
  end.

(** The tree with one directory made, at [D ++ [team]], and then the
    entries of the photos moved into it, one after the other. *)
Definition gathered (D : list string) (team : string) (photos : list string)
    (t : gmap (list string) entry) : gmap (list string) entry :=
  foldl (filed D team) (<[D ++ [team] := Dir]> t) photos.

End Outcomes.

(** ** Further file trees for the examples *)

Module Cases.
Import Pandas.

(** [/D] with [a.jpg] and an older [a.jpg] in the team directory [Red]. *)
Definition photos_dir_with_old_copy : FS :=
  mkFS (list_to_map
          [([], Dir); (["D"], Dir); (["D"; "Red"], Dir);
           (["D"; "Red"; "a.jpg"], File "old"); (["D"; "a.jpg"], File "A")])
       [].


(** The same with a file [a.jpg] inside that directory. *)
Definition photos_dir_with_full_album : FS :=
  mkFS (list_to_map
          [([], Dir); (["D"], Dir); (["D"; "Red"], Dir);
           (["D"; "Red"; "a.jpg"], Dir);
           (["D"; "Red"; "a.jpg"; "a.jpg"], File "old");
           (["D"; "a.jpg"], File "A")])
       [].

(** [/D] with [a.jpg] and a regular file named [Red]. *)
Definition photos_dir_with_file_Red : FS :=
  mkFS (list_to_map
          [([], Dir); (["D"], Dir); (["D"; "Red"], File "r");
           (["D"; "a.jpg"], File "A")])
       [].

(** [/D] with a directory [sub] that holds [x], and a regular file [sub]
    in the team directory [Red]. *)
Definition albums_dir_with_file_sub : FS :=
  mkFS (list_to_map
          [([], Dir); (["D"], Dir); (["D"; "sub"], Dir);
           (["D"; "sub"; "x"], File "X"); (["D"; "Red"], Dir);
           (["D"; "Red"; "sub"], File "s")])
       [].

(** The working directory [/D] with [a.jpg] and [b.jpg]. *)
Definition photos_cwd : FS :=
  mkFS (list_to_map
          [([], Dir); (["D"], Dir);
           (["D"; "a.jpg"], File "A"); (["D"; "b.jpg"], File "B")])
       ["D"].


End Cases.

(** * Properties *)

Import Str PosixPath OS Shutil Pandas Limits Props.
Local Open Scope py_scope.

(** ** The monad and the loop *)

Lemma bind_returns {A B} (m : Py A) (k : A -> Py B) fs a fs' :
  m fs = (Returns a, fs') -> bind m k fs = k a fs'.
Proof. intros H. unfold bind. now rewrite H. Qed.

Lemma bind_raises {A B} (m : Py A) (k : A -> Py B) fs e fs' :
  m fs = (Raises e, fs') -> bind m k fs = (Raises e, fs').
Proof. intros H. unfold bind. now rewrite H. Qed.

Lemma bind_inspect {A B} (f : FS -> A) (k : A -> Py B) fs :
  bind (inspect f) k fs = k (f fs) fs.
Proof. reflexivity. Qed.

Lemma bind_ext {A B} (m : Py A) (k k' : A -> Py B) fs :
  (forall a fs', k a fs' = k' a fs') -> bind m k fs = bind m k' fs.
Proof. intros H. unfold bind. destruct (m fs) as [[a|e] fs']; auto. Qed.

Lemma for_each_app {A} (l1 l2 : list A) (body : A -> Py unit) fs :
  for_each (l1 ++ l2) body fs =
  match for_each l1 body fs with
  | (Returns _, fs1) => for_each l2 body fs1
  | (Raises e, fs1) => (Raises e, fs1)
  end.
Proof.
  revert fs. induction l1 as [|x l1 IH]; intros fs; simpl.
  - reflexivity.
  - unfold bind. destruct (body x fs) as [[[]|e] fs1]; [apply IH | reflexivity].
Qed.

Lemma for_each_ext {A} (l : list A) (body body' : A -> Py unit) fs :
  (forall x fs, body x fs = body' x fs) ->
  for_each l body fs = for_each l body' fs.
Proof.
  intros Hb. revert fs. induction l as [|x l IH]; intros fs; simpl.
  - reflexivity.
  - unfold bind. rewrite Hb. destruct (body' x fs) as [[[]|e] fs1]; auto.
Qed.

Section loop.

Variable read_csv : string -> FS -> outcome DataFrame.

Lemma organize_unfold csv_path image_directory team_col photo_col fs df :
  read_csv csv_path fs = Returns df ->
  Organize.organize_photos_by_team read_csv csv_path image_directory
    team_col photo_col fs
  = for_each (iterrows df)
      (Organize.loop_body image_directory team_col photo_col) fs.
Proof.
  intros H. unfold Organize.organize_photos_by_team, Organize.pd_read_csv.
  unfold bind at 1. now rewrite H.
Qed.

(** C4. An exception raised while a row is processed is not caught: the
    call raises that exception, in the file tree the failing row left from
    the tree the rows before it produced; the rows after it play no part. *)
Theorem row_error_aborts_batch csv_path image_directory team_col photo_col
    fs df before i row after e fs1 fs2 :
  read_csv csv_path fs = Returns df ->
  iterrows df = before ++ (i, row) :: after ->
  for_each before (Organize.loop_body image_directory team_col photo_col) fs
    = (Returns tt, fs1) ->
  Organize.loop_body image_directory team_col photo_col (i, row) fs1
    = (Raises e, fs2) ->
  Organize.organize_photos_by_team read_csv csv_path image_directory
    team_col photo_col fs = (Raises e, fs2).
Proof.
  intros Hread Hrows Hbefore Hrow.
  rewrite (organize_unfold _ _ _ _ _ _ Hread), Hrows, for_each_app, Hbefore.
  cbn [for_each]. now apply bind_raises.
Qed.

(** C9. The loop of [organize_photos_by_team] in organize.py and the loop
    written out in the [run_organizer] of organize-mac.py give the same
    outcome (the same exception when one is raised) and the same file
    tree, for every table source, directory, pair of column names and
    initial tree; so does the [run_organizer] of organize.py, which only
    passes the four widget texts on. *)
Theorem front_ends_agree csv_path image_directory team_col photo_col fs :
  Organize.organize_photos_by_team read_csv csv_path image_directory
    team_col photo_col fs
  = OrganizeMac.run_organizer read_csv
      (OrganizeMac.mkPhotoOrganizer csv_path image_directory team_col photo_col)
      fs
  /\ Organize.run_organizer read_csv
       (Organize.mkWidgets csv_path image_directory team_col photo_col) fs
     = OrganizeMac.run_organizer read_csv
         (OrganizeMac.mkPhotoOrganizer csv_path image_directory team_col
            photo_col) fs.
Proof.
  assert (Organize.organize_photos_by_team read_csv csv_path image_directory
            team_col photo_col fs
          = OrganizeMac.run_organizer read_csv
              (OrganizeMac.mkPhotoOrganizer csv_path image_directory team_col
                 photo_col) fs) as Heq.
  { unfold OrganizeMac.run_organizer, Organize.organize_photos_by_team,
      Organize.pd_read_csv. cbn [OrganizeMac.csv_entry OrganizeMac.dir_entry
      OrganizeMac.team_col_combobox OrganizeMac.photo_col_combobox].
    apply bind_ext. intros df fs1.
    apply for_each_ext. intros [index row] fs2. reflexivity. }
  split; [exact Heq|]. unfold Organize.run_organizer. exact Heq.
Qed.

End loop.

(** ** Cells and column lookup *)

Lemma getitem_cell row col :
  getitem row col =
  match cell row col with
  | Some v => ret v
  | None => raise (KeyError col)
  end.
Proof.
  unfold getitem, cell.
  destruct (list_find _ (labels row)) as [[i label]|]; reflexivity.
Qed.

Lemma cell_None row col : cell row col = None <-> col ∉ labels row.
Proof.
  unfold cell. split.
  - destruct (list_find _ (labels row)) as [[i label]|] eqn:E; [discriminate|].
    intros _ Hin. apply list_find_None in E.
    rewrite Forall_forall in E. now apply (E col).
  - intros Hnot.
    destruct (list_find _ (labels row)) as [[i label]|] eqn:E; [|reflexivity].
    apply list_find_Some in E as (Hl & -> & _).
    exfalso. apply Hnot. eapply list_elem_of_lookup_2. exact Hl.
Qed.

Lemma names_cells team_col photo_col row team photo :
  names team_col photo_col row = Some (team, photo) ->
  exists vt vp,
    cell row team_col = Some vt /\ cell row photo_col = Some vp
    /\ team = strip (str vt) /\ photo = strip (str vp).
Proof.
  unfold names, trimmed.
  destruct (cell row team_col) as [vt|]; [|discriminate].
  destruct (cell row photo_col) as [vp|]; [|discriminate].
  cbn. intros [= <- <-]. exists vt, vp. auto.
Qed.

(** The loop body, once the two cells are read. *)
Lemma loop_body_cells image_directory team_col photo_col i row vt vp fs :
  cell row team_col = Some vt ->
  cell row photo_col = Some vp ->
  Organize.loop_body image_directory team_col photo_col (i, row) fs
  = bind (Organize.create_team_directory
            (join image_directory (strip (str vt))))
      (fun _ => Organize.move_if_exists
                  (join image_directory (strip (str vp)))
                  (join (join image_directory (strip (str vt)))
                     (strip (str vp)))) fs.
Proof.
  intros Ht Hp. unfold Organize.loop_body.
  rewrite !getitem_cell, Ht, Hp. reflexivity.
Qed.

Lemma loop_body_names image_directory team_col photo_col i row team photo fs :
  names team_col photo_col row = Some (team, photo) ->
  Organize.loop_body image_directory team_col photo_col (i, row) fs
  = bind (Organize.create_team_directory (join image_directory team))
      (fun _ => Organize.move_if_exists (join image_directory photo)
                  (join (join image_directory team) photo)) fs.
Proof.
  intros (vt & vp & Ht & Hp & -> & ->)%names_cells.
  now apply loop_body_cells.
Qed.

Lemma loop_body_KeyError image_directory team_col photo_col i row fs :
  team_col ∉ labels row \/ photo_col ∉ labels row ->
  Organize.loop_body image_directory team_col photo_col (i, row) fs
  = (Raises (KeyError (if decide (team_col ∈ labels row)
                       then photo_col else team_col)), fs).
Proof.
  intros H. unfold Organize.loop_body. rewrite !getitem_cell.
  destruct (decide (team_col ∈ labels row)) as [Hin|Hnot].
  - destruct H as [H|H]; [contradiction|].
    destruct (cell row team_col) as [vt|] eqn:Et.
    + apply cell_None in H. cbn. unfold bind, ret. now rewrite H.
    + apply cell_None in Et. contradiction.
  - apply cell_None in Hnot. now rewrite Hnot.
Qed.

Lemma create_team_directory_exists team_directory fs :
  path_exists fs team_directory = true ->
  Organize.create_team_directory team_directory fs = (Returns tt, fs).
Proof.
  intros H. unfold Organize.create_team_directory.
  rewrite bind_inspect, H. reflexivity.
Qed.

Lemma create_team_directory_absent team_directory fs :
  path_exists fs team_directory = false ->
  Organize.create_team_directory team_directory fs = makedirs team_directory fs.
Proof.
  intros H. unfold Organize.create_team_directory.
  rewrite bind_inspect, H. reflexivity.
Qed.

Lemma move_if_exists_absent source_path destination_path fs :
  path_exists fs source_path = false ->
  Organize.move_if_exists source_path destination_path fs = (Returns tt, fs).
Proof.
  intros H. unfold Organize.move_if_exists.
  rewrite bind_inspect, H. reflexivity.
Qed.

Lemma move_if_exists_present source_path destination_path fs :
  path_exists fs source_path = true ->
  Organize.move_if_exists source_path destination_path fs
  = move source_path destination_path fs.
Proof.
  intros H. unfold Organize.move_if_exists.
  rewrite bind_inspect, H. reflexivity.
Qed.

Section rows.

Variable read_csv : string -> FS -> outcome DataFrame.

(** C3 (amended). When the team column or the photo column is missing from
    the header, the call leaves the file tree as it is: it raises
    [KeyError] for the first missing column at the first row, before
    anything is created or moved, and returns without an error when the
    table has no row. *)
Theorem missing_column_leaves_tree csv_path image_directory team_col photo_col
    fs df :
  read_csv csv_path fs = Returns df ->
  team_col ∉ columns df \/ photo_col ∉ columns df ->
  Organize.organize_photos_by_team read_csv csv_path image_directory
    team_col photo_col fs
  = match data df with
    | [] => (Returns tt, fs)
    | _ :: _ =>
        (Raises (KeyError (if decide (team_col ∈ columns df)
                           then photo_col else team_col)), fs)
    end.
Proof.
  intros Hread Hmiss. rewrite (organize_unfold _ _ _ _ _ _ _ Hread).
  unfold iterrows. destruct (data df) as [|r rest]; [reflexivity|].
  cbn [imap for_each]. apply bind_raises.
  now rewrite loop_body_KeyError.
Qed.

End rows.

(** ** [str.strip] *)

Lemma append_cons c a b : String c a +:+ b = String c (a +:+ b).
Proof. reflexivity. Qed.

Lemma append_empty_l a : "" +:+ a = a.
Proof. reflexivity. Qed.

Lemma append_empty_r a : a +:+ "" = a.
Proof. induction a as [|c a IH]; [reflexivity|]. now rewrite append_cons, IH. Qed.

Lemma append_assoc a b c : (a +:+ b) +:+ c = a +:+ (b +:+ c).
Proof.
  induction a as [|x a IH]; [reflexivity|]. now rewrite !append_cons, IH.
Qed.

Lemma length_append a b :
  String.length (a +:+ b) = (String.length a + String.length b)%nat.
Proof.
  induction a as [|c a IH]; [reflexivity|]. rewrite append_cons. cbn. now rewrite IH.
Qed.

Lemma rstrip_by_split p s :
  exists t, s = rstrip_by p s +:+ t /\ lstrip_by p t = "".
Proof.
  induction s as [|c s IH]; cbn.
  - exists "". auto.
  - destruct IH as (t & Hs & Ht).
    destruct (rstrip_by p s) as [|c' r] eqn:E.
    + destruct (p c) eqn:Ec.
      * exists (String c t). rewrite append_empty_l in *. cbn. rewrite Ec.
        split; [now f_equal|exact Ht].
      * exists t. rewrite append_cons. split; [now f_equal|exact Ht].
    + exists t. rewrite append_cons. split; [now f_equal|exact Ht].
Qed.

Lemma isspace_whitespace c : isspace c = true <-> c ∈ whitespace.
Proof.
  unfold isspace. rewrite existsb_exists. split.
  - intros (w & Hin & Heq). apply String.eqb_eq in Heq. subst w.
    now apply list_elem_of_In.
  - intros Hin. exists c. split; [now apply list_elem_of_In|apply String.eqb_refl].
Qed.

(** Every character of white space is dropped from the start. *)
Lemma lstrip_whitespace :
  Forall (fun w => forall u, lstrip (w +:+ u) = lstrip u) whitespace.
Proof.
  let l := eval vm_compute in whitespace in change whitespace with l.
  repeat (apply Forall_cons; split; [intro; reflexivity|]). constructor.
Qed.

Lemma whitespace_nonempty w : w ∈ whitespace -> w <> "".
Proof.
  intros Hin ->. revert Hin. 
  assert (H : Forall (fun w => w <> "") whitespace).
  { let l := eval vm_compute in whitespace in change whitespace with l.
    repeat (apply Forall_cons; split; [discriminate|]). constructor. }
  rewrite Forall_forall in H. intros Hin. now apply (H "" Hin).
Qed.

Lemma spaces_lstrip l : spaces l -> lstrip l = "".
Proof.
  induction 1 as [|w s Hw _ IH]; [reflexivity|].
  pose proof lstrip_whitespace as H. rewrite Forall_forall in H.
  now rewrite (H w Hw).
Qed.

Lemma lstrip_split_le n s :
  (String.length s <= n)%nat ->
  exists l, s = l +:+ lstrip s /\ spaces l.
Proof.
  revert s. induction n as [|n IH]; intros s Hn.
  - destruct s; [|cbn in Hn; lia]. exists "". split; [reflexivity|constructor].
  - destruct s as [|a s1]; [exists ""; split; [reflexivity|constructor]|].
    cbn [lstrip]. cbn in Hn.
    destruct (isspace (String a "")) eqn:E1.
    { destruct (IH s1 ltac:(lia)) as (l & Hs & Hl).
      exists (String a "" +:+ l). split.
      - rewrite append_assoc, <- Hs. reflexivity.
      - constructor; [now apply isspace_whitespace|exact Hl]. }
    destruct s1 as [|b s2]; [exists ""; split; [reflexivity|constructor]|].
    cbn in Hn.
    destruct (isspace (String a (String b ""))) eqn:E2.
    { destruct (IH s2 ltac:(lia)) as (l & Hs & Hl).
      exists (String a (String b "") +:+ l). split.
      - rewrite append_assoc, <- Hs. reflexivity.
      - constructor; [now apply isspace_whitespace|exact Hl]. }
    destruct s2 as [|c s3]; [exists ""; split; [reflexivity|constructor]|].
    cbn in Hn.
    destruct (isspace (String a (String b (String c "")))) eqn:E3.
    { destruct (IH s3 ltac:(lia)) as (l & Hs & Hl).
      exists (String a (String b (String c "")) +:+ l). split.
      - rewrite append_assoc, <- Hs. reflexivity.
      - constructor; [now apply isspace_whitespace|exact Hl]. }
    exists "". split; [reflexivity|constructor].
Qed.

Lemma lstrip_split s : exists l, s = l +:+ lstrip s /\ spaces l.
Proof. now apply (lstrip_split_le (String.length s)). Qed.

Lemma lstrip_idem_le n s :
  (String.length s <= n)%nat -> lstrip (lstrip s) = lstrip s.
Proof.
  revert s. induction n as [|n IH]; intros s Hn.
  - destruct s; [reflexivity|cbn in Hn; lia].
  - destruct s as [|a s1]; [reflexivity|].
    cbn [lstrip]. cbn in Hn.
    destruct (isspace (String a "")) eqn:E1; [apply IH; lia|].
    destruct s1 as [|b s2]; [cbn [lstrip]; now rewrite E1|].
    cbn in Hn.
    destruct (isspace (String a (String b ""))) eqn:E2; [apply IH; lia|].
    destruct s2 as [|c s3]; [cbn [lstrip]; now rewrite E1, E2|].
    destruct (isspace (String a (String b (String c "")))) eqn:E3;
      [apply IH; cbn in Hn; lia|].
    cbn [lstrip]. now rewrite E1, E2, E3.
Qed.

(** What [lstrip] leaves starts with no white space. *)
Lemma lstrip_no_space s w u : w ∈ whitespace -> lstrip s <> w +:+ u.
Proof.
  intros Hw Heq.
  pose proof (lstrip_idem_le _ s (le_n _)) as Hid.
  pose proof lstrip_whitespace as H. rewrite Forall_forall in H.
  rewrite Heq, (H w Hw) in Hid.
  destruct (lstrip_split u) as (l & Hu & _).
  apply (f_equal String.length) in Hid, Hu.
  rewrite !length_append in *.
  apply whitespace_nonempty in Hw. destruct w; [done|]. cbn in Hid. lia.
Qed.

Lemma rstrip_split s : exists t, s = rstrip s +:+ t /\ spaces t.
Proof.
  induction s as [|c s IH]; [exists ""; split; [reflexivity|constructor]|].
  cbn [rstrip]. destruct (is_empty (lstrip (String c s))) eqn:E.
  - exists (String c s). split; [reflexivity|].
    destruct (lstrip_split (String c s)) as (l & Hs & Hl).
    destruct (lstrip (String c s)); [|discriminate].
    rewrite append_empty_r in Hs. now rewrite Hs.
  - destruct IH as (t & Hs & Ht). exists t. split; [|exact Ht].
    rewrite append_cons. now f_equal.
Qed.

(** What [rstrip] leaves ends with no white space. *)
Lemma rstrip_no_space s w u : w ∈ whitespace -> rstrip s <> u +:+ w.
Proof.
  intros Hw. revert u. induction s as [|c s IH]; intros u Heq.
  - apply whitespace_nonempty in Hw. cbn in Heq.
    destruct u; [rewrite append_empty_l in Heq; congruence|discriminate].
  - cbn [rstrip] in Heq. destruct (is_empty (lstrip (String c s))) eqn:E.
    + apply whitespace_nonempty in Hw.
      destruct u; [rewrite append_empty_l in Heq; congruence|discriminate].
    + destruct u as [|c' u].
      * rewrite append_empty_l in Heq.
        destruct (rstrip_split s) as (t & Hs & Ht).
        assert (Hall : spaces (String c s)).
        { rewrite Hs, <- append_cons, Heq. now constructor. }
        apply spaces_lstrip in Hall. now rewrite Hall in E.
      * rewrite append_cons in Heq. injection Heq as _ Heq. exact (IH _ Heq).
Qed.

Lemma strip_stripped_of s : stripped_of s (strip s).
Proof.
  unfold stripped_of, strip.
  destruct (lstrip_split s) as (l & Hs & Hl).
  destruct (rstrip_split (lstrip s)) as (t & Hr & Ht).
  exists l, t. split; [now rewrite <- Hr|]. do 2 (split; [assumption|]). split.
  - intros w u Hw Heq. rewrite Heq, append_assoc in Hr.
    exact (lstrip_no_space _ _ _ Hw Hr).
  - intros w u Hw. now apply rstrip_no_space.
Qed.

(** ** [os.makedirs] does not depend on the fuel *)

Lemma rpartition_sep_length s h t :
  rpartition_sep s = (h, t) ->
  (String.length h + String.length t = String.length s)%nat.
Proof.
  revert h t. induction s as [|c s IH]; intros h t; cbn.
  - intros [= <- <-]. reflexivity.
  - destruct (rpartition_sep s) as [h' t']. specialize (IH _ _ eq_refl).
    destruct (is_sep c); [intros [= <- <-]; cbn; lia|].
    destruct h'; intros [= <- <-]; cbn in *; lia.
Qed.

Lemma rstrip_by_length p s :
  (String.length (rstrip_by p s) <= String.length s)%nat.
Proof.
  induction s as [|c s IH]; cbn; [lia|].
  destruct (rstrip_by p s); [destruct (p c)|]; cbn in *; lia.
Qed.

Lemma split_length p h t :
  split p = (h, t) ->
  (String.length h + String.length t <= String.length p)%nat.
Proof.
  unfold split. destruct (rpartition_sep p) as [h' t'] eqn:E.
  apply rpartition_sep_length in E.
  destruct (negb (is_empty h') && negb (all_sep h')); intros [= <- <-];
    [pose proof (rstrip_by_length is_sep h')|]; lia.
Qed.

Lemma is_empty_length s : is_empty s = false -> (1 <= String.length s)%nat.
Proof. destruct s; [discriminate|cbn; lia]. Qed.

(** With at least as much fuel as the path is long, the recursion of
    [os.makedirs] never runs out of it. *)
Lemma makedirs_rec_fuel n m name fs :
  (String.length name <= n)%nat -> (String.length name <= m)%nat ->
  makedirs_rec n name fs = makedirs_rec m name fs.
Proof.
  revert m name fs. induction n as [|n IH]; intros m name fs Hn Hm.
  - destruct name; [|cbn in Hn; lia]. destruct m; reflexivity.
  - destruct m as [|m].
    { destruct name; [|cbn in Hm; lia]. reflexivity. }
    cbn [makedirs_rec].
    destruct (split name) as [head tail] eqn:E1.
    apply split_length in E1.
    destruct (if is_empty tail then split head else (head, tail))
      as [head' tail'] eqn:E2.
    rewrite !bind_inspect.
    destruct (negb (is_empty head') && negb (is_empty tail')
              && negb (path_exists fs head')) eqn:Ec; [|reflexivity].
    apply andb_true_iff in Ec as [[_ Ht]%andb_true_iff _].
    apply negb_true_iff, is_empty_length in Ht.
    assert (String.length head' < String.length name)%nat as Hlt.
    { destruct (is_empty tail).
      - apply split_length in E2. lia.
      - injection E2 as <- <-. lia. }
    unfold bind, pass_FileExistsError.
    rewrite (IH m head' fs) by lia. reflexivity.
Qed.

Lemma makedirs_rec_enough n name fs :
  (String.length name <= n)%nat -> makedirs_rec n name fs = makedirs name fs.
Proof. intros H. unfold makedirs. now apply makedirs_rec_fuel. Qed.

(** ** Path strings *)

Lemma is_sep_true c : is_sep c = true <-> c = "/"%char.
Proof. unfold is_sep. destruct (decide (c = "/"%char)); split; congruence. Qed.

Lemma split_sep_nonempty s : split_sep s <> [].
Proof.
  destruct s as [|c s]; cbn; [discriminate|].
  destruct (is_sep c); [discriminate|]. destruct (split_sep s); discriminate.
Qed.

Lemma split_sep_no_sep s : has_sep s = false -> split_sep s = [s].
Proof.
  induction s as [|c s IH]; cbn; [reflexivity|].
  intros [Hc Hs]%orb_false_iff. rewrite Hc, (IH Hs). reflexivity.
Qed.

Lemma split_sep_app a b :
  split_sep (a +:+ String "/" b) = split_sep a ++ split_sep b.
Proof.
  induction a as [|c a IH].
  - reflexivity.
  - rewrite append_cons. cbn. destruct (is_sep c).
    + now rewrite IH.
    + rewrite IH. destruct (split_sep a) as [|h t] eqn:E.
      * now apply split_sep_nonempty in E.
      * reflexivity.
Qed.

Lemma endswith_sep_inv a : endswith_sep a = true -> exists a', a = a' +:+ "/".
Proof.
  induction a as [|c a IH]; cbn; [discriminate|].
  destruct a as [|c' a].
  - intros ->%is_sep_true. now exists "".
  - intros (a' & ->)%IH. exists (String c a'). reflexivity.
Qed.

Lemma endswith_sep_app a b : b <> "" -> endswith_sep (a +:+ b) = endswith_sep b.
Proof.
  intros Hb. induction a as [|c a IH]; [reflexivity|].
  rewrite append_cons. cbn. destruct (a +:+ b) eqn:E; [|exact IH].
  destruct a; [rewrite append_empty_l in E; congruence | discriminate].
Qed.

Lemma endswith_sep_no_sep s : has_sep s = false -> endswith_sep s = false.
Proof.
  induction s as [|c s IH]; cbn; [reflexivity|].
  intros [Hc Hs]%orb_false_iff. destruct s; [exact Hc | now apply IH].
Qed.

Lemma startswith_sep_app a b : a <> "" -> startswith_sep (a +:+ b) = startswith_sep a.
Proof. destruct a; [congruence | reflexivity]. Qed.

Lemma rpartition_sep_no_sep s : has_sep s = false -> rpartition_sep s = ("", s).
Proof.
  induction s as [|c s IH]; cbn; [reflexivity|].
  intros [Hc Hs]%orb_false_iff. rewrite (IH Hs), Hc. reflexivity.
Qed.

Lemma rpartition_sep_app a p :
  has_sep p = false -> rpartition_sep (a +:+ String "/" p) = (a +:+ "/", p).
Proof.
  intros Hp. induction a as [|c a IH].
  - rewrite !append_empty_l. cbn. rewrite (rpartition_sep_no_sep _ Hp). reflexivity.
  - rewrite !append_cons. cbn. rewrite IH.
    destruct (is_sep c); [reflexivity|].
    destruct (a +:+ "/") eqn:E; [|reflexivity].
    destruct a; discriminate.
Qed.

Lemma rstrip_by_no_trailing s :
  endswith_sep s = false -> rstrip_by is_sep s = s.
Proof.
  induction s as [|c s IH]; cbn; [reflexivity|].
  destruct s as [|c' s].
  - intros ->. reflexivity.
  - intros H. rewrite (IH H). reflexivity.
Qed.

Lemma plain_name_inv p :
  plain_name p = true ->
  p <> "" /\ has_sep p = false /\ p <> "." /\ p <> "..".
Proof.
  unfold plain_name, is_dots.
  intros [[H1 H2]%andb_true_iff H3]%andb_true_iff.
  apply negb_true_iff in H1, H2, H3. apply bool_decide_eq_false in H3.
  repeat split; try tauto. destruct p; [discriminate|congruence].
Qed.

Lemma plain_name_not_abs p : plain_name p = true -> startswith_sep p = false.
Proof.
  intros (Hne & Hsep & _)%plain_name_inv.
  destruct p as [|c p]; [reflexivity|]. cbn in *.
  now apply orb_false_iff in Hsep.
Qed.

(** The shape of [join dir p] for a plain [p]. *)
Lemma join_plain dir p :
  dir <> "" -> plain_name p = true ->
  exists stem,
    join dir p = stem +:+ String "/" p
    /\ join dir "" = stem +:+ "/"
    /\ (dir = stem \/ dir = stem +:+ "/").
Proof.
  intros Hdir Hp. unfold join. rewrite (plain_name_not_abs _ Hp). cbn.
  destruct dir as [|c dir]; [congruence|]. cbn [is_empty orb].
  destruct (endswith_sep (String c dir)) eqn:E.
  - apply endswith_sep_inv in E as (stem & ->). exists stem.
    rewrite append_assoc, append_empty_r. auto.
  - exists (String c dir). rewrite append_empty_r. auto.
Qed.

Lemma join_nonempty dir p : dir <> "" -> join dir p <> "".
Proof.
  intros Hdir. unfold join.
  destruct (startswith_sep p) eqn:E; [destruct p; [discriminate|congruence]|].
  destruct dir; [congruence|]. destruct (is_empty _ || _); discriminate.
Qed.

Lemma isabs_join_plain dir p :
  dir <> "" -> plain_name p = true -> isabs (join dir p) = isabs dir.
Proof.
  intros Hdir Hp. unfold isabs, join. rewrite (plain_name_not_abs _ Hp).
  destruct dir as [|c dir]; [congruence|].
  destruct (is_empty _ || _); reflexivity.
Qed.

Lemma isabs_join_empty dir : dir <> "" -> isabs (join dir "") = isabs dir.
Proof.
  intros Hdir. unfold isabs, join. cbn.
  destruct dir as [|c dir]; [congruence|].
  destruct (is_empty _ || _); reflexivity.
Qed.

Lemma rpartition_sep_join dir p :
  dir <> "" -> plain_name p = true ->
  rpartition_sep (join dir p) = (join dir "", p).
Proof.
  intros Hdir Hp. destruct (join_plain dir p Hdir Hp) as (stem & -> & -> & _).
  apply rpartition_sep_app. now apply plain_name_inv in Hp.
Qed.

Lemma endswith_sep_join dir p :
  dir <> "" -> plain_name p = true -> endswith_sep (join dir p) = false.
Proof.
  intros Hdir Hp. destruct (join_plain dir p Hdir Hp) as (stem & -> & _).
  apply plain_name_inv in Hp as (Hne & Hsep & _).
  change (stem +:+ String "/" p) with (stem +:+ ("/" +:+ p)).
  rewrite <- append_assoc, endswith_sep_app by exact Hne.
  now apply endswith_sep_no_sep.
Qed.

Lemma basename_join dir p :
  dir <> "" -> plain_name p = true -> _basename (join dir p) = p.
Proof.
  intros Hdir Hp. unfold _basename, basename.
  rewrite rstrip_by_no_trailing by now apply endswith_sep_join.
  now rewrite rpartition_sep_join.
Qed.

(** ** Path resolution *)

Lemma is_empty_false s : s <> "" -> is_empty s = false.
Proof. destruct s; [congruence|reflexivity]. Qed.

Lemma is_dir_at_lookup t k : is_dir_at t k = true <-> t !! k = Some Dir.
Proof.
  unfold is_dir_at. destruct (t !! k) as [[c|]|]; split; congruence.
Qed.

Lemma walk_app t cur cs1 cs2 :
  walk t cur (cs1 ++ cs2) =
  match walk t cur cs1 with
  | inr c => walk t c cs2
  | inl e => inl e
  end.
Proof.
  revert cur. induction cs1 as [|c cs1 IH]; intros cur; cbn; [reflexivity|].
  destruct (lookup_step t cur c); [reflexivity|apply IH].
Qed.

Lemma lookup_step_empty t cur :
  lookup_step t cur "" =
  match t !! cur with
  | Some Dir => inr cur
  | Some (File _) => inl ENOTDIR
  | None => inl ENOENT
  end.
Proof.
  unfold lookup_step. destruct (t !! cur) as [[c|]|]; reflexivity.
Qed.

Lemma lookup_step_plain t cur p :
  plain_name p = true ->
  lookup_step t cur p =
  match t !! cur with
  | Some Dir =>
      match t !! (cur ++ [p]) with
      | Some _ => inr (cur ++ [p])
      | None => inl ENOENT
      end
  | Some (File _) => inl ENOTDIR
  | None => inl ENOENT
  end.
Proof.
  intros (Hne & _ & Hdot & Hdotdot)%plain_name_inv. unfold lookup_step.
  destruct (t !! cur) as [[c|]|]; try reflexivity.
  rewrite decide_False by (intros [?|?]; congruence).
  rewrite decide_False by congruence. reflexivity.
Qed.

(** Stepping through an empty segment first changes nothing. *)
Lemma lookup_step_empty_then t cur comp :
  match lookup_step t cur "" with
  | inr c => lookup_step t c comp
  | inl e => inl e
  end = lookup_step t cur comp.
Proof.
  rewrite lookup_step_empty. unfold lookup_step.
  destruct (t !! cur) as [[c|]|] eqn:E; try reflexivity.
  unfold lookup_step. rewrite E. reflexivity.
Qed.

Lemma walk_snoc t cur cs comp :
  walk t cur (cs ++ [comp]) =
  match walk t cur cs with
  | inr c => lookup_step t c comp
  | inl e => inl e
  end.
Proof.
  rewrite walk_app. destruct (walk t cur cs) as [e|c]; [reflexivity|].
  cbn. destruct (lookup_step t c comp); reflexivity.
Qed.

Lemma walk_join_plain t cur dir p :
  dir <> "" -> plain_name p = true ->
  walk t cur (split_sep (join dir p)) = walk t cur (split_sep dir ++ [p]).
Proof.
  intros Hdir Hp. destruct (join_plain dir p Hdir Hp) as (stem & -> & _ & Hstem).
  rewrite split_sep_app.
  rewrite (split_sep_no_sep p) by now apply plain_name_inv in Hp.
  destruct Hstem as [->| ->]; [reflexivity|].
  rewrite split_sep_app. cbn [split_sep]. rewrite !walk_snoc.
  destruct (walk t cur (split_sep stem)) as [e|c]; [reflexivity|].
  symmetry. apply lookup_step_empty_then.
Qed.

Lemma stat_nonempty fs s D : stat fs s = inr D -> s <> "".
Proof. unfold stat. destruct s; [discriminate|discriminate]. Qed.

Lemma stat_unfold fs s :
  s <> "" -> stat fs s = walk (tree fs) (start fs s) (split_sep s).
Proof. intros H. unfold stat. now rewrite is_empty_false. Qed.

Lemma start_join_plain fs dir p :
  dir <> "" -> plain_name p = true -> start fs (join dir p) = start fs dir.
Proof. intros Hdir Hp. unfold start. now rewrite isabs_join_plain. Qed.

Lemma stat_join_plain fs dir p :
  dir <> "" -> plain_name p = true ->
  stat fs (join dir p) =
  match stat fs dir with
  | inr D => lookup_step (tree fs) D p
  | inl e => inl e
  end.
Proof.
  intros Hdir Hp.
  rewrite !stat_unfold by (try apply join_nonempty; assumption).
  rewrite walk_join_plain, walk_snoc, start_join_plain by assumption.
  reflexivity.
Qed.

(** Under a directory, a plain name leads to the entry of that name. *)
Lemma stat_join_dir fs dir D p :
  leads_to_dir fs dir D -> plain_name p = true ->
  stat fs (join dir p) =
  match tree fs !! (D ++ [p]) with
  | Some _ => inr (D ++ [p])
  | None => inl ENOENT
  end.
Proof.
  intros [Hstat Hd] Hp.
  rewrite stat_join_plain, Hstat, lookup_step_plain by
    (try eapply stat_nonempty; eassumption).
  apply is_dir_at_lookup in Hd. now rewrite Hd.
Qed.

Lemma path_exists_join_dir fs dir D p :
  leads_to_dir fs dir D -> plain_name p = true ->
  path_exists fs (join dir p) = bool_decide (is_Some (tree fs !! (D ++ [p]))).
Proof.
  intros Hd Hp. unfold path_exists. rewrite (stat_join_dir _ _ _ _ Hd Hp).
  destruct (tree fs !! (D ++ [p])) as [e|] eqn:E.
  - symmetry. apply bool_decide_eq_true. eauto.
  - symmetry. apply bool_decide_eq_false. intros [? ?]. congruence.
Qed.

Lemma entry_at_join_dir fs dir D p :
  leads_to_dir fs dir D -> plain_name p = true ->
  entry_at fs (join dir p) = tree fs !! (D ++ [p]).
Proof.
  intros Hd Hp. unfold entry_at. rewrite (stat_join_dir _ _ _ _ Hd Hp).
  destruct (tree fs !! (D ++ [p])) as [e|] eqn:E; [exact E|reflexivity].
Qed.

Lemma leads_to_dir_join fs dir D t :
  leads_to_dir fs dir D -> plain_name t = true ->
  is_dir_at (tree fs) (D ++ [t]) = true ->
  leads_to_dir fs (join dir t) (D ++ [t]).
Proof.
  intros Hd Ht Hdir. split; [|exact Hdir].
  rewrite (stat_join_dir _ _ _ _ Hd Ht).
  apply is_dir_at_lookup in Hdir. now rewrite Hdir.
Qed.

Lemma leads_to_dir_join_empty fs dir D :
  leads_to_dir fs dir D -> leads_to_dir fs (join dir "") D.
Proof.
  intros [Hstat Hd]. split; [|exact Hd].
  pose proof (stat_nonempty _ _ _ Hstat) as Hne.
  unfold join. cbn [startswith_sep]. rewrite (is_empty_false _ Hne). cbn [orb].
  destruct (endswith_sep dir) eqn:E.
  - now rewrite append_empty_r.
  - assert (dir +:+ "/" +:+ "" <> "") as Hne'.
    { destruct dir; [congruence|discriminate]. }
    rewrite stat_unfold in * by assumption.
    rewrite append_empty_r.
    change (dir +:+ "/") with (dir +:+ String "/" "").
    rewrite split_sep_app. cbn [split_sep]. rewrite walk_snoc.
    unfold start, isabs in *. rewrite startswith_sep_app by exact Hne.
    rewrite Hstat, lookup_step_empty.
    apply is_dir_at_lookup in Hd. now rewrite Hd.
Qed.

(** A trailing slash less still leads to the directory. *)
Lemma leads_to_dir_drop_sep fs s D :
  s <> "" -> leads_to_dir fs (s +:+ "/") D -> leads_to_dir fs s D.
Proof.
  intros Hne [Hstat Hd]. split; [|exact Hd].
  assert (s +:+ "/" <> "") as Hne' by (destruct s; [congruence|discriminate]).
  rewrite stat_unfold in * by assumption.
  change (s +:+ "/") with (s +:+ String "/" "") in Hstat.
  rewrite split_sep_app in Hstat. cbn [split_sep] in Hstat.
  rewrite walk_snoc in Hstat.
  unfold start, isabs in *. rewrite startswith_sep_app in Hstat by exact Hne.
  destruct (walk _ _ (split_sep s)) as [e|c]; [discriminate|].
  rewrite lookup_step_empty in Hstat.
  destruct (tree fs !! c) as [[?|]|]; congruence.
Qed.

Lemma leads_to_dir_drop_seps fs D t :
  lstrip_by is_sep t = "" ->
  forall r, r <> "" -> leads_to_dir fs (r +:+ t) D -> leads_to_dir fs r D.
Proof.
  induction t as [|c t IH]; intros Ht r Hr H.
  - now rewrite append_empty_r in H.
  - cbn in Ht. destruct (is_sep c) eqn:Ec; [|discriminate].
    apply is_sep_true in Ec as ->.
    apply leads_to_dir_drop_sep; [exact Hr|].
    apply IH; [exact Ht| |].
    + destruct r; [congruence|discriminate].
    + now rewrite append_assoc.
Qed.

Lemma rstrip_by_sep_nonempty s :
  all_sep s = false -> rstrip_by is_sep s <> "".
Proof.
  induction s as [|c s IH]; cbn; [discriminate|].
  destruct (rstrip_by is_sep s) as [|c' r]; [|discriminate].
  destruct (is_sep c); [|discriminate]. cbn. intros H. now apply IH in H.
Qed.

Lemma leads_to_dir_rstrip fs s D :
  all_sep s = false -> leads_to_dir fs s D ->
  leads_to_dir fs (rstrip_by is_sep s) D.
Proof.
  intros Hall H. destruct (rstrip_by_split is_sep s) as (t & Hs & Ht).
  apply (leads_to_dir_drop_seps fs D t Ht).
  - now apply rstrip_by_sep_nonempty.
  - now rewrite <- Hs.
Qed.

(** The head [os.path.split] gives for [join dir p] exists. *)
Lemma split_join_dir fs dir D p :
  leads_to_dir fs dir D -> plain_name p = true ->
  exists head, split (join dir p) = (head, p) /\ path_exists fs head = true.
Proof.
  intros Hd Hp. pose proof (stat_nonempty _ _ _ (proj1 Hd)) as Hne.
  unfold split. rewrite (rpartition_sep_join _ _ Hne Hp).
  pose proof (leads_to_dir_join_empty _ _ _ Hd) as Hd'.
  destruct (negb (is_empty (join dir "")) && negb (all_sep (join dir ""))) eqn:E.
  - apply andb_true_iff in E as [_ E]. apply negb_true_iff in E.
    eexists. split; [reflexivity|].
    unfold path_exists.
    now rewrite (proj1 (leads_to_dir_rstrip _ _ _ E Hd')).
  - eexists. split; [reflexivity|].
    unfold path_exists. now rewrite (proj1 Hd').
Qed.

Lemma rstrip_empty_snoc cs p : p <> "" -> rstrip_empty (cs ++ [p]) = cs ++ [p].
Proof.
  intros Hp. induction cs as [|c cs IH]; cbn.
  - now rewrite is_empty_false.
  - rewrite IH. destruct (cs ++ [p]) eqn:E; [|reflexivity].
    now apply app_eq_nil in E as [_ ?].
Qed.

Lemma parent_and_name_join fs dir D p :
  stat fs dir = inr D -> plain_name p = true ->
  parent_and_name fs (join dir p) =
  match tree fs !! D with
  | Some Dir => inr (D, Some p)
  | Some (File _) => inl ENOTDIR
  | None => inl ENOENT
  end.
Proof.
  intros Hstat Hp. pose proof (stat_nonempty _ _ _ Hstat) as Hne.
  unfold parent_and_name. rewrite is_empty_false by now apply join_nonempty.
  rewrite start_join_plain by assumption.
  rewrite stat_unfold in Hstat by assumption.
  destruct (join_plain dir p Hne Hp) as (stem & -> & _ & Hstem).
  rewrite split_sep_app.
  rewrite (split_sep_no_sep p) by now apply plain_name_inv in Hp.
  rewrite rstrip_empty_snoc by now apply plain_name_inv in Hp.
  rewrite last_snoc, removelast_last.
  destruct Hstem as [->| ->].
  - now rewrite Hstat.
  - rewrite split_sep_app in Hstat. cbn [split_sep] in Hstat.
    rewrite walk_snoc in Hstat.
    destruct (walk _ _ (split_sep stem)) as [e|c]; [discriminate|].
    rewrite lookup_step_empty in Hstat.
    destruct (tree fs !! c) as [[?|]|] eqn:E; try discriminate.
    injection Hstat as <-. now rewrite E.
Qed.

(** ** Subtrees *)

Lemma lookup_tabulate {K V} `{Countable K} (ks : list K) (f : K -> option V) k :
  tabulate ks f !! k = if decide (k ∈ ks) then f k else None.
Proof.
  unfold tabulate. induction ks as [|k0 ks IH]; cbn.
  - rewrite lookup_empty. now rewrite decide_False by apply not_elem_of_nil.
  - destruct (f k0) as [v|] eqn:E; cbn.
    + destruct (decide (k0 = k)) as [->|Hne].
      * rewrite lookup_insert_eq, decide_True by apply list_elem_of_here.
        now rewrite E.
      * rewrite lookup_insert_ne, IH by exact Hne.
        destruct (decide (k ∈ ks)).
        -- now rewrite decide_True by now apply list_elem_of_further.
        -- rewrite decide_False; [reflexivity|].
           intros [?|?]%elem_of_cons; congruence.
    + rewrite IH. destruct (decide (k ∈ ks)).
      * now rewrite decide_True by now apply list_elem_of_further.
      * destruct (decide (k ∈ k0 :: ks)) as [[->|?]%elem_of_cons|];
          [now rewrite E|contradiction|reflexivity].
Qed.

Lemma elem_of_keys t k : k ∈ keys t <-> is_Some (t !! k).
Proof.
  unfold keys. rewrite list_elem_of_fmap. split.
  - intros ([k' e] & -> & Hin). apply elem_of_map_to_list in Hin. eauto.
  - intros [e He]. exists (k, e). split; [reflexivity|].
    now apply elem_of_map_to_list.
Qed.

Lemma is_prefix_true a b : is_prefix a b = true <-> a `prefix_of` b.
Proof. unfold is_prefix. apply bool_decide_eq_true. Qed.

Lemma is_prefix_false a b : is_prefix a b = false <-> ¬ a `prefix_of` b.
Proof. unfold is_prefix. apply bool_decide_eq_false. Qed.

Lemma rebase_prefix old new k : new `prefix_of` rebase old new k.
Proof. unfold rebase. now apply prefix_app_r. Qed.

Lemma rebase_rebase old new k :
  new `prefix_of` k -> rebase old new (rebase new old k) = k.
Proof.
  intros [rest ->]. unfold rebase.
  rewrite !drop_app_length. reflexivity.
Qed.

Lemma rebase_app old new rest : rebase old new (old ++ rest) = new ++ rest.
Proof. unfold rebase. now rewrite drop_app_length. Qed.

Lemma lookup_move_subtree old new t k :
  move_subtree old new t !! k = move_lookup t old new k.
Proof.
  unfold move_subtree. rewrite lookup_tabulate.
  destruct (decide _) as [|Hnot]; [reflexivity|].
  unfold move_lookup.
  destruct (is_prefix new k) eqn:En.
  - destruct (t !! rebase new old k) as [e|] eqn:E; [|reflexivity].
    exfalso. apply Hnot. apply elem_of_app. right.
    apply list_elem_of_fmap. exists (rebase new old k). split.
    + symmetry. apply rebase_rebase. now apply is_prefix_true.
    + apply list_elem_of_In, filter_In. split.
      * apply list_elem_of_In, elem_of_keys. eauto.
      * apply is_prefix_true, rebase_prefix.
  - destruct (is_prefix old k); [reflexivity|].
    destruct (t !! k) as [e|] eqn:E; [|reflexivity].
    exfalso. apply Hnot. apply elem_of_app. left. apply elem_of_keys. eauto.
Qed.

Lemma lookup_move_subtree_new old new t rest :
  move_subtree old new t !! (new ++ rest) = t !! (old ++ rest).
Proof.
  rewrite lookup_move_subtree. unfold move_lookup.
  rewrite (proj2 (is_prefix_true _ _)) by now apply prefix_app_r.
  now rewrite rebase_app.
Qed.

Lemma lookup_move_subtree_old old new t k :
  ¬ new `prefix_of` k -> old `prefix_of` k ->
  move_subtree old new t !! k = None.
Proof.
  intros Hn Ho. rewrite lookup_move_subtree. unfold move_lookup.
  rewrite (proj2 (is_prefix_false _ _) Hn).
  now rewrite (proj2 (is_prefix_true _ _) Ho).
Qed.

Lemma lookup_move_subtree_other old new t k :
  ¬ new `prefix_of` k -> ¬ old `prefix_of` k ->
  move_subtree old new t !! k = t !! k.
Proof.
  intros Hn Ho. rewrite lookup_move_subtree. unfold move_lookup.
  rewrite (proj2 (is_prefix_false _ _) Hn).
  now rewrite (proj2 (is_prefix_false _ _) Ho).
Qed.

Lemma lookup_ensure_dir_at k t k' :
  ensure_dir_at k t !! k' =
  if decide (k = k') then Some (default Dir (t !! k)) else t !! k'.
Proof.
  unfold ensure_dir_at. destruct (t !! k) as [e|] eqn:E.
  - destruct (decide (k = k')) as [<-|]; [exact E|reflexivity].
  - apply lookup_insert.
Qed.

Lemma lookup_ensure_dir_at_ne k t k' :
  k <> k' -> ensure_dir_at k t !! k' = t !! k'.
Proof. intros H. rewrite lookup_ensure_dir_at. now rewrite decide_False. Qed.

Lemma ensure_dir_at_is_Some k t : is_Some (ensure_dir_at k t !! k).
Proof. rewrite lookup_ensure_dir_at, decide_True by reflexivity. eauto. Qed.

(** ** The state record *)

Lemma with_tree_id fs : with_tree fs (tree fs) = fs.
Proof. now destruct fs. Qed.

Lemma with_tree_with_tree fs t t' : with_tree (with_tree fs t) t' = with_tree fs t'.
Proof. reflexivity. Qed.

(** ** Resolution is stable under changes below the directory *)

Lemma walk_agree t t' cur cs D :
  forallb (fun comp => negb (bool_decide (comp = ".."))) cs = true ->
  walk t cur cs = inr D ->
  (forall k, k `prefix_of` D -> t' !! k = t !! k) ->
  cur `prefix_of` D /\ walk t' cur cs = inr D.
Proof.
  revert cur. induction cs as [|c cs IH]; intros cur Hcs Hwalk Hagree.
  - cbn in *. injection Hwalk as ->. split; reflexivity.
  - cbn in Hcs. apply andb_true_iff in Hcs as [Hc Hcs].
    apply negb_true_iff, bool_decide_eq_false in Hc.
    cbn in Hwalk |- *.
    destruct (lookup_step t cur c) as [e|cur'] eqn:Estep; [discriminate|].
    destruct (IH cur' Hcs Hwalk Hagree) as [Hpre Hwalk'].
    assert (cur `prefix_of` cur' /\ lookup_step t' cur c = inr cur') as [Hcur ->].
    { unfold lookup_step in *.
      destruct (t !! cur) as [[?|]|] eqn:Ecur; try discriminate.
      destruct (decide (c = "" \/ c = ".")).
      - injection Estep as <-. split; [reflexivity|].
        rewrite (Hagree cur Hpre), Ecur. reflexivity.
      - rewrite decide_False in * by exact Hc.
        destruct (t !! (cur ++ [c])) eqn:Ec; [|discriminate].
        injection Estep as <-.
        assert (cur `prefix_of` cur ++ [c]) as Hp by now apply prefix_app_r.
        split; [exact Hp|].
        rewrite (Hagree cur) by now transitivity (cur ++ [c]).
        rewrite Ecur, (Hagree _ Hpre), Ec. reflexivity. }
    split; [now transitivity cur'|exact Hwalk'].
Qed.

Lemma leads_to_dir_agree fs dir D t' :
  no_dotdot dir = true ->
  leads_to_dir fs dir D ->
  (forall k, k `prefix_of` D -> t' !! k = tree fs !! k) ->
  leads_to_dir (with_tree fs t') dir D.
Proof.
  intros Hdd [Hstat Hd] Hagree. split.
  - pose proof (stat_nonempty _ _ _ Hstat) as Hne.
    rewrite stat_unfold in * by exact Hne.
    now apply (walk_agree (tree fs)).
  - cbn. unfold is_dir_at in *. now rewrite Hagree.
Qed.

(** ** Creating a team directory of a plain name *)

Lemma mkdir_join fs dir D t :
  leads_to_dir fs dir D -> plain_name t = true ->
  mkdir (join dir t) fs =
  match tree fs !! (D ++ [t]) with
  | Some _ => (Raises (OSError EEXIST), fs)
  | None => (Returns tt, with_tree fs (<[D ++ [t] := Dir]> (tree fs)))
  end.
Proof.
  intros [Hstat Hd] Ht. unfold mkdir, syscall, mkdir_sys.
  rewrite (parent_and_name_join _ _ _ _ Hstat Ht).
  apply is_dir_at_lookup in Hd. rewrite Hd.
  assert (is_dots t = false) as ->.
  { apply plain_name_inv in Ht as (_ & _ & ? & ?).
    apply bool_decide_eq_false. intros [?|?]; congruence. }
  destruct (tree fs !! (D ++ [t])); reflexivity.
Qed.

Lemma makedirs_join fs dir D t :
  leads_to_dir fs dir D -> plain_name t = true ->
  makedirs (join dir t) fs = mkdir (join dir t) fs.
Proof.
  intros Hd Ht. unfold makedirs.
  destruct (String.length (join dir t)) as [|n]; [reflexivity|].
  cbn [makedirs_rec].
  destruct (split_join_dir _ _ _ _ Hd Ht) as (head & -> & Hex).
  rewrite is_empty_false by now apply plain_name_inv in Ht.
  rewrite bind_inspect, Hex. cbn. now rewrite andb_false_r.
Qed.

Lemma create_team_directory_join fs dir D t :
  leads_to_dir fs dir D -> plain_name t = true ->
  Organize.create_team_directory (join dir t) fs
  = (Returns tt, with_tree fs (ensure_dir_at (D ++ [t]) (tree fs))).
Proof.
  intros Hd Ht. unfold Organize.create_team_directory.
  rewrite bind_inspect, (path_exists_join_dir _ _ _ _ Hd Ht).
  unfold ensure_dir_at.
  destruct (tree fs !! (D ++ [t])) as [e|] eqn:E.
  - rewrite bool_decide_true by eauto. cbn. now rewrite with_tree_id.
  - rewrite bool_decide_false by (intros [? ?]; congruence). cbn.
    rewrite (makedirs_join _ _ _ _ Hd Ht), (mkdir_join _ _ _ _ Hd Ht), E.
    reflexivity.
Qed.

(** ** Moving an entry of a plain name *)

Lemma bind_raises' {A B} (m : Py A) (k : A -> Py B) fs :
  raises (m fs) -> raises (bind m k fs).
Proof. intros (e & fs' & H). exists e, fs'. now apply bind_raises. Qed.

Lemma is_dots_plain p : plain_name p = true -> is_dots p = false.
Proof.
  intros (_ & _ & ? & ?)%plain_name_inv.
  apply bool_decide_eq_false. intros [?|?]; congruence.
Qed.

Lemma snoc_ne_snoc2 (D : list string) a b c : D ++ [a] <> D ++ [b; c].
Proof. intros H. apply (f_equal length) in H. rewrite !length_app in H. cbn in H. lia. Qed.

Lemma snoc_ne_snoc3 (D : list string) a b c d : D ++ [a] <> D ++ [b; c; d].
Proof. intros H. apply (f_equal length) in H. rewrite !length_app in H. cbn in H. lia. Qed.

Lemma prefix_snoc_inv (D : list string) a rest :
  D ++ [a] `prefix_of` D ++ rest -> exists rest', rest = a :: rest'.
Proof.
  intros [k Hk]. rewrite <- app_assoc in Hk. apply app_inv_head in Hk.
  exists k. exact Hk.
Qed.

Lemma not_prefix_longer (a b : list string) :
  (length b < length a)%nat -> ¬ a `prefix_of` b.
Proof. intros Hlen Hp. apply prefix_length in Hp. lia. Qed.

Lemma all_sep_app_sep d :
  d <> "" -> endswith_sep d = false -> all_sep (d +:+ "/") = false.
Proof.
  induction d as [|c d IH]; [congruence|]. intros _ Hend.
  rewrite append_cons. cbn. destruct d as [|c' d].
  - cbn in Hend. now rewrite Hend.
  - rewrite IH; [apply andb_false_r|discriminate|exact Hend].
Qed.

Lemma rstrip_by_app_sep d :
  d <> "" -> endswith_sep d = false -> rstrip_by is_sep (d +:+ "/") = d.
Proof.
  induction d as [|c d IH]; [congruence|]. intros _ Hend.
  rewrite append_cons. cbn. destruct d as [|c' d].
  - cbn in Hend |- *. now rewrite Hend.
  - rewrite IH; [reflexivity|discriminate|exact Hend].
Qed.

Lemma join_no_trailing d p :
  d <> "" -> endswith_sep d = false -> plain_name p = true ->
  join d "" = d +:+ "/".
Proof.
  intros Hd Hend Hp. unfold join. cbn [startswith_sep].
  rewrite (is_empty_false _ Hd), Hend. cbn. now rewrite append_empty_r.
Qed.

Lemma split_join_no_trailing d p :
  d <> "" -> endswith_sep d = false -> plain_name p = true ->
  split (join d p) = (d, p).
Proof.
  intros Hd Hend Hp. unfold split.
  rewrite (rpartition_sep_join _ _ Hd Hp), (join_no_trailing _ _ Hd Hend Hp).
  rewrite all_sep_app_sep, rstrip_by_app_sep by assumption.
  assert (is_empty (d +:+ "/") = false) as ->
    by (destruct d; [congruence|reflexivity]).
  reflexivity.
Qed.

(** [os.makedirs] on a path whose parent is a regular file raises. *)
Lemma makedirs_under_file fs dir D t p c :
  leads_to_dir fs dir D -> plain_name t = true -> plain_name p = true ->
  tree fs !! (D ++ [t]) = Some (File c) ->
  makedirs (join (join dir t) p) fs = (Raises (OSError ENOTDIR), fs).
Proof.
  intros Hd Ht Hp Hfile.
  pose proof (stat_nonempty _ _ _ (proj1 Hd)) as Hne.
  assert (stat fs (join dir t) = inr (D ++ [t])) as Hstat
    by now rewrite (stat_join_dir _ _ _ _ Hd Ht), Hfile.
  unfold makedirs.
  assert (mkdir (join (join dir t) p) fs = (Raises (OSError ENOTDIR), fs)) as Hmk.
  { unfold mkdir, syscall, mkdir_sys.
    now rewrite (parent_and_name_join _ _ _ _ Hstat Hp), Hfile. }
  destruct (String.length _) as [|n]; [exact Hmk|].
  cbn [makedirs_rec].
  rewrite split_join_no_trailing;
    [|now apply join_nonempty|now apply endswith_sep_join|exact Hp].
  rewrite is_empty_false by now apply plain_name_inv in Hp.
  rewrite bind_inspect. unfold path_exists at 1. rewrite Hstat.
  cbn. rewrite andb_false_r. exact Hmk.
Qed.

Section move.

Variables (fs : FS) (dir : string) (D : list string) (t p : string) (e : entry).
Hypothesis Hdir : leads_to_dir fs dir D.
Hypothesis Ht : plain_name t = true.
Hypothesis Hp : plain_name p = true.
Hypothesis Htp : t <> p.
Hypothesis Hsrc : tree fs !! (D ++ [p]) = Some e.

Local Abbreviation src := (join dir p).
Local Abbreviation td := (join dir t).
Local Abbreviation dst := (join (join dir t) p).

Lemma dir_nonempty : dir <> "".
Proof. exact (stat_nonempty _ _ _ (proj1 Hdir)). Qed.

Lemma stat_src : stat fs src = inr (D ++ [p]).
Proof. now rewrite (stat_join_dir _ _ _ _ Hdir Hp), Hsrc. Qed.

Lemma parent_src : parent_and_name fs src = inr (D, Some p).
Proof.
  rewrite (parent_and_name_join _ _ _ _ (proj1 Hdir) Hp).
  destruct Hdir as [_ Hd]. apply is_dir_at_lookup in Hd. now rewrite Hd.
Qed.

Lemma trailing_src : has_trailing_sep src = false.
Proof. apply endswith_sep_join; [apply dir_nonempty|exact Hp]. Qed.

Lemma trailing_dst : has_trailing_sep dst = false.
Proof.
  apply endswith_sep_join; [apply join_nonempty, dir_nonempty|exact Hp].
Qed.

Lemma isdir_src : isdir fs src = is_dir_at (tree fs) (D ++ [p]).
Proof. unfold isdir. now rewrite stat_src. Qed.

End move.

Lemma rename_sys_plain fs src real_dst Ps Pd p e :
  parent_and_name fs src = inr (Ps, Some p) ->
  parent_and_name fs real_dst = inr (Pd, Some p) ->
  is_dots p = false ->
  tree fs !! (Ps ++ [p]) = Some e ->
  has_trailing_sep src = false -> has_trailing_sep real_dst = false ->
  apart (Ps ++ [p]) (Pd ++ [p]) ->
  rename_sys src real_dst fs =
  let moved := inr (with_tree fs (move_subtree (Ps ++ [p]) (Pd ++ [p]) (tree fs))) in
  match e, tree fs !! (Pd ++ [p]) with
  | File _, Some Dir => inl EISDIR
  | File _, _ => moved
  | Dir, Some (File _) => inl ENOTDIR
  | Dir, Some Dir =>
      if has_children (tree fs) (Pd ++ [p]) then inl ENOTEMPTY else moved
  | Dir, None => moved
  end.
Proof.
  intros Hs Hd Hdots Hsrc Hts Htd [Hsd Hds].
  unfold rename_sys. rewrite Hs, Hd, Hdots, Hsrc, Hts, Htd. cbn [orb].
  assert (Ps ++ [p] <> Pd ++ [p]) as Hne by (intros Heq; apply Hsd; now rewrite Heq).
  rewrite (bool_decide_false _ Hne).
  rewrite (proj2 (is_prefix_false _ _) Hsd), (proj2 (is_prefix_false _ _) Hds).
  destruct e; reflexivity.
Qed.

Section move_cases.

Variables (fs : FS) (dir : string) (D : list string) (t p : string) (e : entry).
Hypothesis Hdir : leads_to_dir fs dir D.
Hypothesis Ht : plain_name t = true.
Hypothesis Hp : plain_name p = true.
Hypothesis Htp : t <> p.
Hypothesis Hsrc : tree fs !! (D ++ [p]) = Some e.

Local Abbreviation src := (join dir p).
Local Abbreviation td := (join dir t).
Local Abbreviation dst := (join (join dir t) p).

Lemma apart_src_dst : apart (D ++ [p]) ((D ++ [t]) ++ [p]).
Proof.
  split.
  - rewrite <- app_assoc. intros (rest & [= ? _])%prefix_snoc_inv. congruence.
  - apply not_prefix_longer. rewrite !length_app. cbn. lia.
Qed.

Lemma apart_src_dst_in : apart (D ++ [p]) (((D ++ [t]) ++ [p]) ++ [p]).
Proof.
  split.
  - rewrite <- !app_assoc. intros (rest & [= ? _])%prefix_snoc_inv. congruence.
  - apply not_prefix_longer. rewrite !length_app. cbn. lia.
Qed.

(** The team directory is a regular file: the move raises. *)
Lemma move_under_file c :
  tree fs !! (D ++ [t]) = Some (File c) ->
  raises (move src dst fs).
Proof using Hdir Ht Hp Htp Hsrc.
  intros Hfile.
  pose proof (dir_nonempty _ _ _ Hdir) as Hne.
  assert (stat fs td = inr (D ++ [t])) as Hstat_td
    by (now rewrite (stat_join_dir _ _ _ _ Hdir Ht), Hfile).
  assert (stat fs dst = inl ENOTDIR) as Hstat_dst.
  { rewrite stat_join_plain, Hstat_td, lookup_step_plain, Hfile;
      [reflexivity|exact Hp| |exact Hp]. now apply join_nonempty. }
  assert (parent_and_name fs dst = inl ENOTDIR) as Hpar_dst
    by (now rewrite (parent_and_name_join _ _ _ _ Hstat_td Hp), Hfile).
  assert (isdir fs dst = false) as Hisdir by (unfold isdir; now rewrite Hstat_dst).
  assert (_samefile fs src dst = false) as Hsame.
  { unfold _samefile, samefile.
    now rewrite (stat_src _ _ _ _ _ Hdir Hp Hsrc), Hstat_dst. }
  unfold move. rewrite bind_inspect, Hisdir.
  unfold rename_or_copy, except_OSError.
  assert (rename src dst fs = (Raises (OSError ENOTDIR), fs)) as ->.
  { unfold rename, syscall, rename_sys.
    now rewrite (parent_src _ _ _ _ Hdir Hp), Hpar_dst. }
  rewrite bind_inspect, (isdir_src _ _ _ _ _ Hdir Hp Hsrc).
  unfold is_dir_at. rewrite Hsrc. destruct e as [c'|].
  - (* a regular file: copy2 *)
    apply bind_raises'. unfold copy2.
    rewrite bind_inspect, Hisdir, bind_inspect, Hsame.
    rewrite bind_inspect, (stat_src _ _ _ _ _ Hdir Hp Hsrc), Hsrc.
    unfold syscall, write_sys. rewrite Hpar_dst. now exists (OSError ENOTDIR), fs.
  - (* a directory *)
    rewrite bind_inspect. destruct (_destinsrc fs src dst).
    + now eexists _, _.
    + apply bind_raises'. unfold copytree.
      rewrite bind_inspect, (isdir_src _ _ _ _ _ Hdir Hp Hsrc).
      unfold is_dir_at. rewrite Hsrc. cbn [negb].
      apply bind_raises'.
      rewrite (makedirs_under_file _ _ _ _ _ _ Hdir Ht Hp Hfile).
      now eexists _, _.
Qed.

Lemma except_OSError_returns m handler fs0 fs1 :
  m fs0 = (Returns tt, fs1) -> except_OSError m handler fs0 = (Returns tt, fs1).
Proof. intros H. unfold except_OSError. now rewrite H. Qed.

(** The destination is a directory: the entry goes inside it. *)
Lemma move_into_dir :
  tree fs !! (D ++ [t]) = Some Dir ->
  tree fs !! (D ++ [t; p]) = Some Dir ->
  move src dst fs =
  match tree fs !! (D ++ [t; p; p]) with
  | None =>
      (Returns tt,
       with_tree fs (move_subtree (D ++ [p]) (D ++ [t; p; p]) (tree fs)))
  | Some _ => (Raises (ShutilError (DestinationExists (join dst p))), fs)
  end.
Proof using Hdir Ht Hp Htp Hsrc.
  intros Hteam Hsub.
  assert (D ++ [t; p] = (D ++ [t]) ++ [p]) as E2 by now rewrite <- app_assoc.
  assert (D ++ [t; p; p] = ((D ++ [t]) ++ [p]) ++ [p]) as E3
    by now rewrite <- !app_assoc.
  rewrite E3. rewrite E2 in Hsub.
  pose proof (dir_nonempty _ _ _ Hdir) as Hne.
  assert (leads_to_dir fs td (D ++ [t])) as Htd
    by (apply leads_to_dir_join; [assumption..|now apply is_dir_at_lookup]).
  assert (leads_to_dir fs dst ((D ++ [t]) ++ [p])) as Hdst
    by (apply leads_to_dir_join; [assumption..|now apply is_dir_at_lookup]).
  assert (isdir fs dst = true) as Hisdir.
  { unfold isdir. rewrite (proj1 Hdst). now apply is_dir_at_lookup. }
  assert (_samefile fs src dst = false) as Hsame.
  { unfold _samefile, samefile.
    rewrite (stat_src _ _ _ _ _ Hdir Hp Hsrc), (proj1 Hdst).
    apply bool_decide_eq_false. rewrite <- app_assoc. apply snoc_ne_snoc2. }
  unfold move. rewrite bind_inspect, Hisdir, bind_inspect, Hsame.
  rewrite (basename_join _ _ Hne Hp).
  rewrite bind_inspect, (path_exists_join_dir _ _ _ _ Hdst Hp).
  destruct (tree fs !! (((D ++ [t]) ++ [p]) ++ [p])) as [e'|] eqn:Enew.
  - rewrite bool_decide_true by eauto. reflexivity.
  - rewrite bool_decide_false by (intros [? ?]; congruence).
    unfold rename_or_copy. apply except_OSError_returns.
    unfold rename, syscall.
    rewrite (rename_sys_plain fs src (join dst p) D ((D ++ [t]) ++ [p]) p e).
    + rewrite Enew. cbv zeta. destruct e; reflexivity.
    + apply (parent_src _ _ _ _ Hdir Hp).
    + rewrite (parent_and_name_join _ _ _ _ (proj1 Hdst) Hp). now rewrite Hsub.
    + now apply is_dots_plain.
    + exact Hsrc.
    + apply (trailing_src _ _ _ _ Hdir Hp).
    + apply endswith_sep_join; [|exact Hp]. now do 2 apply join_nonempty.
    + apply apart_src_dst_in.
Qed.

(** The destination is no directory: the entry takes its place, unless a
    directory would replace a regular file. *)
Lemma move_to_free :
  tree fs !! (D ++ [t]) = Some Dir ->
  is_dir_at (tree fs) (D ++ [t; p]) = false ->
  match tree fs !! (D ++ [t; p]), e with
  | None, _ | Some (File _), File _ =>
      move src dst fs =
      (Returns tt, with_tree fs (move_subtree (D ++ [p]) (D ++ [t; p]) (tree fs)))
  | _, _ => raises (move src dst fs)
  end.
Proof using Hdir Ht Hp Htp Hsrc.
  intros Hteam Hsub.
  assert (D ++ [t; p] = (D ++ [t]) ++ [p]) as E2 by now rewrite <- app_assoc.
  rewrite E2 in *.
  pose proof (dir_nonempty _ _ _ Hdir) as Hne.
  assert (leads_to_dir fs td (D ++ [t])) as Htd
    by (apply leads_to_dir_join; [assumption..|now apply is_dir_at_lookup]).
  assert (isdir fs dst = false) as Hisdir.
  { unfold isdir. rewrite (stat_join_dir _ _ _ _ Htd Hp).
    destruct (tree fs !! ((D ++ [t]) ++ [p])); [exact Hsub|reflexivity]. }
  assert (rename_sys src dst fs =
          match e, tree fs !! ((D ++ [t]) ++ [p]) with
          | Dir, Some (File _) => inl ENOTDIR
          | _, _ => inr (with_tree fs
                           (move_subtree (D ++ [p]) ((D ++ [t]) ++ [p]) (tree fs)))
          end) as Hren.
  { rewrite (rename_sys_plain fs src dst D (D ++ [t]) p e).
    - cbv zeta. unfold is_dir_at in Hsub.
      destruct e, (tree fs !! ((D ++ [t]) ++ [p])) as [[?|]|];
        try reflexivity; discriminate.
    - apply (parent_src _ _ _ _ Hdir Hp).
    - rewrite (parent_and_name_join _ _ _ _ (proj1 Htd) Hp). now rewrite Hteam.
    - now apply is_dots_plain.
    - exact Hsrc.
    - apply (trailing_src _ _ _ _ Hdir Hp).
    - apply (trailing_dst _ _ _ _ _ Hdir Hp).
    - apply apart_src_dst. }
  unfold move. rewrite bind_inspect, Hisdir. unfold rename_or_copy.
  destruct (tree fs !! ((D ++ [t]) ++ [p])) as [[c'|]|] eqn:Edst.
  - destruct e as [c|].
    + apply except_OSError_returns. unfold rename, syscall. now rewrite Hren.
    + unfold except_OSError, rename, syscall. rewrite Hren.
      rewrite bind_inspect, (isdir_src _ _ _ _ _ Hdir Hp Hsrc).
      unfold is_dir_at at 1. rewrite Hsrc.
      rewrite bind_inspect. destruct (_destinsrc fs src dst).
      * now eexists _, _.
      * apply bind_raises'. unfold copytree.
        rewrite bind_inspect, (isdir_src _ _ _ _ _ Hdir Hp Hsrc).
        unfold is_dir_at at 1. rewrite Hsrc. cbn [negb].
        apply bind_raises'.
        rewrite (makedirs_join _ _ _ _ Htd Hp), (mkdir_join _ _ _ _ Htd Hp), Edst.
        now eexists _, _.
  - unfold is_dir_at in Hsub. rewrite Edst in Hsub. discriminate.
  - apply except_OSError_returns. unfold rename, syscall. rewrite Hren.
    destruct e; reflexivity.
Qed.

(** The move of an existing entry follows [move_plan]. *)
Lemma move_join :
  is_Some (tree fs !! (D ++ [t])) ->
  match move_plan D t p (tree fs) with
  | Some (Some new) =>
      move src dst fs =
      (Returns tt, with_tree fs (move_subtree (D ++ [p]) new (tree fs)))
  | Some None => False
  | None => raises (move src dst fs)
  end.
Proof using Hdir Ht Hp Htp Hsrc.
  intros [et Het]. unfold move_plan. rewrite Hsrc.
  unfold is_dir_at at 1. rewrite Het. destruct et as [c|].
  - now apply (move_under_file c).
  - destruct (is_dir_at (tree fs) (D ++ [t; p])) eqn:Esub.
    + apply is_dir_at_lookup in Esub. rewrite (move_into_dir Het Esub).
      destruct (tree fs !! (D ++ [t; p; p])); [now eexists _, _|reflexivity].
    + pose proof (move_to_free Het Esub) as H.
      destruct (tree fs !! (D ++ [t; p])) as [[c'|]|], e; exact H.
Qed.

End move_cases.

(** An empty team: source and destination are the same entry, which stays. *)
Lemma move_same fs dir D p e :
  leads_to_dir fs dir D -> plain_name p = true ->
  tree fs !! (D ++ [p]) = Some e ->
  move (join dir p) (join (join dir "") p) fs = (Returns tt, fs).
Proof.
  intros Hdir Hp Hsrc.
  pose proof (leads_to_dir_join_empty _ _ _ Hdir) as Hdir'.
  pose proof (dir_nonempty _ _ _ Hdir) as Hne.
  pose proof (dir_nonempty _ _ _ Hdir') as Hne'.
  assert (stat fs (join (join dir "") p) = inr (D ++ [p])) as Hstat
    by now rewrite (stat_join_dir _ _ _ _ Hdir' Hp), Hsrc.
  assert (rename_sys (join dir p) (join (join dir "") p) fs = inr fs) as Hren.
  { unfold rename_sys.
    rewrite (parent_src _ _ _ _ Hdir Hp), (parent_src _ _ _ _ Hdir' Hp).
    rewrite (is_dots_plain _ Hp), Hsrc. cbn [orb].
    rewrite !endswith_sep_join by assumption.
    rewrite bool_decide_true by reflexivity. destruct e; reflexivity. }
  unfold move. rewrite bind_inspect. unfold isdir. rewrite Hstat.
  unfold is_dir_at. rewrite Hsrc. destruct e as [c|].
  - unfold rename_or_copy. apply except_OSError_returns.
    unfold rename, syscall. now rewrite Hren.
  - rewrite bind_inspect. unfold _samefile, samefile.
    rewrite Hstat, (stat_src _ _ _ _ _ Hdir Hp Hsrc).
    rewrite bool_decide_true by reflexivity.
    unfold rename, syscall. now rewrite Hren.
Qed.

Lemma walk_mono t t' cur cs D :
  (forall k e, t !! k = Some e -> t' !! k = Some e) ->
  walk t cur cs = inr D -> walk t' cur cs = inr D.
Proof.
  intros Hsub. revert cur. induction cs as [|c cs IH]; intros cur; cbn; [auto|].
  destruct (lookup_step t cur c) as [e|cur'] eqn:E; [discriminate|].
  intros Hwalk. enough (lookup_step t' cur c = inr cur') as -> by auto.
  unfold lookup_step in *.
  destruct (t !! cur) as [[?|]|] eqn:Ecur; try discriminate.
  rewrite (Hsub _ _ Ecur).
  destruct (decide (c = "" \/ c = ".")); [exact E|].
  destruct (decide (c = "..")).
  - destruct (t !! removelast cur) eqn:Ep; [|discriminate].
    now rewrite (Hsub _ _ Ep).
  - destruct (t !! (cur ++ [c])) eqn:Ec; [|discriminate].
    now rewrite (Hsub _ _ Ec).
Qed.

Lemma leads_to_dir_mono fs dir D t' :
  (forall k e, tree fs !! k = Some e -> t' !! k = Some e) ->
  leads_to_dir fs dir D -> leads_to_dir (with_tree fs t') dir D.
Proof.
  intros Hsub [Hstat Hd]. split.
  - pose proof (stat_nonempty _ _ _ Hstat) as Hne.
    rewrite stat_unfold in * by exact Hne.
    now apply (walk_mono (tree fs)).
  - cbn. apply is_dir_at_lookup. apply Hsub. now apply is_dir_at_lookup.
Qed.

Lemma ensure_dir_at_mono k t k' e :
  t !! k' = Some e -> ensure_dir_at k t !! k' = Some e.
Proof.
  intros H. rewrite lookup_ensure_dir_at.
  destruct (decide (k = k')) as [->|]; [|exact H]. now rewrite H.
Qed.

Lemma team_name_ok_inv team :
  team_name_ok team = true -> team = "" \/ plain_name team = true.
Proof.
  unfold team_name_ok. intros [H|H]%orb_true_iff; [left|now right].
  now destruct team.
Qed.

(** What the loop body does for a row of plain names: [row_effect]. *)
Lemma loop_body_effect fs dir D team_col photo_col i row team photo :
  leads_to_dir fs dir D ->
  names team_col photo_col row = Some (team, photo) ->
  team_name_ok team = true -> plain_name photo = true -> team <> photo ->
  match row_effect D (team, photo) (tree fs) with
  | Some t' =>
      Organize.loop_body dir team_col photo_col (i, row) fs
      = (Returns tt, with_tree fs t')
  | None => raises (Organize.loop_body dir team_col photo_col (i, row) fs)
  end.
Proof.
  intros Hdir Hnames Hteam Hp Htp.
  rewrite (loop_body_names _ _ _ _ _ _ _ _ Hnames).
  unfold row_effect.
  destruct (team_name_ok_inv _ Hteam) as [->|Ht].
  - cbn [is_empty].
    pose proof (leads_to_dir_join_empty _ _ _ Hdir) as Hdir'.
    erewrite bind_returns.
    2:{ apply create_team_directory_exists. unfold path_exists.
        now rewrite (proj1 Hdir'). }
    rewrite with_tree_id.
    destruct (tree fs !! (D ++ [photo])) as [e|] eqn:Esrc.
    + rewrite move_if_exists_present
        by (rewrite (path_exists_join_dir _ _ _ _ Hdir Hp);
            apply bool_decide_eq_true; eauto).
      now apply (move_same _ _ D _ e).
    + apply move_if_exists_absent.
      rewrite (path_exists_join_dir _ _ _ _ Hdir Hp).
      apply bool_decide_eq_false. intros [? ?]. congruence.
  - rewrite is_empty_false by now apply plain_name_inv in Ht.
    erewrite bind_returns by now apply (create_team_directory_join _ _ D).
    set (t1 := ensure_dir_at (D ++ [team]) (tree fs)).
    assert (leads_to_dir (with_tree fs t1) dir D) as Hdir1.
    { apply leads_to_dir_mono; [|exact Hdir].
      intros k e. apply ensure_dir_at_mono. }
    unfold relocate.
    destruct (t1 !! (D ++ [photo])) as [e|] eqn:Esrc.
    + rewrite move_if_exists_present
        by (rewrite (path_exists_join_dir _ _ _ _ Hdir1 Hp);
            apply bool_decide_eq_true; eauto).
      pose proof (move_join (with_tree fs t1) dir D team photo e
                    Hdir1 Ht Hp Htp Esrc) as Hmove.
      cbn [tree with_tree] in Hmove.
      specialize (Hmove (ensure_dir_at_is_Some _ _)).
      fold t1 in Hmove.
      destruct (move_plan D team photo t1) as [[new|]|];
        [exact Hmove|contradiction|exact Hmove].
    + unfold move_plan. rewrite Esrc.
      apply move_if_exists_absent.
      rewrite (path_exists_join_dir _ _ _ _ Hdir1 Hp).
      apply bool_decide_eq_false. intros [? ?]. cbn in *. congruence.
Qed.

(** ** Independent changes of the tree *)

Lemma apart_sym a b : apart a b -> apart b a.
Proof. intros [? ?]. now split. Qed.

Lemma apart_not_prefix a b k : apart a b -> a `prefix_of` k -> ¬ b `prefix_of` k.
Proof.
  intros [Hab Hba] Ha Hb.
  destruct (prefix_weak_total _ _ _ Ha Hb); contradiction.
Qed.

Lemma apart_names (D : list string) x y r1 r2 :
  x <> y -> apart (D ++ x :: r1) (D ++ y :: r2).
Proof.
  intros Hxy. split; intros H%prefix_app_inv; apply prefix_cons_inv_1 in H;
    congruence.
Qed.

Lemma apart_second (D : list string) x y z r1 r2 :
  y <> z -> apart (D ++ x :: y :: r1) (D ++ x :: z :: r2).
Proof.
  intros Hyz.
  split; intros H%prefix_app_inv; apply prefix_cons_inv_2, prefix_cons_inv_1 in H;
    congruence.
Qed.

Lemma move_lookup_under_new t old new k :
  new `prefix_of` k -> move_lookup t old new k = t !! rebase new old k.
Proof. intros H. unfold move_lookup. now rewrite (proj2 (is_prefix_true _ _) H). Qed.

Lemma move_subtree_commute old1 new1 old2 new2 t :
  apart old1 new1 -> apart old2 new2 ->
  apart old1 old2 -> apart old1 new2 -> apart new1 old2 -> apart new1 new2 ->
  move_subtree old1 new1 (move_subtree old2 new2 t)
  = move_subtree old2 new2 (move_subtree old1 new1 t).
Proof.
  intros H11 H22 Hoo Hon Hno Hnn. apply map_eq. intros k.
  destruct (decide (new1 `prefix_of` k)) as [Hn1|Hn1].
  { rewrite lookup_move_subtree, (move_lookup_under_new _ _ _ _ Hn1).
    pose proof (rebase_prefix new1 old1 k) as Hr.
    rewrite lookup_move_subtree_other
      by (eapply apart_not_prefix; [|exact Hr]; assumption).
    rewrite lookup_move_subtree_other
      by (eapply apart_not_prefix; [|exact Hn1]; assumption).
    now rewrite lookup_move_subtree, (move_lookup_under_new _ _ _ _ Hn1). }
  destruct (decide (old1 `prefix_of` k)) as [Ho1|Ho1].
  { rewrite (lookup_move_subtree_old _ _ _ _ Hn1 Ho1).
    rewrite lookup_move_subtree_other
      by (eapply apart_not_prefix; [|exact Ho1]; assumption).
    now rewrite (lookup_move_subtree_old _ _ _ _ Hn1 Ho1). }
  rewrite (lookup_move_subtree_other _ _ _ _ Hn1 Ho1).
  destruct (decide (new2 `prefix_of` k)) as [Hn2|Hn2].
  { rewrite !lookup_move_subtree, !(move_lookup_under_new _ _ _ _ Hn2).
    pose proof (rebase_prefix new2 old2 k) as Hr.
    symmetry. apply lookup_move_subtree_other;
      (eapply apart_not_prefix; [|exact Hr]; now apply apart_sym). }
  destruct (decide (old2 `prefix_of` k)) as [Ho2|Ho2].
  { now rewrite !(lookup_move_subtree_old _ _ _ _ Hn2 Ho2). }
  rewrite !(lookup_move_subtree_other _ _ _ _ Hn2 Ho2).
  symmetry. now apply lookup_move_subtree_other.
Qed.

Lemma ensure_dir_at_commute a b t :
  ensure_dir_at a (ensure_dir_at b t) = ensure_dir_at b (ensure_dir_at a t).
Proof.
  apply map_eq. intros k. rewrite !lookup_ensure_dir_at.
  destruct (decide (a = k)) as [->|Ha], (decide (b = k)) as [->|Hb];
    rewrite ?decide_True by reflexivity; rewrite ?decide_False by congruence;
    reflexivity.
Qed.

Lemma ensure_dir_at_id a t : is_Some (t !! a) -> ensure_dir_at a t = t.
Proof. intros [e He]. unfold ensure_dir_at. now rewrite He. Qed.

Lemma ensure_move_commute a old new t :
  ¬ old `prefix_of` a -> ¬ new `prefix_of` a ->
  ensure_dir_at a (move_subtree old new t)
  = move_subtree old new (ensure_dir_at a t).
Proof.
  intros Ho Hn. apply map_eq. intros k.
  rewrite lookup_ensure_dir_at, !lookup_move_subtree.
  destruct (decide (a = k)) as [<-|Hak].
  - unfold move_lookup.
    rewrite (proj2 (is_prefix_false _ _) Hn), (proj2 (is_prefix_false _ _) Ho).
    now rewrite lookup_ensure_dir_at, decide_True.
  - unfold move_lookup. destruct (is_prefix new k) eqn:En.
    + rewrite lookup_ensure_dir_at_ne; [reflexivity|].
      intros ->. apply Ho, rebase_prefix.
    + destruct (is_prefix old k); [reflexivity|].
      now rewrite lookup_ensure_dir_at_ne.
Qed.

(** ** The effect of a row on the tree *)

(** Locations under the same directory are compared name by name. *)
Ltac not_prefix :=
  let H := fresh in
  let k := fresh in
  intros H; apply prefix_app_inv in H; destruct H as [k H];
  simplify_eq/=; congruence.

Ltac names_apart := split; not_prefix.

Lemma move_plan_ext D t p tr tr' :
  tr' !! (D ++ [p]) = tr !! (D ++ [p]) ->
  tr' !! (D ++ [t]) = tr !! (D ++ [t]) ->
  tr' !! (D ++ [t; p]) = tr !! (D ++ [t; p]) ->
  tr' !! (D ++ [t; p; p]) = tr !! (D ++ [t; p; p]) ->
  move_plan D t p tr' = move_plan D t p tr.
Proof.
  intros H1 H2 H3 H4. unfold move_plan, is_dir_at. now rewrite H1, H2, H3, H4.
Qed.

Lemma move_plan_new D t p tr new :
  move_plan D t p tr = Some (Some new) ->
  new = D ++ [t; p] \/ new = D ++ [t; p; p].
Proof.
  unfold move_plan. destruct (tr !! (D ++ [p])) as [e|]; [|discriminate].
  destruct (is_dir_at tr (D ++ [t])); [|discriminate].
  destruct (is_dir_at tr (D ++ [t; p])).
  - destruct (tr !! (D ++ [t; p; p])); [discriminate|]. intros [= <-]. auto.
  - destruct (tr !! (D ++ [t; p])) as [[?|]|], e; try discriminate;
      intros [= <-]; auto.
Qed.

Lemma move_plan_team_dir D t p tr new :
  move_plan D t p tr = Some (Some new) -> tr !! (D ++ [t]) = Some Dir.
Proof.
  unfold move_plan. destruct (tr !! (D ++ [p])) as [e|]; [|discriminate].
  destruct (is_dir_at tr (D ++ [t])) eqn:E; [|discriminate].
  intros _. now apply is_dir_at_lookup.
Qed.

Lemma move_plan_stay D t p tr :
  move_plan D t p tr = Some None <-> tr !! (D ++ [p]) = None.
Proof.
  unfold move_plan. split.
  - destruct (tr !! (D ++ [p])) as [e|]; [|reflexivity].
    destruct (is_dir_at tr (D ++ [t])); [|discriminate].
    destruct (is_dir_at tr (D ++ [t; p])).
    + destruct (tr !! (D ++ [t; p; p])); discriminate.
    + destruct (tr !! (D ++ [t; p])) as [[?|]|], e; discriminate.
  - intros ->. reflexivity.
Qed.

(** A row changes the tree only at and under its photo and its
    destination. *)
Lemma relocate_frame D t p x y k :
  relocate D t p x = Some y ->
  ¬ D ++ [p] `prefix_of` k -> ¬ D ++ [t; p] `prefix_of` k ->
  y !! k = x !! k.
Proof.
  unfold relocate. intros H Hp Htp.
  destruct (move_plan D t p x) as [[new|]|] eqn:E; try discriminate.
  - injection H as <-. apply lookup_move_subtree_other; [|exact Hp].
    destruct (move_plan_new _ _ _ _ _ E) as [->| ->]; [exact Htp|].
    intros Hpre. apply Htp. etransitivity; [|exact Hpre].
    exists [p]. now rewrite <- app_assoc.
  - now injection H as <-.
Qed.

(** After the row the photo is gone from the directory. *)
Lemma relocate_source_gone D t p x y :
  t <> p -> relocate D t p x = Some y -> y !! (D ++ [p]) = None.
Proof.
  unfold relocate. intros Htp H.
  destruct (move_plan D t p x) as [[new|]|] eqn:E; try discriminate.
  - injection H as <-. apply lookup_move_subtree_old; [|reflexivity].
    destruct (move_plan_new _ _ _ _ _ E) as [->| ->]; not_prefix.
  - injection H as <-. now apply move_plan_stay in E.
Qed.

Lemma relocate_ensure D t p t' tr :
  t <> p -> t' <> p ->
  t' <> t \/ is_Some (tr !! (D ++ [t'])) ->
  relocate D t p (ensure_dir_at (D ++ [t']) tr)
  = ensure_dir_at (D ++ [t']) <$> relocate D t p tr.
Proof.
  intros Htp Ht'p Hcase.
  destruct (decide (is_Some (tr !! (D ++ [t'])))) as [Hsome|Hnone].
  - rewrite (ensure_dir_at_id _ _ Hsome).
    destruct (relocate D t p tr) as [y|] eqn:E; [|reflexivity]. cbn.
    rewrite ensure_dir_at_id; [reflexivity|].
    rewrite (relocate_frame _ _ _ _ _ _ E); [exact Hsome|not_prefix..].
  - destruct Hcase as [Ht't|?]; [|contradiction].
    unfold relocate.
    rewrite (move_plan_ext D t p tr (ensure_dir_at (D ++ [t']) tr))
      by (apply lookup_ensure_dir_at_ne; intros ?; simplify_list_eq; congruence).
    destruct (move_plan D t p tr) as [[new|]|] eqn:E; try reflexivity.
    cbn. f_equal. symmetry. apply ensure_move_commute; [not_prefix|].
    destruct (move_plan_new _ _ _ _ _ E) as [->| ->]; not_prefix.
Qed.

Lemma relocate_commute D t1 p1 t2 p2 x y z :
  p1 <> p2 -> t1 <> p1 -> t1 <> p2 -> t2 <> p1 -> t2 <> p2 ->
  relocate D t1 p1 x = Some y -> relocate D t2 p2 y = Some z ->
  exists y', relocate D t2 p2 x = Some y' /\ relocate D t1 p1 y' = Some z.
Proof.
  intros Hpp H11 H12 H21 H22 Hy Hz.
  assert (move_plan D t2 p2 y = move_plan D t2 p2 x) as Hplan2
    by (apply move_plan_ext; apply (relocate_frame _ _ _ _ _ _ Hy); not_prefix).
  assert (forall y', relocate D t2 p2 x = Some y' ->
                     move_plan D t1 p1 y' = move_plan D t1 p1 x) as Hplan1
    by (intros y' Hy'; apply move_plan_ext;
        apply (relocate_frame _ _ _ _ _ _ Hy'); not_prefix).
  unfold relocate in Hy, Hz. rewrite Hplan2 in Hz.
  destruct (move_plan D t2 p2 x) as [[new2|]|] eqn:E2; try discriminate.
  - eexists. split; [unfold relocate; rewrite E2; reflexivity|].
    unfold relocate. rewrite Hplan1 by (unfold relocate; now rewrite E2).
    destruct (move_plan D t1 p1 x) as [[new1|]|] eqn:E1; try discriminate.
    + injection Hy as <-. injection Hz as <-. f_equal.
      apply move_subtree_commute.
      * destruct (move_plan_new _ _ _ _ _ E1) as [->| ->]; names_apart.
      * destruct (move_plan_new _ _ _ _ _ E2) as [->| ->]; names_apart.
      * names_apart.
      * destruct (move_plan_new _ _ _ _ _ E2) as [->| ->]; names_apart.
      * destruct (move_plan_new _ _ _ _ _ E1) as [->| ->]; names_apart.
      * destruct (move_plan_new _ _ _ _ _ E1) as [->| ->],
          (move_plan_new _ _ _ _ _ E2) as [->| ->]; names_apart.
    + injection Hy as <-. injection Hz as <-. reflexivity.
  - injection Hz as <-. exists x. split; [unfold relocate; now rewrite E2|].
    unfold relocate.
    destruct (move_plan D t1 p1 x) as [[new1|]|]; try discriminate; exact Hy.
Qed.

Lemma ensure_dir_at_id' a t k :
  is_Some (t !! k) -> ensure_dir_at a t !! k = t !! k.
Proof.
  intros [e He]. rewrite lookup_ensure_dir_at.
  destruct (decide (a = k)) as [->|]; [now rewrite He|reflexivity].
Qed.

Lemma row_effect_frame D r x y k :
  row_effect D r x = Some y ->
  ¬ D ++ [r.2] `prefix_of` k -> ¬ D ++ [r.1; r.2] `prefix_of` k ->
  is_Some (x !! k) \/ k <> D ++ [r.1] ->
  y !! k = x !! k.
Proof.
  destruct r as [t p]. cbn. intros H Hp Htp Hk.
  destruct (is_empty t); [now injection H as <-|].
  rewrite (relocate_frame _ _ _ _ _ _ H Hp Htp).
  destruct Hk as [Hk|Hk].
  - now apply ensure_dir_at_id'.
  - now apply lookup_ensure_dir_at_ne.
Qed.

Lemma row_effect_commute D r1 r2 x y z :
  r1.2 <> r2.2 -> r1.1 <> r1.2 -> r1.1 <> r2.2 -> r2.1 <> r1.2 -> r2.1 <> r2.2 ->
  row_effect D r1 x = Some y -> row_effect D r2 y = Some z ->
  exists y', row_effect D r2 x = Some y' /\ row_effect D r1 y' = Some z.
Proof.
  destruct r1 as [t1 p1], r2 as [t2 p2]. cbn.
  intros Hpp H11 H12 H21 H22 Hy Hz.
  destruct (is_empty t1) eqn:E1.
  { injection Hy as <-. exists z. split; [exact Hz|reflexivity]. }
  destruct (is_empty t2) eqn:E2.
  { injection Hz as <-. exists x. split; [reflexivity|exact Hy]. }
  set (a1 := D ++ [t1]) in *. set (a2 := D ++ [t2]) in *.
  assert (relocate D t1 p1 (ensure_dir_at a2 (ensure_dir_at a1 x))
          = Some (ensure_dir_at a2 y)) as Hy2.
  { unfold a2. rewrite relocate_ensure, Hy; [reflexivity|assumption..|].
    destruct (decide (t2 = t1)) as [->|]; [right|now left].
    apply ensure_dir_at_is_Some. }
  destruct (relocate_commute D t1 p1 t2 p2 _ _ _ Hpp H11 H12 H21 H22 Hy2 Hz)
    as (y' & Hy' & Hz').
  rewrite ensure_dir_at_commute in Hy'. unfold a1 in Hy'.
  rewrite relocate_ensure in Hy'; [|assumption..|].
  2:{ destruct (decide (t1 = t2)) as [->|]; [right|now left].
      apply ensure_dir_at_is_Some. }
  fold a1 a2 in Hy'.
  destruct (relocate D t2 p2 (ensure_dir_at a2 x)) as [y2|]; [|discriminate].
  injection Hy' as <-. exists y2. split; [reflexivity|exact Hz'].
Qed.

Lemma teams_differ_cons r rs :
  teams_differ_from_photos (r :: rs) ->
  r.1 <> r.2 /\ (forall r', r' ∈ rs -> r.1 <> r'.2 /\ r'.1 <> r.2)
  /\ teams_differ_from_photos rs.
Proof.
  intros H. split; [|split].
  - apply H; apply list_elem_of_here.
  - intros r' Hin. split; apply H;
      (apply list_elem_of_here || now apply list_elem_of_further).
  - intros r1 r2 H1 H2. apply H; now apply list_elem_of_further.
Qed.

Lemma teams_differ_perm rs rs' :
  Permutation rs rs' -> teams_differ_from_photos rs ->
  teams_differ_from_photos rs'.
Proof.
  intros Hperm H r1 r2 H1 H2. apply H.
  - now rewrite Hperm.
  - now rewrite Hperm.
Qed.

(** The order of the rows does not matter, for distinct photos that are
    no team names. *)
Lemma rows_effect_perm D rs rs' :
  Permutation rs rs' ->
  NoDup rs.*2 -> teams_differ_from_photos rs ->
  forall x z, rows_effect D rs x = Some z -> rows_effect D rs' x = Some z.
Proof.
  induction 1 as [|r rs rs' Hperm IH|r2 r1 rs|rs rs' rs'' H1 IH1 H2 IH2];
    intros Hnd Hdiff x z Hz.
  - exact Hz.
  - cbn in *. destruct (row_effect D r x) as [y|]; [|discriminate].
    apply NoDup_cons in Hnd as [_ Hnd].
    apply teams_differ_cons in Hdiff as (_ & _ & Hdiff). now apply IH.
  - cbn in *.
    destruct (row_effect D r1 x) as [y|] eqn:E1; [|discriminate].
    destruct (row_effect D r2 y) as [y2|] eqn:E2; [|discriminate].
    apply NoDup_cons in Hnd as [Hnot Hnd].
    apply teams_differ_cons in Hdiff as (H11 & Hr1 & Hdiff).
    apply teams_differ_cons in Hdiff as (H22 & _ & _).
    destruct (Hr1 r2 (list_elem_of_here _ _)) as [H12 H21].
    destruct (row_effect_commute D r1 r2 x y y2) as (y' & -> & ->); auto.
    intros Heq. apply Hnot. rewrite Heq. apply list_elem_of_here.
  - apply IH2; [now rewrite <- H1|now apply (teams_differ_perm rs)|].
    now apply IH1.
Qed.

(** An entry that is there stays, under rows that address other names. *)
Lemma rows_effect_frame D rs x z k :
  rows_effect D rs x = Some z ->
  (forall r, r ∈ rs ->
     ¬ D ++ [r.2] `prefix_of` k /\ ¬ D ++ [r.1; r.2] `prefix_of` k) ->
  is_Some (x !! k) \/ (forall r, r ∈ rs -> k <> D ++ [r.1]) ->
  z !! k = x !! k.
Proof.
  revert x. induction rs as [|r rs IH]; intros x Hz Hrs Hk; cbn in Hz.
  - now injection Hz as <-.
  - destruct (row_effect D r x) as [y|] eqn:E; [|discriminate].
    destruct (Hrs r (list_elem_of_here _ _)) as [H1 H2].
    assert (y !! k = x !! k) as Hy.
    { apply (row_effect_frame _ _ _ _ _ E H1 H2).
      destruct Hk as [Hk|Hk]; [now left|right].
      apply Hk, list_elem_of_here. }
    rewrite <- Hy. apply IH; [exact Hz| |].
    + intros r' Hin. apply Hrs. now apply list_elem_of_further.
    + rewrite Hy. destruct Hk as [Hk|Hk]; [now left|right].
      intros r' Hin. apply Hk. now apply list_elem_of_further.
Qed.

Lemma row_effect_keeps_absent D r x y p :
  row_effect D r x = Some y ->
  r.1 <> p -> r.1 <> r.2 ->
  x !! (D ++ [p]) = None -> y !! (D ++ [p]) = None.
Proof.
  destruct r as [t p']. cbn. intros H Htp Htp' Hx.
  destruct (is_empty t); [now injection H as <-|].
  destruct (decide (p' = p)) as [->|Hne].
  - now apply (relocate_source_gone _ _ _ _ _ Htp H).
  - rewrite (relocate_frame _ _ _ _ _ _ H); [|not_prefix..].
    rewrite lookup_ensure_dir_at_ne; [exact Hx|].
    intros ?; simplify_list_eq; congruence.
Qed.

Lemma rows_effect_keeps_absent D rs x z p :
  rows_effect D rs x = Some z ->
  (forall r, r ∈ rs -> r.1 <> p /\ r.1 <> r.2) ->
  x !! (D ++ [p]) = None -> z !! (D ++ [p]) = None.
Proof.
  revert x. induction rs as [|r rs IH]; intros x Hz Hrs Hx; cbn in Hz.
  - now injection Hz as <-.
  - destruct (row_effect D r x) as [y|] eqn:E; [|discriminate].
    destruct (Hrs r (list_elem_of_here _ _)) as [H1 H2].
    apply (IH y Hz).
    + intros r' Hin. apply Hrs. now apply list_elem_of_further.
    + now apply (row_effect_keeps_absent D r x).
Qed.

(** Once the rows are through, every team directory is in place and no
    photo is left in the directory. *)
Lemma rows_effect_done D rs x z :
  teams_differ_from_photos rs ->
  rows_effect D rs x = Some z ->
  forall t p, (t, p) ∈ rs -> is_empty t = false ->
    is_Some (z !! (D ++ [t])) /\ z !! (D ++ [p]) = None.
Proof.
  revert x. induction rs as [|r rs IH]; intros x Hdiff Hz t p Hin Ht.
  - now apply elem_of_nil in Hin.
  - cbn in Hz. destruct (row_effect D r x) as [y|] eqn:E; [|discriminate].
    apply teams_differ_cons in Hdiff as (Hrr & Hr & Hdiff).
    apply elem_of_cons in Hin as [<-|Hin]; [|now apply (IH y)].
    cbn in E, Hrr, Hr. rewrite Ht in E.
    assert (is_Some (y !! (D ++ [t]))) as Hteam.
    { rewrite (relocate_frame _ _ _ _ _ _ E); [|not_prefix..].
      apply ensure_dir_at_is_Some. }
    split.
    + rewrite (rows_effect_frame _ _ _ _ _ Hz); [exact Hteam| |now left].
      intros r' Hin. destruct (Hr r' Hin) as [H1 H2]. split; not_prefix.
    + apply (rows_effect_keeps_absent _ _ _ _ _ Hz).
      * intros r' Hin. split; [now apply Hr|].
        apply Hdiff; exact Hin.
      * now apply (relocate_source_gone _ _ _ _ _ Hrr E).
Qed.

Lemma rows_effect_fixed D rs z :
  (forall r, r ∈ rs -> row_effect D r z = Some z) ->
  rows_effect D rs z = Some z.
Proof.
  induction rs as [|r rs IH]; intros H; cbn; [reflexivity|].
  rewrite (H r (list_elem_of_here _ _)). apply IH.
  intros r' Hin. apply H. now apply list_elem_of_further.
Qed.

(** A second pass over the rows changes nothing. *)
Lemma rows_effect_twice D rs x z :
  teams_differ_from_photos rs ->
  rows_effect D rs x = Some z -> rows_effect D rs z = Some z.
Proof.
  intros Hdiff Hz. apply rows_effect_fixed. intros [t p] Hin. cbn.
  destruct (is_empty t) eqn:Et; [reflexivity|].
  destruct (rows_effect_done _ _ _ _ Hdiff Hz t p Hin Et) as [Hteam Hphoto].
  rewrite (ensure_dir_at_id _ _ Hteam). unfold relocate.
  now rewrite (proj2 (move_plan_stay D t p z) Hphoto).
Qed.

(** Where the file of a row ends. *)
Lemma rows_effect_file D rs x z t p c :
  NoDup rs.*2 -> teams_differ_from_photos rs ->
  rows_effect D rs x = Some z ->
  (t, p) ∈ rs ->
  x !! (D ++ [p]) = Some (File c) ->
  x !! (D ++ [t; p]) <> Some Dir ->
  if is_empty t then z !! (D ++ [p]) = Some (File c)
  else z !! (D ++ [t; p]) = Some (File c)
       /\ z !! (D ++ [t]) = Some Dir
       /\ z !! (D ++ [p]) = None.
Proof.
  revert x. induction rs as [|r rs IH]; intros x Hnd Hdiff Hz Hin Hsrc Hdst.
  - now apply elem_of_nil in Hin.
  - cbn in Hz. destruct (row_effect D r x) as [y|] eqn:E; [|discriminate].
    cbn in Hnd. apply NoDup_cons in Hnd as [Hnot Hnd].
    apply teams_differ_cons in Hdiff as (Hrr & Hr & Hdiff).
    apply elem_of_cons in Hin as [<-|Hin].
    + (* the row of the file *)
      cbn in E, Hrr, Hr, Hnot.
      assert (forall r', r' ∈ rs -> t <> r'.2 /\ r'.1 <> p /\ r'.2 <> p) as Hr'.
      { intros r' Hin. destruct (Hr r' Hin). repeat split; auto.
        intros Heq. apply Hnot. rewrite <- Heq.
        now apply list_elem_of_fmap_2. }
      destruct (is_empty t) eqn:Et.
      * injection E as <-.
        rewrite (rows_effect_frame _ _ _ _ _ Hz); [exact Hsrc| |left; eauto].
        intros r' Hin. destruct (Hr' r' Hin) as (? & ? & ?). split; not_prefix.
      * set (x1 := ensure_dir_at (D ++ [t]) x) in *.
        assert (x1 !! (D ++ [p]) = Some (File c)) as Hsrc1.
        { unfold x1. rewrite lookup_ensure_dir_at_ne; [exact Hsrc|].
          intros ?; simplify_list_eq; congruence. }
        assert (x1 !! (D ++ [t; p]) = x !! (D ++ [t; p])) as Hdst1.
        { unfold x1. apply lookup_ensure_dir_at_ne.
          intros H. apply (f_equal length) in H.
          rewrite !length_app in H. cbn in H. lia. }
        assert (y = move_subtree (D ++ [p]) (D ++ [t; p]) x1
                /\ x1 !! (D ++ [t]) = Some Dir) as [-> Hteam].
        { unfold relocate, move_plan in E. rewrite Hsrc1 in E.
          destruct (is_dir_at x1 (D ++ [t])) eqn:Edir; [|discriminate].
          apply is_dir_at_lookup in Edir. split; [|exact Edir].
          unfold is_dir_at in E. rewrite Hdst1 in E.
          destruct (x !! (D ++ [t; p])) as [[c'|]|]; try congruence. }
        assert (move_subtree (D ++ [p]) (D ++ [t; p]) x1 !! (D ++ [t; p])
                = Some (File c)) as H1.
        { pose proof (lookup_move_subtree_new (D ++ [p]) (D ++ [t; p]) x1 [])
            as H. rewrite !app_nil_r in H. now rewrite H. }
        assert (move_subtree (D ++ [p]) (D ++ [t; p]) x1 !! (D ++ [t])
                = Some Dir) as H2.
        { rewrite lookup_move_subtree_other; [exact Hteam|not_prefix..]. }
        assert (move_subtree (D ++ [p]) (D ++ [t; p]) x1 !! (D ++ [p])
                = None) as H3.
        { apply lookup_move_subtree_old; [not_prefix|reflexivity]. }
        split; [|split].
        -- rewrite (rows_effect_frame _ _ _ _ _ Hz); [exact H1| |left; eauto].
           intros r' Hin. destruct (Hr' r' Hin) as (? & ? & ?).
           split; not_prefix.
        -- rewrite (rows_effect_frame _ _ _ _ _ Hz); [exact H2| |left; eauto].
           intros r' Hin. destruct (Hr' r' Hin) as (? & ? & ?).
           split; not_prefix.
        -- apply (rows_effect_keeps_absent _ _ _ _ _ Hz); [|exact H3].
           intros r' Hin. destruct (Hr' r' Hin) as (? & ? & ?).
           split; [assumption|]. now apply Hdiff.
    + (* an earlier row *)
      assert (r.2 <> p) as Hpp.
      { intros Heq. apply Hnot. rewrite Heq.
        now apply (list_elem_of_fmap_2 snd _ (t, p)). }
      destruct (Hr (t, p) Hin) as [Hrp Htr]. cbn in Hrp, Htr.
      apply (IH y); auto.
      * rewrite (row_effect_frame _ _ _ _ _ E); [exact Hsrc|not_prefix..|].
        left. eauto.
      * rewrite (row_effect_frame _ _ _ _ _ E); [exact Hdst|not_prefix..|].
        right. intros H. apply (f_equal length) in H.
        rewrite !length_app in H. cbn in H. lia.
Qed.

Lemma plain_rows_inv rs :
  plain_rows rs = true ->
  (forall r, r ∈ rs -> team_name_ok r.1 = true /\ plain_name r.2 = true)
  /\ teams_differ_from_photos rs.
Proof.
  unfold plain_rows. intros [H1 H2]%andb_true_iff.
  rewrite forallb_forall in H1, H2. split.
  - intros r Hin. apply list_elem_of_In, H1 in Hin.
    unfold row_names_ok in Hin. now apply andb_true_iff in Hin.
  - intros r1 r2 Hin1 Hin2. apply list_elem_of_In, H2 in Hin1.
    rewrite forallb_forall in Hin1. apply list_elem_of_In, Hin1 in Hin2.
    apply negb_true_iff in Hin2. now apply bool_decide_eq_false in Hin2.
Qed.

Lemma plain_rows_perm rs rs' :
  Permutation rs rs' -> plain_rows rs = true -> plain_rows rs' = true.
Proof.
  intros Hperm [Hok Hdiff]%plain_rows_inv. unfold plain_rows.
  apply andb_true_iff. split; apply forallb_forall.
  - intros r Hin%list_elem_of_In. rewrite <- Hperm in Hin.
    unfold row_names_ok. destruct (Hok r Hin) as [-> ->]. reflexivity.
  - intros r1 Hin1%list_elem_of_In. apply forallb_forall.
    intros r2 Hin2%list_elem_of_In. rewrite <- Hperm in Hin1, Hin2.
    apply negb_true_iff, bool_decide_eq_false. now apply Hdiff.
Qed.

Lemma Forall2_imap_l {A B C} (f : nat -> A -> B) (P : B -> C -> Prop) l k :
  Forall2 (fun x y => forall i, P (f i x) y) l k -> Forall2 P (imap f l) k.
Proof.
  revert f k. induction l as [|x l IH]; intros f k H.
  - apply Forall2_nil_inv_l in H as ->. constructor.
  - apply Forall2_cons_inv_l in H as (y & k' & Hxy & Hl & ->).
    cbn. constructor; [apply Hxy|]. apply IH.
    eapply Forall2_impl; [exact Hl|]. intros x' y' H' i. apply H'.
Qed.

Lemma iterrows_names team_col photo_col df rs :
  table_rows team_col photo_col df = Some rs ->
  Forall2 (fun item r => names team_col photo_col item.2 = Some r)
    (iterrows df) rs.
Proof.
  intros H%mapM_Some. unfold iterrows. apply Forall2_imap_l.
  eapply Forall2_impl; [exact H|]. intros r y Hr i. exact Hr.
Qed.

Lemma prefix_of_dir_not_below (D : list string) k l :
  k `prefix_of` D -> l <> [] -> ¬ D ++ l `prefix_of` k.
Proof.
  intros Hk Hl Hp. apply prefix_length in Hk, Hp.
  rewrite length_app in Hp. destruct l; [congruence|]. cbn in Hp. lia.
Qed.

Lemma row_effect_above D r x y k :
  row_effect D r x = Some y -> k `prefix_of` D -> y !! k = x !! k.
Proof.
  intros H Hk. apply (row_effect_frame _ _ _ _ _ H).
  - now apply prefix_of_dir_not_below.
  - now apply prefix_of_dir_not_below.
  - right. intros ->. apply prefix_length in Hk.
    rewrite length_app in Hk. cbn in Hk. lia.
Qed.

(** What the loop does for a table of plain names: [rows_effect]. *)
Lemma for_each_effect dir D team_col photo_col items rs :
  no_dotdot dir = true ->
  Forall2 (fun item r => names team_col photo_col item.2 = Some r) items rs ->
  (forall r, r ∈ rs -> team_name_ok r.1 = true /\ plain_name r.2 = true) ->
  teams_differ_from_photos rs ->
  forall fs, leads_to_dir fs dir D ->
  match rows_effect D rs (tree fs) with
  | Some t' =>
      for_each items (Organize.loop_body dir team_col photo_col) fs
      = (Returns tt, with_tree fs t')
  | None =>
      raises (for_each items (Organize.loop_body dir team_col photo_col) fs)
  end.
Proof.
  intros Hdd Hnames. induction Hnames as [|[i row] [t p] items rs Hrow _ IH];
    intros Hok Hdiff fs Hdir.
  - cbn. now rewrite with_tree_id.
  - cbn [rows_effect for_each]. cbn in Hrow.
    destruct (Hok (t, p) (list_elem_of_here _ _)) as [Ht Hp]. cbn in Ht, Hp.
    apply teams_differ_cons in Hdiff as (Htp & _ & Hdiff). cbn in Htp.
    pose proof (loop_body_effect fs dir D team_col photo_col i row t p
                  Hdir Hrow Ht Hp Htp) as Hbody.
    destruct (row_effect D (t, p) (tree fs)) as [t1|] eqn:E.
    + erewrite bind_returns by exact Hbody.
      assert (leads_to_dir (with_tree fs t1) dir D) as Hdir1.
      { apply leads_to_dir_agree; [assumption..|].
        intros k Hk. now apply (row_effect_above _ _ _ _ _ E). }
      specialize (IH (fun r Hin => Hok r (list_elem_of_further _ _ _ Hin))
                    Hdiff _ Hdir1).
      cbn [tree with_tree] in IH.
      destruct (rows_effect D rs t1); exact IH.
    + now apply bind_raises'.
Qed.

Section run.

Variable read_csv : string -> FS -> outcome DataFrame.

Lemma organize_effect csv_path dir D team_col photo_col fs df rs :
  read_csv csv_path fs = Returns df ->
  leads_to_dir fs dir D -> no_dotdot dir = true ->
  table_rows team_col photo_col df = Some rs ->
  plain_rows rs = true ->
  match rows_effect D rs (tree fs) with
  | Some t' =>
      Organize.organize_photos_by_team read_csv csv_path dir team_col photo_col fs
      = (Returns tt, with_tree fs t')
  | None =>
      raises (Organize.organize_photos_by_team read_csv csv_path dir
                team_col photo_col fs)
  end.
Proof.
  intros Hread Hdir Hdd Hrows [Hok Hdiff]%plain_rows_inv.
  rewrite (organize_unfold _ _ _ _ _ _ _ Hread).
  apply for_each_effect; auto. now apply iterrows_names.
Qed.

Lemma organize_returns csv_path dir D team_col photo_col fs df rs fs' :
  read_csv csv_path fs = Returns df ->
  leads_to_dir fs dir D -> no_dotdot dir = true ->
  table_rows team_col photo_col df = Some rs ->
  plain_rows rs = true ->
  Organize.organize_photos_by_team read_csv csv_path dir team_col photo_col fs
  = (Returns tt, fs') ->
  rows_effect D rs (tree fs) = Some (tree fs')
  /\ fs' = with_tree fs (tree fs').
Proof.
  intros Hread Hdir Hdd Hrows Hplain Hrun.
  pose proof (organize_effect _ _ _ _ _ _ _ _ Hread Hdir Hdd Hrows Hplain) as H.
  destruct (rows_effect D rs (tree fs)) as [t'|].
  - rewrite H in Hrun. injection Hrun as <-. split; reflexivity.
  - destruct H as (e & fs1 & H). congruence.
Qed.

Lemma rows_effect_above D rs x z k :
  rows_effect D rs x = Some z -> k `prefix_of` D -> z !! k = x !! k.
Proof.
  revert x. induction rs as [|r rs IH]; intros x Hz Hk; cbn in Hz.
  - now injection Hz as <-.
  - destruct (row_effect D r x) as [y|] eqn:E; [|discriminate].
    rewrite (IH _ Hz Hk). now apply (row_effect_above _ _ _ _ _ E).
Qed.

Lemma leads_to_dir_after D rs fs dir t' :
  no_dotdot dir = true -> leads_to_dir fs dir D ->
  rows_effect D rs (tree fs) = Some t' ->
  leads_to_dir (with_tree fs t') dir D.
Proof.
  intros Hdd Hdir Hz. apply leads_to_dir_agree; [assumption..|].
  intros k Hk. now apply (rows_effect_above _ _ _ _ _ Hz).
Qed.

End run.

Lemma Forall2_perm_l {A B} (P : A -> B -> Prop) l l' k :
  Permutation l l' -> Forall2 P l k ->
  exists k', Forall2 P l' k' /\ Permutation k k'.
Proof.
  intros Hperm. revert k.
  induction Hperm as [|x l l' _ IH|x y l|l l' l'' _ IH1 _ IH2]; intros k H.
  - apply Forall2_nil_inv_l in H as ->. exists []. split; constructor.
  - apply Forall2_cons_inv_l in H as (z & k0 & Hz & Hk & ->).
    destruct (IH _ Hk) as (k' & Hk' & Hp). exists (z :: k').
    split; [now constructor|now constructor].
  - apply Forall2_cons_inv_l in H as (z1 & k0 & Hz1 & Hk & ->).
    apply Forall2_cons_inv_l in Hk as (z2 & k1 & Hz2 & Hk & ->).
    exists (z2 :: z1 :: k1). split; [now repeat constructor|apply perm_swap].
  - destruct (IH1 _ H) as (k' & Hk' & Hp1).
    destruct (IH2 _ Hk') as (k'' & Hk'' & Hp2).
    exists k''. split; [exact Hk''|now transitivity k'].
Qed.

Lemma table_rows_perm team_col photo_col df df' rs :
  columns df' = columns df -> Permutation (data df) (data df') ->
  table_rows team_col photo_col df = Some rs ->
  exists rs', table_rows team_col photo_col df' = Some rs' /\ Permutation rs rs'.
Proof.
  unfold table_rows. intros -> Hperm H%mapM_Some.
  destruct (Forall2_perm_l _ _ _ _ Hperm H) as (rs' & H' & Hp).
  exists rs'. split; [now apply mapM_Some|exact Hp].
Qed.

Section theorems.

Variable read_csv : string -> FS -> outcome DataFrame.

(** C1 (amended). Let the image directory be an existing directory
    given by a path with no ".." segment, let every trimmed photo value be
    a plain file name, every trimmed team value a plain name or empty, the
    photo values pairwise distinct and none of them a team value, and let
    the call complete without an error.  Then for every row whose photo
    named a regular file at [dir/photo] before the run, and for which
    [dir/team/photo] was no directory, that file is at [dir/team/photo]
    after the run and nothing is at [dir/photo]; when the trimmed team is
    empty the file stays at [dir/photo]. *)
Theorem photos_end_in_team_directories csv_path image_directory team_col
    photo_col fs df rs D fs' team photo c :
  read_csv csv_path fs = Returns df ->
  leads_to_dir fs image_directory D -> no_dotdot image_directory = true ->
  table_rows team_col photo_col df = Some rs ->
  plain_rows rs = true -> distinct_photos rs = true ->
  Organize.organize_photos_by_team read_csv csv_path image_directory
    team_col photo_col fs = (Returns tt, fs') ->
  (team, photo) ∈ rs ->
  entry_at fs (join image_directory photo) = Some (File c) ->
  tree fs !! (D ++ [team; photo]) <> Some Dir ->
  if is_empty team
  then entry_at fs' (join image_directory photo) = Some (File c)
  else entry_at fs' (join (join image_directory team) photo) = Some (File c)
       /\ path_exists fs' (join image_directory photo) = false.
Proof.
  intros Hread Hdir Hdd Hrows Hplain Hnd Hrun Hin Hsrc Hdst.
  destruct (organize_returns _ _ _ _ _ _ _ _ _ _ Hread Hdir Hdd Hrows Hplain Hrun)
    as [Heff Hfs'].
  pose proof (leads_to_dir_after _ _ _ _ _ Hdd Hdir Heff) as Hdir'.
  rewrite <- Hfs' in Hdir'.
  destruct (plain_rows_inv _ Hplain) as [Hok Hdiff].
  destruct (Hok _ Hin) as [Ht Hp]. cbn in Ht, Hp.
  rewrite (entry_at_join_dir _ _ _ _ Hdir Hp) in Hsrc.
  apply bool_decide_eq_true in Hnd.
  pose proof (rows_effect_file D rs _ _ team photo c Hnd Hdiff Heff Hin Hsrc Hdst)
    as H.
  destruct (is_empty team) eqn:Et.
  - now rewrite (entry_at_join_dir _ _ _ _ Hdir' Hp).
  - destruct H as (H1 & H2 & H3).
    destruct (team_name_ok_inv _ Ht) as [->|Ht']; [discriminate|].
    assert (leads_to_dir fs' (join image_directory team) (D ++ [team])) as Hteam
      by (apply leads_to_dir_join; [assumption..|now apply is_dir_at_lookup]).
    split.
    + rewrite (entry_at_join_dir _ _ _ _ Hteam Hp), <- app_assoc. exact H1.
    + rewrite (path_exists_join_dir _ _ _ _ Hdir' Hp), H3.
      apply bool_decide_eq_false. intros [? ?]. discriminate.
Qed.

(** C7 (amended). Let the image directory be an existing directory given
    by a path with no ".." segment, every trimmed photo value a plain file
    name, every trimmed team value a plain name or empty, and no photo
    value a team value.  When a first call completes without an error, a
    second call on the same table, from the tree the first call left,
    completes without an error and leaves that tree as it is. *)
Theorem second_run_changes_nothing csv_path image_directory team_col
    photo_col fs df rs D fs' :
  read_csv csv_path fs = Returns df ->
  read_csv csv_path fs' = Returns df ->
  leads_to_dir fs image_directory D -> no_dotdot image_directory = true ->
  table_rows team_col photo_col df = Some rs ->
  plain_rows rs = true ->
  Organize.organize_photos_by_team read_csv csv_path image_directory
    team_col photo_col fs = (Returns tt, fs') ->
  Organize.organize_photos_by_team read_csv csv_path image_directory
    team_col photo_col fs' = (Returns tt, fs').
Proof.
  intros Hread Hread' Hdir Hdd Hrows Hplain Hrun.
  destruct (organize_returns _ _ _ _ _ _ _ _ _ _ Hread Hdir Hdd Hrows Hplain Hrun)
    as [Heff Hfs'].
  pose proof (leads_to_dir_after _ _ _ _ _ Hdd Hdir Heff) as Hdir'.
  rewrite <- Hfs' in Hdir'.
  destruct (plain_rows_inv _ Hplain) as [_ Hdiff].
  pose proof (rows_effect_twice _ _ _ _ Hdiff Heff) as Htwice.
  pose proof (organize_effect _ _ _ _ _ _ _ _ _ Hread' Hdir' Hdd Hrows Hplain)
    as H.
  rewrite Htwice in H. now rewrite with_tree_id in H.
Qed.

(** C8 (amended). Let the image directory be an existing directory given
    by a path with no ".." segment, every trimmed photo value a plain file
    name, every trimmed team value a plain name or empty, the photo values
    pairwise distinct and none of them a team value.  When the call
    completes without an error on a table, it completes without an error
    on every table with the same rows in another order, with the same
    final tree. *)
Theorem row_order_is_irrelevant csv_path csv_path' image_directory team_col
    photo_col fs df df' rs D fs' :
  read_csv csv_path fs = Returns df ->
  read_csv csv_path' fs = Returns df' ->
  columns df' = columns df -> Permutation (data df) (data df') ->
  leads_to_dir fs image_directory D -> no_dotdot image_directory = true ->
  table_rows team_col photo_col df = Some rs ->
  plain_rows rs = true -> distinct_photos rs = true ->
  Organize.organize_photos_by_team read_csv csv_path image_directory
    team_col photo_col fs = (Returns tt, fs') ->
  Organize.organize_photos_by_team read_csv csv_path' image_directory
    team_col photo_col fs = (Returns tt, fs').
Proof.
  intros Hread Hread' Hcols Hperm Hdir Hdd Hrows Hplain Hnd Hrun.
  destruct (organize_returns _ _ _ _ _ _ _ _ _ _ Hread Hdir Hdd Hrows Hplain Hrun)
    as [Heff Hfs'].
  destruct (table_rows_perm _ _ _ _ _ Hcols Hperm Hrows) as (rs' & Hrows' & Hp).
  destruct (plain_rows_inv _ Hplain) as [_ Hdiff].
  apply bool_decide_eq_true in Hnd.
  pose proof (rows_effect_perm D rs rs' Hp Hnd Hdiff _ _ Heff) as Heff'.
  pose proof (organize_effect _ _ _ _ _ _ _ _ _ Hread' Hdir Hdd Hrows'
                (plain_rows_perm _ _ Hp Hplain)) as H.
  rewrite Heff' in H. now rewrite <- Hfs' in H.
Qed.

End theorems.

(** C10 (amended). The source check is on existence only.  Let the
    image directory be an existing directory given by a path with no ".."
    segment, the entry at [dir/photo] a directory, the team a plain name
    other than the photo, of at most 255 bytes and with no null byte,
    [dir/team] absent or a directory, nothing at [dir/team/photo], and the
    path [dir/team/photo] shorter than 4096 bytes.  Then the row returns
    without an error and the directory is at [dir/team/photo] with every
    entry it held, and gone from [dir/photo]. *)
Theorem directory_is_relocated image_directory D team_col photo_col i row
    team photo fs :
  leads_to_dir fs image_directory D -> no_dotdot image_directory = true ->
  names team_col photo_col row = Some (team, photo) ->
  plain_name team = true -> plain_name photo = true -> team <> photo ->
  name_fits team = true ->
  path_fits (join (join image_directory team) photo) = true ->
  entry_at fs (join image_directory photo) = Some Dir ->
  (forall c, entry_at fs (join image_directory team) <> Some (File c)) ->
  tree fs !! (D ++ [team; photo]) = None ->
  exists fs',
    Organize.loop_body image_directory team_col photo_col (i, row) fs
    = (Returns tt, fs')
    /\ stat fs' (join (join image_directory team) photo)
       = inr (D ++ [team; photo])
    /\ (forall rest,
          tree fs' !! (D ++ [team; photo] ++ rest)
          = tree fs !! (D ++ [photo] ++ rest))
    /\ (forall rest, tree fs' !! (D ++ [photo] ++ rest) = None)
    /\ path_exists fs' (join image_directory photo) = false.
Proof.
  intros Hdir Hdd Hnames Ht Hp Htp _ _ Hsrc Hteam Hdst.
  rewrite (entry_at_join_dir _ _ _ _ Hdir Hp) in Hsrc.
  assert (forall c, tree fs !! (D ++ [team]) <> Some (File c)) as Hteam'
    by (intros c; rewrite <- (entry_at_join_dir _ _ _ _ Hdir Ht); apply Hteam).
  set (x1 := ensure_dir_at (D ++ [team]) (tree fs)).
  assert (x1 !! (D ++ [team]) = Some Dir) as H1.
  { unfold x1. rewrite lookup_ensure_dir_at, decide_True by reflexivity.
    destruct (tree fs !! (D ++ [team])) as [[c|]|] eqn:E; try reflexivity.
    now destruct (Hteam' c). }
  assert (forall rest, x1 !! (D ++ [photo] ++ rest) = tree fs !! (D ++ [photo] ++ rest))
    as H2.
  { intros rest. unfold x1. apply lookup_ensure_dir_at_ne.
    intros H. apply app_inv_head in H. cbn in H. congruence. }
  assert (x1 !! (D ++ [team; photo]) = None) as H3.
  { unfold x1. rewrite lookup_ensure_dir_at_ne; [exact Hdst|].
    intros H. apply app_inv_head in H. discriminate. }
  assert (row_effect D (team, photo) (tree fs)
          = Some (move_subtree (D ++ [photo]) (D ++ [team; photo]) x1)) as Heff.
  { cbn. rewrite is_empty_false by now apply plain_name_inv in Ht.
    fold x1. unfold relocate, move_plan, is_dir_at.
    pose proof (H2 []) as H2'. cbn in H2'. rewrite H2', Hsrc, H1, H3.
    reflexivity. }
  pose proof (loop_body_effect fs image_directory D team_col photo_col i row
                team photo Hdir Hnames) as Hbody.
  rewrite Heff in Hbody. eexists. split.
  { apply Hbody; [|assumption..]. unfold team_name_ok. rewrite Ht.
    apply orb_true_r. }
  set (fs' := with_tree fs _).
  assert (forall rest, tree fs' !! (D ++ [team; photo] ++ rest)
                       = tree fs !! (D ++ [photo] ++ rest)) as Hnew.
  { intros rest. cbn [fs' tree with_tree]. rewrite <- H2.
    rewrite !app_assoc. apply lookup_move_subtree_new. }
  assert (forall rest, tree fs' !! (D ++ [photo] ++ rest) = None) as Hold.
  { intros rest. cbn [fs' tree with_tree]. rewrite app_assoc.
    apply lookup_move_subtree_old; [|now apply prefix_app_r].
    rewrite <- app_assoc. not_prefix. }
  assert (leads_to_dir fs' image_directory D) as Hdir'.
  { apply leads_to_dir_agree; [assumption..|].
    intros k Hk. now apply (row_effect_above _ _ _ _ _ Heff). }
  assert (leads_to_dir fs' (join image_directory team) (D ++ [team])) as Hteam''.
  { apply leads_to_dir_join; [assumption..|]. apply is_dir_at_lookup.
    cbn [fs' tree with_tree].
    rewrite lookup_move_subtree_other; [exact H1|not_prefix..]. }
  repeat split.
  - rewrite (stat_join_dir _ _ _ _ Hteam'' Hp), <- app_assoc.
    pose proof (Hnew []) as H. rewrite !app_nil_r in H.
    change ([team; photo]) with ([team] ++ [photo]).
    cbn [app] in *. now rewrite H, Hsrc.
  - exact Hnew.
  - exact Hold.
  - rewrite (path_exists_join_dir _ _ _ _ Hdir' Hp).
    pose proof (Hold []) as H. rewrite app_nil_r in H. rewrite H.
    apply bool_decide_eq_false. intros [? ?]. discriminate.
Qed.

(** ** The scenarios of the specification *)

Import Scenario.

(** [a.jpg] and [b.jpg] with the rows (Red, a.jpg) and (Blue, b.jpg): the
    files end in [/D/Red] and [/D/Blue] and are gone from [/D]. *)
Example two_teams :
  let run := Organize.organize_photos_by_team
               (reads (table [("Red", "a.jpg"); ("Blue", "b.jpg")]))
               "t.csv" "/D" "Team" "Photo" photos_dir in
  run.1 = Returns tt
  /\ entry_at run.2 "/D/Red/a.jpg" = Some (File "A")
  /\ entry_at run.2 "/D/Blue/b.jpg" = Some (File "B")
  /\ path_exists run.2 "/D/a.jpg" = false
  /\ path_exists run.2 "/D/b.jpg" = false.
Proof. vm_compute. repeat split. Qed.

(** A team cell " Red " names the directory [Red]. *)
Example team_with_spaces :
  let run := Organize.loop_body "/D" "Team" "Photo" (0%nat, row " Red " "a.jpg")
               photos_dir in
  run.1 = Returns tt
  /\ tree run.2 !! ["D"; "Red"] = Some Dir
  /\ tree run.2 !! ["D"; " Red "] = None
  /\ tree run.2 !! ["D"; "Red"; "a.jpg"] = Some (File "A").
Proof. vm_compute. repeat split. Qed.

(** White space is more than the space: a team cell that ends in a
    no-break space (U+00A0) and a photo cell behind an ideographic space
    (U+3000) name [Red] and [a.jpg]; a zero width space (U+200B) is no
    white space and stays. *)
Example team_with_no_break_space :
  let run := Organize.loop_body "/D" "Team" "Photo"
               (0%nat, row ("Red" +:+ utf8 0xA0) (utf8 0x3000 +:+ "a.jpg"))
               photos_dir in
  run.1 = Returns tt
  /\ tree run.2 !! ["D"; "Red"] = Some Dir
  /\ tree run.2 !! ["D"; "Red"; "a.jpg"] = Some (File "A")
  /\ strip ("Red" +:+ utf8 0x200B) = "Red" +:+ utf8 0x200B.
Proof. vm_compute. repeat split. Qed.

(** ** Where the claims fail as they are stated *)

(** C1 as stated fails when a later row names the team directory of an
    earlier one as its photo: [a.jpg] was in [/D] before the run, its team
    is Red, and after the run it is at [/D/Blue/Red/a.jpg], not at
    [/D/Red/a.jpg]. *)
Lemma photo_named_like_team_carries_files_away :
  let run := Organize.organize_photos_by_team
               (reads (table [("Red", "a.jpg"); ("Blue", "Red")]))
               "t.csv" "/D" "Team" "Photo" photos_dir in
  entry_at photos_dir (join "/D" "a.jpg") = Some (File "A")
  /\ run.1 = Returns tt
  /\ entry_at run.2 (join (join "/D" "Red") "a.jpg") = None
  /\ entry_at run.2 "/D/Blue/Red/a.jpg" = Some (File "A").
Proof. vm_compute. repeat split. Qed.

(** C1 as stated also fails for two rows with the same photo: the file
    goes to the team of the first row only. *)
Lemma photo_listed_twice_goes_to_first_team :
  let run := Organize.organize_photos_by_team
               (reads (table [("Red", "a.jpg"); ("Blue", "a.jpg")]))
               "t.csv" "/D" "Team" "Photo" photos_dir in
  entry_at photos_dir (join "/D" "a.jpg") = Some (File "A")
  /\ run.1 = Returns tt
  /\ entry_at run.2 (join (join "/D" "Blue") "a.jpg") = None.
Proof. vm_compute. repeat split. Qed.

(** C2 as stated fails: the row (Red, c.jpg), whose photo names nothing,
    returns without an error and has created [/D/Red]. *)
Lemma missing_photo_still_creates_team_directory :
  let run := Organize.loop_body "/D" "Team" "Photo" (0%nat, row "Red" "c.jpg")
               photos_dir in
  path_exists photos_dir (join "/D" "c.jpg") = false
  /\ run.1 = Returns tt
  /\ tree photos_dir !! ["D"; "Red"] = None
  /\ tree run.2 !! ["D"; "Red"] = Some Dir
  /\ run.2 <> photos_dir.
Proof.
  repeat split; try (vm_compute; reflexivity).
  intros H. apply (f_equal (fun fs => tree fs !! ["D"; "Red"])) in H.
  vm_compute in H. discriminate.
Qed.

(** C3 as stated fails for a table without rows: the team column is
    missing from the header and the call returns without any error. *)
Lemma missing_column_without_rows_is_no_error :
  let df := mkDataFrame ["Name"; "Photo"] [] in
  bool_decide ("Team" ∈ columns df) = false
  /\ Organize.organize_photos_by_team (reads df) "t.csv" "/D" "Team" "Photo"
       photos_dir = (Returns tt, photos_dir).
Proof. split; reflexivity. Qed.

(** C6 as stated fails where the path of the team directory names a
    regular file: two rows with the team Red return without an error and
    no directory [/D/Red] results, the file is there as before. *)
Lemma team_path_that_is_a_file_gets_no_directory :
  let run := Organize.organize_photos_by_team
               (reads (table [("Red", "c.jpg"); ("Red", "d.jpg")]))
               "t.csv" "/D" "Team" "Photo" Cases.photos_dir_with_file_Red in
  run = (Returns tt, Cases.photos_dir_with_file_Red)
  /\ entry_at run.2 (join "/D" "Red") = Some (File "r").
Proof. split; vm_compute; reflexivity. Qed.

(** C7 as stated fails when a photo names a team directory: the first run
    moves [/D/Red] into [/D/Blue]; the second run creates [/D/Red] again
    and moves it into [/D/Blue/Red]. *)
Lemma second_run_moves_the_recreated_directory :
  let read := reads (table [("Red", "a.jpg"); ("Blue", "Red")]) in
  let first := Organize.organize_photos_by_team read "t.csv" "/D" "Team" "Photo"
                 photos_dir in
  let second := Organize.organize_photos_by_team read "t.csv" "/D" "Team" "Photo"
                  first.2 in
  first.1 = Returns tt /\ second.1 = Returns tt
  /\ tree first.2 !! ["D"; "Blue"; "Red"; "Red"] = None
  /\ tree second.2 !! ["D"; "Blue"; "Red"; "Red"] = Some Dir
  /\ second.2 <> first.2.
Proof.
  repeat split; try (vm_compute; reflexivity).
  intros H.
  apply (f_equal (fun fs => tree fs !! ["D"; "Blue"; "Red"; "Red"])) in H.
  vm_compute in H. discriminate.
Qed.

(** C8 as stated fails for the distinct photos [a.jpg] and [Red]: in one
    order [a.jpg] ends at [/D/Blue/Red/a.jpg], in the other at
    [/D/Red/a.jpg]. *)
Lemma order_matters_when_a_photo_names_a_team :
  let rows := [("Red", "a.jpg"); ("Blue", "Red")] in
  let rows' := [("Blue", "Red"); ("Red", "a.jpg")] in
  let run := Organize.organize_photos_by_team (reads (table rows))
               "t.csv" "/D" "Team" "Photo" photos_dir in
  let run' := Organize.organize_photos_by_team (reads (table rows'))
                "t.csv" "/D" "Team" "Photo" photos_dir in
  Permutation rows rows' /\ distinct_photos rows = true
  /\ run.1 = Returns tt /\ run'.1 = Returns tt
  /\ entry_at run.2 "/D/Red/a.jpg" = None
  /\ entry_at run'.2 "/D/Red/a.jpg" = Some (File "A")
  /\ run.2 <> run'.2.
Proof.
  split; [apply perm_swap|].
  repeat split; try (vm_compute; reflexivity).
  intros H.
  apply (f_equal (fun fs => tree fs !! ["D"; "Red"; "a.jpg"])) in H.
  vm_compute in H. discriminate.
Qed.

(** C10 as stated fails for a directory listed under its own name as the
    team: the move is tried and raises, and the directory stays. *)
Lemma directory_is_not_moved_into_itself :
  entry_at albums_dir (join "/D" "sub") = Some Dir
  /\ Organize.loop_body "/D" "Team" "Photo" (0%nat, row "sub" "sub") albums_dir
     = (Raises (ShutilError (MoveIntoItself "/D/sub" "/D/sub/sub")), albums_dir).
Proof. split; vm_compute; reflexivity. Qed.

(** ** The theorems at concrete inputs *)

(** C1 at the rows (Red, a.jpg), (Blue, b.jpg). *)
Lemma photos_end_in_team_directories_witness :
  let rows := [("Red", "a.jpg"); ("Blue", "b.jpg")] in
  let run := Organize.organize_photos_by_team (reads (table rows))
               "t.csv" "/D" "Team" "Photo" photos_dir in
  entry_at run.2 (join (join "/D" "Red") "a.jpg") = Some (File "A")
  /\ path_exists run.2 (join "/D" "a.jpg") = false.
Proof.
  intros rows run.
  apply (photos_end_in_team_directories (reads (table rows)) "t.csv" "/D"
           "Team" "Photo" photos_dir (table rows) rows ["D"] run.2
           "Red" "a.jpg" "A").
  - reflexivity.
  - split; vm_compute; reflexivity.
  - vm_compute; reflexivity.
  - vm_compute; reflexivity.
  - vm_compute; reflexivity.
  - vm_compute; reflexivity.
  - vm_compute; reflexivity.
  - apply list_elem_of_here.
  - vm_compute; reflexivity.
  - vm_compute; discriminate.
Defined.

(** C3 at a table with one row and no team column. *)
Lemma missing_column_leaves_tree_witness :
  Organize.organize_photos_by_team
    (reads (mkDataFrame ["Name"; "Photo"] [[SStr "Ann"; SStr "a.jpg"]]))
    "t.csv" "/D" "Team" "Photo" photos_dir
  = (Raises (KeyError "Team"), photos_dir).
Proof.
  apply (missing_column_leaves_tree
           (reads (mkDataFrame ["Name"; "Photo"] [[SStr "Ann"; SStr "a.jpg"]]))
           "t.csv" "/D" "Team" "Photo" photos_dir
           (mkDataFrame ["Name"; "Photo"] [[SStr "Ann"; SStr "a.jpg"]])).
  - reflexivity.
  - left. apply (bool_decide_eq_false_1 _). vm_compute; reflexivity.
Defined.

(** C4 at the rows (Red, a.jpg), (Red, Red), (Blue, b.jpg): the second row
    raises, [a.jpg] stays moved, [b.jpg] is not touched. *)
Lemma row_error_aborts_batch_witness :
  let rows := [("Red", "a.jpg"); ("Red", "Red"); ("Blue", "b.jpg")] in
  let run := Organize.organize_photos_by_team (reads (table rows))
               "t.csv" "/D" "Team" "Photo" photos_dir in
  run = (Raises (ShutilError (MoveIntoItself "/D/Red" "/D/Red/Red")),
         (Organize.loop_body "/D" "Team" "Photo" (0%nat, row "Red" "a.jpg")
            photos_dir).2).
Proof.
  intros rows run.
  apply (row_error_aborts_batch (reads (table rows)) "t.csv" "/D" "Team" "Photo"
           photos_dir (table rows)
           [(0%nat, row "Red" "a.jpg")] 1%nat (row "Red" "Red")
           [(2%nat, row "Blue" "b.jpg")] _
           (Organize.loop_body "/D" "Team" "Photo" (0%nat, row "Red" "a.jpg")
              photos_dir).2).
  - reflexivity.
  - reflexivity.
  - vm_compute; reflexivity.
  - vm_compute; reflexivity.
Defined.

(** C7 at the rows (Red, a.jpg), (Blue, b.jpg). *)
Lemma second_run_changes_nothing_witness :
  let read := reads (table [("Red", "a.jpg"); ("Blue", "b.jpg")]) in
  let first := Organize.organize_photos_by_team read "t.csv" "/D" "Team" "Photo"
                 photos_dir in
  Organize.organize_photos_by_team read "t.csv" "/D" "Team" "Photo" first.2
  = (Returns tt, first.2).
Proof.
  intros read first.
  apply (second_run_changes_nothing read "t.csv" "/D" "Team" "Photo" photos_dir
           (table [("Red", "a.jpg"); ("Blue", "b.jpg")])
           [("Red", "a.jpg"); ("Blue", "b.jpg")] ["D"] first.2).
  - reflexivity.
  - reflexivity.
  - split; vm_compute; reflexivity.
  - vm_compute; reflexivity.
  - vm_compute; reflexivity.
  - vm_compute; reflexivity.
  - vm_compute; reflexivity.
Defined.

(** C8 at the rows (Red, a.jpg), (Blue, b.jpg) and the same rows in the
    other order, read from two table files. *)
Lemma row_order_is_irrelevant_witness :
  let read := fun (path : string) (_ : FS) =>
    if decide (path = "t.csv")
    then Returns (table [("Red", "a.jpg"); ("Blue", "b.jpg")])
    else Returns (table [("Blue", "b.jpg"); ("Red", "a.jpg")]) in
  let run := Organize.organize_photos_by_team read "t.csv" "/D" "Team" "Photo"
               photos_dir in
  Organize.organize_photos_by_team read "u.csv" "/D" "Team" "Photo" photos_dir
  = (Returns tt, run.2).
Proof.
  intros read run.
  apply (row_order_is_irrelevant read "t.csv" "u.csv" "/D" "Team" "Photo"
           photos_dir (table [("Red", "a.jpg"); ("Blue", "b.jpg")])
           (table [("Blue", "b.jpg"); ("Red", "a.jpg")])
           [("Red", "a.jpg"); ("Blue", "b.jpg")] ["D"] run.2).
  - reflexivity.
  - reflexivity.
  - reflexivity.
  - apply perm_swap.
  - split; vm_compute; reflexivity.
  - vm_compute; reflexivity.
  - vm_compute; reflexivity.
  - vm_compute; reflexivity.
  - vm_compute; reflexivity.
  - vm_compute; reflexivity.
Defined.

(** C10 at the row (Red, sub), where [/D/sub] is a directory. *)
Lemma directory_is_relocated_witness :
  exists fs',
    Organize.loop_body "/D" "Team" "Photo" (0%nat, row "Red" "sub") albums_dir
    = (Returns tt, fs')
    /\ stat fs' (join (join "/D" "Red") "sub") = inr (["D"] ++ ["Red"; "sub"])
    /\ (forall rest,
          tree fs' !! (["D"] ++ ["Red"; "sub"] ++ rest)
          = tree albums_dir !! (["D"] ++ ["sub"] ++ rest))
    /\ (forall rest, tree fs' !! (["D"] ++ ["sub"] ++ rest) = None)
    /\ path_exists fs' (join "/D" "sub") = false.
Proof.
  apply (directory_is_relocated "/D" ["D"] "Team" "Photo" 0%nat
           (row "Red" "sub") "Red" "sub" albums_dir).
  - split; vm_compute; reflexivity.
  - vm_compute; reflexivity.
  - reflexivity.
  - vm_compute; reflexivity.
  - vm_compute; reflexivity.
  - discriminate.
  - vm_compute; reflexivity.
  - vm_compute; reflexivity.
  - vm_compute; reflexivity.
  - intros c. vm_compute. discriminate.
  - vm_compute; reflexivity.
Defined.

(** ** Why the amended C1 asks for plain names and a free destination *)

(** A team value "." is not empty, and the file stays where it is. *)
Example team_dot_leaves_the_file :
  let run := Organize.loop_body "/D" "Team" "Photo" (0%nat, row "." "a.jpg")
               photos_dir in
  run.1 = Returns tt
  /\ entry_at run.2 (join "/D" "a.jpg") = Some (File "A").
Proof. vm_compute. repeat split. Qed.

(** With a directory at [/D/Red/a.jpg] before the run, the file goes
    inside it. *)
Example directory_at_destination_takes_the_file :
  let fs := mkFS (<[ ["D"; "Red"; "a.jpg"] := Dir ]>
                    (tree photos_dir_with_Red)) [] in
  let run := Organize.loop_body "/D" "Team" "Photo" (0%nat, row "Red" "a.jpg")
               fs in
  run.1 = Returns tt
  /\ entry_at run.2 (join (join "/D" "Red") "a.jpg") = Some Dir
  /\ entry_at run.2 "/D/Red/a.jpg/a.jpg" = Some (File "A").
Proof. vm_compute. repeat split. Qed.

(** * Further properties *)

Import Outcomes.

(** ** The image directory, chosen or not *)

Lemma join_empty_l p : join "" p = p.
Proof. unfold join. destruct (startswith_sep p); reflexivity. Qed.

Lemma image_directory_is_dir fs dir D :
  image_directory_at fs dir D -> tree fs !! D = Some Dir.
Proof. intros [(_ & _ & H)|[_ H]]; now apply is_dir_at_lookup. Qed.

Lemma stat_plain_relative fs p :
  plain_name p = true -> stat fs p = lookup_step (tree fs) (cwd fs) p.
Proof.
  intros Hp. pose proof (plain_name_inv _ Hp) as (Hne & Hsep & _).
  rewrite stat_unfold by exact Hne. unfold start, isabs.
  rewrite (plain_name_not_abs _ Hp), (split_sep_no_sep _ Hsep). cbn.
  destruct (lookup_step (tree fs) (cwd fs) p); reflexivity.
Qed.

Lemma stat_join_at fs dir D p :
  image_directory_at fs dir D -> plain_name p = true ->
  stat fs (join dir p) =
  match tree fs !! (D ++ [p]) with
  | Some _ => inr (D ++ [p])
  | None => inl ENOENT
  end.
Proof.
  intros [(-> & -> & Hd)|Hdir] Hp; [|now apply stat_join_dir].
  rewrite join_empty_l, (stat_plain_relative _ _ Hp), (lookup_step_plain _ _ _ Hp).
  apply is_dir_at_lookup in Hd. now rewrite Hd.
Qed.

Lemma path_exists_join_at fs dir D p :
  image_directory_at fs dir D -> plain_name p = true ->
  path_exists fs (join dir p) = bool_decide (is_Some (tree fs !! (D ++ [p]))).
Proof.
  intros Hd Hp. unfold path_exists. rewrite (stat_join_at _ _ _ _ Hd Hp).
  destruct (tree fs !! (D ++ [p])) as [e|] eqn:E.
  - symmetry. apply bool_decide_eq_true. eauto.
  - symmetry. apply bool_decide_eq_false. intros [? ?]. congruence.
Qed.

Lemma entry_at_join_at fs dir D p :
  image_directory_at fs dir D -> plain_name p = true ->
  entry_at fs (join dir p) = tree fs !! (D ++ [p]).
Proof.
  intros Hd Hp. unfold entry_at. rewrite (stat_join_at _ _ _ _ Hd Hp).
  destruct (tree fs !! (D ++ [p])) as [e|] eqn:E; [exact E|reflexivity].
Qed.

Lemma join_plain_nonempty dir p : plain_name p = true -> join dir p <> "".
Proof.
  intros Hp. destruct dir as [|c dir]; [|now apply join_nonempty].
  rewrite join_empty_l. now apply plain_name_inv in Hp.
Qed.

Lemma endswith_sep_join_plain dir p :
  plain_name p = true -> endswith_sep (join dir p) = false.
Proof.
  intros Hp. destruct dir as [|c dir]; [|now apply endswith_sep_join].
  rewrite join_empty_l. apply endswith_sep_no_sep. now apply plain_name_inv in Hp.
Qed.

Lemma basename_join_plain dir p : plain_name p = true -> _basename (join dir p) = p.
Proof.
  intros Hp. destruct dir as [|c dir]; [|now apply basename_join].
  rewrite join_empty_l. unfold _basename, basename.
  pose proof (plain_name_inv _ Hp) as (_ & Hsep & _).
  rewrite rstrip_by_no_trailing by now apply endswith_sep_no_sep.
  now rewrite rpartition_sep_no_sep.
Qed.

Lemma parent_and_name_plain_relative fs p :
  plain_name p = true ->
  parent_and_name fs p =
  match tree fs !! cwd fs with
  | Some Dir => inr (cwd fs, Some p)
  | Some (File _) => inl ENOTDIR
  | None => inl ENOENT
  end.
Proof.
  intros Hp. pose proof (plain_name_inv _ Hp) as (Hne & Hsep & _).
  unfold parent_and_name. rewrite (is_empty_false _ Hne).
  rewrite (split_sep_no_sep _ Hsep). cbn. rewrite (is_empty_false _ Hne). cbn.
  unfold start, isabs. now rewrite (plain_name_not_abs _ Hp).
Qed.

Lemma parent_and_name_join_at fs dir D p :
  image_directory_at fs dir D -> plain_name p = true ->
  parent_and_name fs (join dir p) = inr (D, Some p).
Proof.
  intros Hat Hp. pose proof (image_directory_is_dir _ _ _ Hat) as Hd.
  destruct Hat as [(-> & -> & _)|[Hstat _]].
  - now rewrite join_empty_l, (parent_and_name_plain_relative _ _ Hp), Hd.
  - now rewrite (parent_and_name_join _ _ _ _ Hstat Hp), Hd.
Qed.

Lemma leads_to_dir_join_at fs dir D t :
  image_directory_at fs dir D -> plain_name t = true ->
  is_dir_at (tree fs) (D ++ [t]) = true ->
  leads_to_dir fs (join dir t) (D ++ [t]).
Proof.
  intros Hat Ht Hdir. split; [|exact Hdir].
  rewrite (stat_join_at _ _ _ _ Hat Ht).
  apply is_dir_at_lookup in Hdir. now rewrite Hdir.
Qed.

Lemma mkdir_join_at fs dir D t :
  image_directory_at fs dir D -> plain_name t = true ->
  mkdir (join dir t) fs =
  match tree fs !! (D ++ [t]) with
  | Some _ => (Raises (OSError EEXIST), fs)
  | None => (Returns tt, with_tree fs (<[D ++ [t] := Dir]> (tree fs)))
  end.
Proof.
  intros Hat Ht. unfold mkdir, syscall, mkdir_sys.
  rewrite (parent_and_name_join_at _ _ _ _ Hat Ht), (is_dots_plain _ Ht).
  destruct (tree fs !! (D ++ [t])); reflexivity.
Qed.

Lemma makedirs_plain_relative fs t :
  plain_name t = true -> makedirs t fs = mkdir t fs.
Proof.
  intros Ht. pose proof (plain_name_inv _ Ht) as (Hne & Hsep & _).
  unfold makedirs. destruct (String.length t) as [|n]; [reflexivity|].
  cbn [makedirs_rec]. unfold split.
  rewrite (rpartition_sep_no_sep _ Hsep). cbn.
  rewrite (is_empty_false _ Hne). now rewrite bind_inspect.
Qed.

Lemma makedirs_join_at fs dir D t :
  image_directory_at fs dir D -> plain_name t = true ->
  makedirs (join dir t) fs = mkdir (join dir t) fs.
Proof.
  intros [(-> & _ & _)|Hdir] Ht; [|now apply (makedirs_join _ _ D)].
  rewrite join_empty_l. now apply makedirs_plain_relative.
Qed.

Lemma create_team_directory_join_at fs dir D t :
  image_directory_at fs dir D -> plain_name t = true ->
  Organize.create_team_directory (join dir t) fs
  = (Returns tt, with_tree fs (ensure_dir_at (D ++ [t]) (tree fs))).
Proof.
  intros Hat Ht. unfold Organize.create_team_directory.
  rewrite bind_inspect, (path_exists_join_at _ _ _ _ Hat Ht).
  unfold ensure_dir_at.
  destruct (tree fs !! (D ++ [t])) as [e|] eqn:E.
  - rewrite bool_decide_true by eauto. cbn. now rewrite with_tree_id.
  - rewrite bool_decide_false by (intros [? ?]; congruence). cbn.
    rewrite (makedirs_join_at _ _ _ _ Hat Ht), (mkdir_join_at _ _ _ _ Hat Ht), E.
    reflexivity.
Qed.

Lemma makedirs_under_file_at fs dir D t p c :
  image_directory_at fs dir D -> plain_name t = true -> plain_name p = true ->
  tree fs !! (D ++ [t]) = Some (File c) ->
  makedirs (join (join dir t) p) fs = (Raises (OSError ENOTDIR), fs).
Proof.
  intros Hat Ht Hp Hfile.
  assert (stat fs (join dir t) = inr (D ++ [t])) as Hstat
    by now rewrite (stat_join_at _ _ _ _ Hat Ht), Hfile.
  unfold makedirs.
  assert (mkdir (join (join dir t) p) fs = (Raises (OSError ENOTDIR), fs)) as Hmk.
  { unfold mkdir, syscall, mkdir_sys.
    now rewrite (parent_and_name_join _ _ _ _ Hstat Hp), Hfile. }
  destruct (String.length _) as [|n]; [exact Hmk|].
  cbn [makedirs_rec].
  rewrite split_join_no_trailing;
    [|now apply join_plain_nonempty|now apply endswith_sep_join_plain|exact Hp].
  rewrite is_empty_false by now apply plain_name_inv in Hp.
  rewrite bind_inspect. unfold path_exists at 1. rewrite Hstat.
  cbn. rewrite andb_false_r. exact Hmk.
Qed.

(** ** Normal forms of the paths of a row *)

Lemma startswith_app a b c : startswith (a +:+ b) (a +:+ c) = startswith b c.
Proof.
  induction a as [|x a IH]; [reflexivity|].
  rewrite !append_cons. cbn. now rewrite decide_True.
Qed.

Lemma startswith_refl_app a b : startswith a (a +:+ b) = true.
Proof.
  induction a as [|x a IH]; [reflexivity|].
  rewrite append_cons. cbn. now rewrite decide_True.
Qed.

(** A name followed by a slash starts another one followed by a slash only
    when the names are the same. *)
Lemma startswith_name p t r :
  has_sep p = false -> has_sep t = false ->
  startswith (p +:+ "/") (t +:+ String "/" r) = bool_decide (p = t).
Proof.
  revert t. induction p as [|a p IH]; intros [|b t] Hp Ht;
    rewrite ?append_cons, ?append_empty_l; cbn [startswith].
  - now rewrite decide_True.
  - cbn in Ht. apply orb_false_iff in Ht as [Hb _].
    rewrite decide_False, bool_decide_false; [reflexivity|discriminate|].
    intros <-. unfold is_sep in Hb. now rewrite decide_True in Hb.
  - cbn in Hp. apply orb_false_iff in Hp as [Ha _].
    rewrite decide_False, bool_decide_false; [reflexivity|discriminate|].
    intros ->. unfold is_sep in Ha. now rewrite decide_True in Ha.
  - cbn in Hp, Ht. apply orb_false_iff in Hp as [_ Hp], Ht as [_ Ht].
    destruct (decide (a = b)) as [->|Hab].
    + rewrite (IH t Hp Ht).
      destruct (decide (p = t)) as [->|Hne].
      * now rewrite !bool_decide_true.
      * rewrite !bool_decide_false; [reflexivity|congruence|exact Hne].
    + rewrite bool_decide_false; [reflexivity|congruence].
Qed.

(** Leading slashes are counted before the first name. *)
Lemma startswith_slashes pre stem q :
  all_sep pre = true -> startswith_sep q = false ->
  startswith pre (stem +:+ String "/" q) = startswith pre (stem +:+ "/").
Proof.
  revert stem. induction pre as [|x pre IH]; intros stem Hpre Hq;
    [reflexivity|].
  cbn in Hpre. apply andb_true_iff in Hpre as [Hx Hpre].
  apply is_sep_true in Hx as ->.
  destruct stem as [|a stem].
  - rewrite !append_empty_l. cbn. rewrite decide_True by reflexivity.
    destruct pre as [|y pre]; [reflexivity|].
    cbn in Hpre. apply andb_true_iff in Hpre as [Hy _].
    apply is_sep_true in Hy as ->.
    destruct q as [|c q]; [reflexivity|]. cbn in Hq |- *.
    rewrite decide_False; [reflexivity|].
    intros <-. unfold is_sep in Hq. now rewrite decide_True in Hq.
  - rewrite !append_cons. cbn.
    destruct (decide ("/"%char = a)); [now apply IH|reflexivity].
Qed.

Lemma normpath_comps_snoc b cs acc q :
  plain_name q = true ->
  normpath_comps b (cs ++ [q]) acc = normpath_comps b cs acc ++ [q].
Proof.
  intros (Hne & _ & Hdot & Hdots)%plain_name_inv.
  revert acc. induction cs as [|c cs IH]; intros acc; cbn.
  - rewrite decide_False by (intros [?|?]; congruence).
    now rewrite decide_True by now left.
  - destruct (decide (c = "" \/ c = ".")); [apply IH|].
    destruct (decide _); apply IH.
Qed.

Lemma join_sep_cons x l :
  l <> [] -> join_sep (x :: l) = x +:+ "/" +:+ join_sep l.
Proof. destruct l; [congruence|reflexivity]. Qed.

Lemma join_sep_snoc N :
  exists J,
    (forall r, join_sep (N ++ [r]) = J +:+ r)
    /\ (forall t r, join_sep ((N ++ [t]) ++ [r]) = J +:+ t +:+ String "/" r).
Proof.
  induction N as [|x N (J & H1 & H2)].
  - exists "". split; reflexivity.
  - exists (x +:+ "/" +:+ J). split.
    + intros r. cbn [app]. rewrite join_sep_cons, H1.
      * now rewrite !append_assoc.
      * intros E. now apply app_eq_nil in E as [_ ?].
    + intros t r. cbn [app]. rewrite join_sep_cons, H2.
      * now rewrite !append_assoc.
      * intros E. now apply app_eq_nil in E as [_ ?].
Qed.

(** The normal form of an absolute path that ends in a plain name, and of
    the path one plain name further. *)
Lemma normpath_stem stem t p :
  startswith_sep (stem +:+ "/") = true ->
  plain_name t = true -> plain_name p = true ->
  exists pre,
    normpath (stem +:+ String "/" p) = pre +:+ p
    /\ normpath ((stem +:+ String "/" t) +:+ String "/" p)
       = pre +:+ t +:+ String "/" p.
Proof.
  intros Habs Ht Hp.
  pose proof (plain_name_inv _ Ht) as (Htne & Htsep & _).
  pose proof (plain_name_inv _ Hp) as (Hpne & Hpsep & _).
  pose proof (plain_name_not_abs _ Ht) as Htabs.
  pose proof (plain_name_not_abs _ Hp) as Hpabs.
  assert ((stem +:+ String "/" t) +:+ String "/" p
          = stem +:+ String "/" (t +:+ String "/" p)) as E2
    by now rewrite append_assoc.
  assert (startswith_sep (t +:+ String "/" p) = false) as Htabs'
    by (destruct t; [congruence|exact Htabs]).
  assert (forall q, startswith_sep (stem +:+ String "/" q) = true) as Hsep.
  { intros q. destruct stem; [reflexivity|exact Habs]. }
  assert (forall q, is_empty (stem +:+ String "/" q) = false) as Hemp
    by (intros q; now destruct stem).
  unfold normpath. rewrite E2, !Hemp, !Hsep.
  rewrite (startswith_slashes "//" stem p),
    (startswith_slashes "///" stem p),
    (startswith_slashes "//" stem (t +:+ String "/" p)),
    (startswith_slashes "///" stem (t +:+ String "/" p))
    by (reflexivity || assumption).
  set (two := startswith "//" (stem +:+ "/")
              && negb (startswith "///" (stem +:+ "/"))).
  set (slashes := if two then 2%nat else 1%nat).
  assert (negb (slashes =? 0)%nat = true) as -> by (unfold slashes; now destruct two).
  rewrite <- E2, !split_sep_app, !(split_sep_no_sep _ Hpsep),
    (split_sep_no_sep _ Htsep).
  rewrite !normpath_comps_snoc by assumption.
  set (N := normpath_comps true (split_sep stem) []).
  destruct (join_sep_snoc N) as (J & HJ & HJ').
  rewrite HJ, HJ'.
  exists ((if two then "//" else "/") +:+ J).
  unfold slashes. destruct two; cbn [is_empty append];
    rewrite ?append_assoc; split; reflexivity.
Qed.

Lemma join_onto d x :
  d <> "" -> startswith_sep x = false -> join d x = join d "" +:+ x.
Proof.
  intros Hd Hx. unfold join. rewrite Hx, (is_empty_false _ Hd). cbn [orb startswith_sep].
  destruct (endswith_sep d).
  - now rewrite append_empty_r.
  - now rewrite append_empty_r, append_assoc.
Qed.

Lemma endswith_sep_join_empty d : d <> "" -> endswith_sep (join d "") = true.
Proof.
  intros Hd. unfold join. rewrite (is_empty_false _ Hd). cbn [orb startswith_sep].
  destruct (endswith_sep d) eqn:E.
  - now rewrite append_empty_r.
  - rewrite append_empty_r. now rewrite endswith_sep_app.
Qed.

Lemma startswith_sep_plain_app t x : plain_name t = true -> startswith_sep (t +:+ x) = false.
Proof.
  intros Ht. pose proof (plain_name_not_abs _ Ht) as H.
  destruct t; [discriminate|exact H].
Qed.

Lemma endswith_sep_plain_app x t : plain_name t = true -> endswith_sep (x +:+ t) = false.
Proof.
  intros (Hne & Hsep & _)%plain_name_inv.
  rewrite endswith_sep_app by exact Hne. now apply endswith_sep_no_sep.
Qed.

Lemma append_nonempty_r x t : t <> "" -> x +:+ t <> "".
Proof. intros Ht. destruct x; [now rewrite append_empty_l|discriminate]. Qed.

Section destination_in_source.

Variable fs : FS.

(** The paths [os.path.abspath] normalizes, for a row of plain names. *)
Lemma absolute_join dir t p :
  plain_name t = true -> plain_name p = true ->
  exists base,
    startswith_sep base = true /\ endswith_sep base = true
    /\ (if isabs (join dir p) then join dir p
        else join (getcwd fs) (join dir p))
       = base +:+ p
    /\ (if isabs (join (join dir t) p) then join (join dir t) p
        else join (getcwd fs) (join (join dir t) p))
       = base +:+ t +:+ String "/" p.
Proof.
  intros Ht Hp.
  pose proof (plain_name_not_abs _ Ht) as Htabs.
  pose proof (plain_name_not_abs _ Hp) as Hpabs.
  pose proof (plain_name_inv _ Ht) as (Htne & _).
  assert (getcwd fs <> "") as Hg by discriminate.
  assert (startswith_sep (join (getcwd fs) "") = true) as Hgabs
    by now rewrite (isabs_join_empty _ Hg : startswith_sep _ = _).
  pose proof (endswith_sep_join_empty _ Hg) as Hgend.
  assert (forall x, x <> "" -> join (x +:+ t) p = x +:+ t +:+ String "/" p)
    as Hjoin.
  { intros x Hx. unfold join.
    rewrite Hpabs, (is_empty_false (x +:+ t)) by now apply append_nonempty_r.
    rewrite (endswith_sep_plain_app _ _ Ht). cbn [orb]. apply append_assoc. }
  unfold isabs. destruct dir as [|c dir].
  - (* relative to the working directory *)
    rewrite !join_empty_l.
    assert (join t p = t +:+ String "/" p) as ->.
    { unfold join. rewrite Hpabs, (is_empty_false _ Htne).
      now rewrite (endswith_sep_no_sep t) by now apply plain_name_inv in Ht. }
    rewrite Hpabs, (startswith_sep_plain_app _ _ Ht).
    exists (join (getcwd fs) ""). repeat split; try assumption.
    + now apply join_onto.
    + apply join_onto; [exact Hg|now apply startswith_sep_plain_app].
  - set (d := String c dir). assert (d <> "") as Hd by discriminate.
    pose proof (endswith_sep_join_empty _ Hd) as Hdend.
    assert (join d "" <> "") as HJ by now apply join_nonempty.
    rewrite (join_onto d p Hd Hpabs), (join_onto d t Hd Htabs), (Hjoin _ HJ).
    rewrite !(startswith_sep_app (join d "")) by exact HJ.
    rewrite (isabs_join_empty _ Hd : startswith_sep _ = _). unfold isabs.
    destruct (startswith_sep d) eqn:Eabs.
    + exists (join d ""). repeat split; try assumption; try reflexivity.
      now rewrite (isabs_join_empty _ Hd : startswith_sep _ = _).
    + assert (startswith_sep (join d "") = false) as Hrel
        by now rewrite (isabs_join_empty _ Hd : startswith_sep _ = _).
      exists (join (getcwd fs) "" +:+ join d ""). repeat split.
      * rewrite startswith_sep_app; [exact Hgabs|].
        now apply join_nonempty.
      * now rewrite endswith_sep_app.
      * rewrite join_onto, append_assoc; [reflexivity|exact Hg|].
        now rewrite startswith_sep_app.
      * rewrite join_onto, append_assoc; [reflexivity|exact Hg|].
        now rewrite startswith_sep_app.
Qed.

(** [shutil._destinsrc] for the source and the destination of a row: the
    destination is inside the source only when team and photo are the same
    name. *)
Lemma destinsrc_join dir t p :
  plain_name t = true -> plain_name p = true ->
  _destinsrc fs (join dir p) (join (join dir t) p) = bool_decide (p = t).
Proof.
  intros Ht Hp.
  destruct (absolute_join dir t p Ht Hp) as (base & Habs & Hend & E1 & E2).
  destruct (endswith_sep_inv _ Hend) as (stem & ->).
  destruct (normpath_stem stem t p Habs Ht Hp) as (pre & N1 & N2).
  unfold _destinsrc, abspath. rewrite E1, E2.
  replace ((stem +:+ "/") +:+ p) with (stem +:+ String "/" p)
    by now rewrite append_assoc.
  replace ((stem +:+ "/") +:+ t +:+ String "/" p)
    with ((stem +:+ String "/" t) +:+ String "/" p)
    by now rewrite !append_assoc.
  rewrite N1, N2.
  rewrite (endswith_sep_plain_app pre p Hp).
  replace (pre +:+ t +:+ String "/" p) with ((pre +:+ t +:+ "/") +:+ p)
    by now rewrite !append_assoc.
  rewrite (endswith_sep_plain_app _ p Hp).
  rewrite !append_assoc. rewrite startswith_app.
  apply startswith_name; now apply plain_name_inv.
Qed.

End destination_in_source.

(** ** A move that raises leaves the tree *)

Lemma raises_in_bind {A B} (m : Py A) (k : A -> Py B) fs0 fs :
  raises_in fs0 (m fs) -> raises_in fs0 (bind m k fs).
Proof. intros (e & H). exists e. now apply bind_raises. Qed.

Lemma raises_in_raises {A} fs0 (r : outcome A * FS) : raises_in fs0 r -> raises r.
Proof. intros (e & ->). now exists e, fs0. Qed.

Section move_src_at.

Variables (fs : FS) (dir : string) (D : list string) (t p : string) (e : entry).
Hypothesis Hat : image_directory_at fs dir D.
Hypothesis Ht : plain_name t = true.
Hypothesis Hp : plain_name p = true.
Hypothesis Htp : t <> p.
Hypothesis Hsrc : tree fs !! (D ++ [p]) = Some e.

Local Abbreviation src := (join dir p).
Local Abbreviation td := (join dir t).
Local Abbreviation dst := (join (join dir t) p).

Lemma stat_src_at : stat fs src = inr (D ++ [p]).
Proof using Hat Hp Hsrc. now rewrite (stat_join_at _ _ _ _ Hat Hp), Hsrc. Qed.

Lemma isdir_src_at : isdir fs src = is_dir_at (tree fs) (D ++ [p]).
Proof using Hat Hp Hsrc. unfold isdir. now rewrite stat_src_at. Qed.

Lemma trailing_dst_at : has_trailing_sep dst = false.
Proof using Ht Hp.
  apply endswith_sep_join; [now apply join_plain_nonempty|exact Hp].
Qed.

End move_src_at.

Section move_at.

Variables (fs : FS) (dir : string) (D : list string) (t p : string) (e : entry).
Hypothesis Hat : image_directory_at fs dir D.
Hypothesis Ht : plain_name t = true.
Hypothesis Hp : plain_name p = true.
Hypothesis Htp : t <> p.
Hypothesis Hsrc : tree fs !! (D ++ [p]) = Some e.

Local Abbreviation src := (join dir p).
Local Abbreviation td := (join dir t).
Local Abbreviation dst := (join (join dir t) p).

Lemma rename_under_file c :
  tree fs !! (D ++ [t]) = Some (File c) ->
  stat fs dst = inl ENOTDIR
  /\ parent_and_name fs dst = inl ENOTDIR
  /\ rename src dst fs = (Raises (OSError ENOTDIR), fs).
Proof using Hat Ht Hp Hsrc.
  intros Hfile.
  assert (stat fs td = inr (D ++ [t])) as Hstat_td
    by (now rewrite (stat_join_at _ _ _ _ Hat Ht), Hfile).
  assert (parent_and_name fs dst = inl ENOTDIR) as Hpar_dst
    by (now rewrite (parent_and_name_join _ _ _ _ Hstat_td Hp), Hfile).
  split; [|split; [exact Hpar_dst|]].
  - rewrite stat_join_plain, Hstat_td, lookup_step_plain, Hfile;
      [reflexivity|exact Hp| |exact Hp]. now apply join_plain_nonempty.
  - unfold rename, syscall, rename_sys.
    now rewrite (parent_and_name_join_at _ _ _ _ Hat Hp), Hpar_dst.
Qed.

(** The team directory is a regular file: the move raises
    [NotADirectoryError] and leaves the tree. *)
Lemma move_under_file_at c :
  tree fs !! (D ++ [t]) = Some (File c) ->
  move src dst fs = (Raises (OSError ENOTDIR), fs).
Proof using Hat Ht Hp Htp Hsrc.
  intros Hfile.
  destruct (rename_under_file c Hfile) as (Hstat_dst & Hpar_dst & Hren).
  assert (isdir fs dst = false) as Hisdir by (unfold isdir; now rewrite Hstat_dst).
  assert (_samefile fs src dst = false) as Hsame.
  { unfold _samefile, samefile. now rewrite (stat_src_at _ _ _ _ _ Hat Hp Hsrc), Hstat_dst. }
  unfold move. rewrite bind_inspect, Hisdir.
  unfold rename_or_copy, except_OSError. rewrite Hren. cbn [is_OSError].
  rewrite bind_inspect, (isdir_src_at _ _ _ _ _ Hat Hp Hsrc).
  unfold is_dir_at. rewrite Hsrc. destruct e as [c'|].
  - (* a regular file: copy2 *)
    apply bind_raises. unfold copy2.
    rewrite bind_inspect, Hisdir, bind_inspect, Hsame.
    rewrite bind_inspect, (stat_src_at _ _ _ _ _ Hat Hp Hsrc), Hsrc.
    unfold syscall, write_sys. now rewrite Hpar_dst.
  - (* a directory *)
    rewrite bind_inspect, (destinsrc_join _ _ _ _ Ht Hp).
    rewrite bool_decide_false by congruence.
    apply bind_raises. unfold copytree.
    rewrite bind_inspect, (isdir_src_at _ _ _ _ _ Hat Hp Hsrc).
    unfold is_dir_at. rewrite Hsrc. cbn [negb].
    apply bind_raises.
    apply (makedirs_under_file_at _ _ _ _ _ _ Hat Ht Hp Hfile).
Qed.

(** The destination is a directory: the entry goes inside it, unless its
    name is taken there. *)
Lemma move_into_dir_at :
  tree fs !! (D ++ [t]) = Some Dir ->
  tree fs !! (D ++ [t; p]) = Some Dir ->
  move src dst fs =
  match tree fs !! (D ++ [t; p; p]) with
  | None =>
      (Returns tt,
       with_tree fs (move_subtree (D ++ [p]) (D ++ [t; p; p]) (tree fs)))
  | Some _ => (Raises (ShutilError (DestinationExists (join dst p))), fs)
  end.
Proof using Hat Ht Hp Htp Hsrc.
  intros Hteam Hsub.
  assert (D ++ [t; p] = (D ++ [t]) ++ [p]) as E2 by now rewrite <- app_assoc.
  assert (D ++ [t; p; p] = ((D ++ [t]) ++ [p]) ++ [p]) as E3
    by now rewrite <- !app_assoc.
  rewrite E3. rewrite E2 in Hsub.
  assert (leads_to_dir fs td (D ++ [t])) as Htd
    by (apply leads_to_dir_join_at; [assumption..|now apply is_dir_at_lookup]).
  assert (leads_to_dir fs dst ((D ++ [t]) ++ [p])) as Hdst
    by (apply leads_to_dir_join; [assumption..|now apply is_dir_at_lookup]).
  assert (isdir fs dst = true) as Hisdir.
  { unfold isdir. rewrite (proj1 Hdst). now apply is_dir_at_lookup. }
  assert (_samefile fs src dst = false) as Hsame.
  { unfold _samefile, samefile.
    rewrite (stat_src_at _ _ _ _ _ Hat Hp Hsrc), (proj1 Hdst).
    apply bool_decide_eq_false. rewrite <- app_assoc. apply snoc_ne_snoc2. }
  unfold move. rewrite bind_inspect, Hisdir, bind_inspect, Hsame.
  rewrite (basename_join_plain _ _ Hp).
  rewrite bind_inspect, (path_exists_join_dir _ _ _ _ Hdst Hp).
  destruct (tree fs !! (((D ++ [t]) ++ [p]) ++ [p])) as [e'|] eqn:Enew.
  - rewrite bool_decide_true by eauto. reflexivity.
  - rewrite bool_decide_false by (intros [? ?]; congruence).
    unfold rename_or_copy. apply except_OSError_returns.
    unfold rename, syscall.
    rewrite (rename_sys_plain fs src (join dst p) D ((D ++ [t]) ++ [p]) p e).
    + rewrite Enew. cbv zeta. destruct e; reflexivity.
    + apply (parent_and_name_join_at _ _ _ _ Hat Hp).
    + rewrite (parent_and_name_join _ _ _ _ (proj1 Hdst) Hp). now rewrite Hsub.
    + now apply is_dots_plain.
    + exact Hsrc.
    + now apply endswith_sep_join_plain.
    + apply endswith_sep_join; [|exact Hp].
      apply join_nonempty. now apply join_plain_nonempty.
    + apply (apart_src_dst_in D t p Htp).
Qed.

(** The destination is no directory: the entry takes its place, unless a
    directory would replace a regular file, which raises
    [FileExistsError]. *)
Lemma move_to_free_at :
  tree fs !! (D ++ [t]) = Some Dir ->
  is_dir_at (tree fs) (D ++ [t; p]) = false ->
  match tree fs !! (D ++ [t; p]), e with
  | None, _ | Some (File _), File _ =>
      move src dst fs =
      (Returns tt, with_tree fs (move_subtree (D ++ [p]) (D ++ [t; p]) (tree fs)))
  | _, _ => move src dst fs = (Raises (OSError EEXIST), fs)
  end.
Proof using Hat Ht Hp Htp Hsrc.
  intros Hteam Hsub.
  assert (D ++ [t; p] = (D ++ [t]) ++ [p]) as E2 by now rewrite <- app_assoc.
  rewrite E2 in *.
  assert (leads_to_dir fs td (D ++ [t])) as Htd
    by (apply leads_to_dir_join_at; [assumption..|now apply is_dir_at_lookup]).
  assert (isdir fs dst = false) as Hisdir.
  { unfold isdir. rewrite (stat_join_dir _ _ _ _ Htd Hp).
    destruct (tree fs !! ((D ++ [t]) ++ [p])); [exact Hsub|reflexivity]. }
  assert (rename_sys src dst fs =
          match e, tree fs !! ((D ++ [t]) ++ [p]) with
          | Dir, Some (File _) => inl ENOTDIR
          | _, _ => inr (with_tree fs
                           (move_subtree (D ++ [p]) ((D ++ [t]) ++ [p]) (tree fs)))
          end) as Hren.
  { rewrite (rename_sys_plain fs src dst D (D ++ [t]) p e).
    - cbv zeta. unfold is_dir_at in Hsub.
      destruct e, (tree fs !! ((D ++ [t]) ++ [p])) as [[?|]|];
        try reflexivity; discriminate.
    - apply (parent_and_name_join_at _ _ _ _ Hat Hp).
    - rewrite (parent_and_name_join _ _ _ _ (proj1 Htd) Hp). now rewrite Hteam.
    - now apply is_dots_plain.
    - exact Hsrc.
    - now apply endswith_sep_join_plain.
    - now apply trailing_dst_at.
    - apply (apart_src_dst D t p Htp). }
  unfold move. rewrite bind_inspect, Hisdir. unfold rename_or_copy.
  destruct (tree fs !! ((D ++ [t]) ++ [p])) as [[c'|]|] eqn:Edst.
  - destruct e as [c|].
    + apply except_OSError_returns. unfold rename, syscall. now rewrite Hren.
    + unfold except_OSError, rename, syscall. rewrite Hren. cbn [is_OSError].
      rewrite bind_inspect, (isdir_src_at _ _ _ _ _ Hat Hp Hsrc).
      unfold is_dir_at at 1. rewrite Hsrc.
      rewrite bind_inspect, (destinsrc_join _ _ _ _ Ht Hp).
      rewrite bool_decide_false by congruence.
      apply bind_raises. unfold copytree.
      rewrite bind_inspect, (isdir_src_at _ _ _ _ _ Hat Hp Hsrc).
      unfold is_dir_at at 1. rewrite Hsrc. cbn [negb].
      apply bind_raises.
      now rewrite (makedirs_join _ _ _ _ Htd Hp), (mkdir_join _ _ _ _ Htd Hp), Edst.
  - unfold is_dir_at in Hsub. rewrite Edst in Hsub. discriminate.
  - apply except_OSError_returns. unfold rename, syscall. rewrite Hren.
    destruct e; reflexivity.
Qed.

(** The move of an existing entry follows [move_plan], and leaves the tree
    when it raises. *)
Lemma move_join_at :
  is_Some (tree fs !! (D ++ [t])) ->
  match move_plan D t p (tree fs) with
  | Some (Some new) =>
      move src dst fs =
      (Returns tt, with_tree fs (move_subtree (D ++ [p]) new (tree fs)))
  | Some None => False
  | None => raises_in fs (move src dst fs)
  end.
Proof using Hat Ht Hp Htp Hsrc.
  intros [et Het]. unfold move_plan. rewrite Hsrc.
  unfold is_dir_at at 1. rewrite Het. destruct et as [c|].
  - eexists. exact (move_under_file_at c Het).
  - destruct (is_dir_at (tree fs) (D ++ [t; p])) eqn:Esub.
    + apply is_dir_at_lookup in Esub. rewrite (move_into_dir_at Het Esub).
      destruct (tree fs !! (D ++ [t; p; p])); [now eexists|reflexivity].
    + pose proof (move_to_free_at Het Esub) as H.
      destruct (tree fs !! (D ++ [t; p])) as [[c'|]|], e;
        (exact H || (eexists; exact H)).
Qed.

End move_at.

(** ** A row and a run, with the tree they leave when they raise *)

Lemma image_directory_at_mono fs dir D t' :
  (forall k e, tree fs !! k = Some e -> t' !! k = Some e) ->
  image_directory_at fs dir D -> image_directory_at (with_tree fs t') dir D.
Proof.
  intros Hsub [(-> & -> & Hd)|Hdir].
  - left. repeat split. cbn. apply is_dir_at_lookup, Hsub.
    now apply is_dir_at_lookup.
  - right. now apply leads_to_dir_mono.
Qed.

Lemma image_directory_at_agree fs dir D t' :
  no_dotdot dir = true ->
  image_directory_at fs dir D ->
  (forall k, k `prefix_of` D -> t' !! k = tree fs !! k) ->
  image_directory_at (with_tree fs t') dir D.
Proof.
  intros Hdd [(-> & -> & Hd)|Hdir] Hagree.
  - left. repeat split. cbn. apply is_dir_at_lookup.
    rewrite Hagree by reflexivity. now apply is_dir_at_lookup.
  - right. now apply leads_to_dir_agree.
Qed.

Lemma image_directory_at_nonempty fs dir D :
  image_directory_at fs dir D -> dir <> "" -> leads_to_dir fs dir D.
Proof. intros [(-> & _)|H] Hne; [congruence|exact H]. Qed.

(** What the loop body does for a row of plain names: [row_effect]; a row
    that raises has moved nothing. *)
Lemma loop_body_at fs dir D team_col photo_col i row team photo :
  image_directory_at fs dir D ->
  names team_col photo_col row = Some (team, photo) ->
  team_name_ok team = true -> plain_name photo = true -> team <> photo ->
  (dir = "" -> team <> "") ->
  match row_effect D (team, photo) (tree fs) with
  | Some t' =>
      Organize.loop_body dir team_col photo_col (i, row) fs
      = (Returns tt, with_tree fs t')
  | None =>
      raises_in (with_tree fs (ensure_dir_at (D ++ [team]) (tree fs)))
        (Organize.loop_body dir team_col photo_col (i, row) fs)
  end.
Proof.
  intros Hat Hnames Hteam Hp Htp Hne.
  destruct (team_name_ok_inv _ Hteam) as [->|Ht].
  - assert (dir <> "") as Hdir by (intros ->; now apply Hne).
    apply (loop_body_effect fs dir D team_col photo_col i row "" photo);
      [now apply image_directory_at_nonempty|assumption..].
  - rewrite (loop_body_names _ _ _ _ _ _ _ _ Hnames).
    unfold row_effect.
    rewrite is_empty_false by now apply plain_name_inv in Ht.
    erewrite bind_returns by now apply (create_team_directory_join_at _ _ D).
    set (t1 := ensure_dir_at (D ++ [team]) (tree fs)).
    assert (image_directory_at (with_tree fs t1) dir D) as Hat1.
    { apply image_directory_at_mono; [|exact Hat].
      intros k e. apply ensure_dir_at_mono. }
    unfold relocate.
    destruct (t1 !! (D ++ [photo])) as [e|] eqn:Esrc.
    + rewrite move_if_exists_present
        by (rewrite (path_exists_join_at _ _ _ _ Hat1 Hp);
            apply bool_decide_eq_true; eauto).
      pose proof (move_join_at (with_tree fs t1) dir D team photo e
                    Hat1 Ht Hp Htp Esrc) as Hmove.
      cbn [tree with_tree] in Hmove.
      specialize (Hmove (ensure_dir_at_is_Some _ _)).
      fold t1 in Hmove.
      destruct (move_plan D team photo t1) as [[new|]|];
        [exact Hmove|contradiction|exact Hmove].
    + unfold move_plan. rewrite Esrc.
      apply move_if_exists_absent.
      rewrite (path_exists_join_at _ _ _ _ Hat1 Hp).
      apply bool_decide_eq_false. intros [? ?]. cbn in *. congruence.
Qed.

Lemma rows_outcome_effect D rs x :
  rows_outcome D rs x =
  match rows_effect D rs x with
  | Some z => (true, z)
  | None => (false, (rows_outcome D rs x).2)
  end.
Proof.
  revert x. induction rs as [|r rs IH]; intros x; cbn; [reflexivity|].
  destruct (row_effect D r x) as [y|]; [|reflexivity].
  rewrite IH at 1. destruct (rows_effect D rs y); reflexivity.
Qed.

(** The entries a table does not name stay, whatever the rows do. *)
Lemma rows_outcome_frame D rs x k :
  (forall r, r ∈ rs ->
     ¬ D ++ [r.2] `prefix_of` k /\ ¬ D ++ [r.1; r.2] `prefix_of` k) ->
  is_Some (x !! k) \/ (forall r, r ∈ rs -> k <> D ++ [r.1]) ->
  (rows_outcome D rs x).2 !! k = x !! k.
Proof.
  revert x. induction rs as [|r rs IH]; intros x Hrs Hk; cbn; [reflexivity|].
  destruct (Hrs r (list_elem_of_here _ _)) as [H1 H2].
  destruct (row_effect D r x) as [y|] eqn:E.
  - assert (y !! k = x !! k) as Hy.
    { apply (row_effect_frame _ _ _ _ _ E H1 H2).
      destruct Hk as [Hk|Hk]; [now left|right].
      apply Hk, list_elem_of_here. }
    rewrite <- Hy. apply IH.
    + intros r' Hin. apply Hrs. now apply list_elem_of_further.
    + rewrite Hy. destruct Hk as [Hk|Hk]; [now left|right].
      intros r' Hin. apply Hk. now apply list_elem_of_further.
  - cbn. rewrite lookup_ensure_dir_at.
    destruct (decide (D ++ [r.1] = k)) as [<-|]; [|reflexivity].
    destruct Hk as [[e He]|Hk]; [now rewrite He|].
    now destruct (Hk r (list_elem_of_here _ _)).
Qed.

Lemma rows_outcome_above D rs x k :
  k `prefix_of` D -> (rows_outcome D rs x).2 !! k = x !! k.
Proof.
  intros Hk. apply rows_outcome_frame.
  - intros r _. split; now apply prefix_of_dir_not_below.
  - right. intros r _ ->. apply prefix_length in Hk.
    rewrite length_app in Hk. cbn in Hk. lia.
Qed.

(** What the loop does for a table of plain names: [rows_outcome]. *)
Lemma for_each_at dir D team_col photo_col items rs :
  no_dotdot dir = true ->
  Forall2 (fun item r => names team_col photo_col item.2 = Some r) items rs ->
  (forall r, r ∈ rs -> team_name_ok r.1 = true /\ plain_name r.2 = true) ->
  teams_differ_from_photos rs ->
  (dir = "" -> forall r, r ∈ rs -> r.1 <> "") ->
  forall fs, image_directory_at fs dir D ->
  let body := Organize.loop_body dir team_col photo_col in
  match rows_outcome D rs (tree fs) with
  | (true, t') => for_each items body fs = (Returns tt, with_tree fs t')
  | (false, t') => raises_in (with_tree fs t') (for_each items body fs)
  end.
Proof.
  intros Hdd Hnames. induction Hnames as [|[i row] [t p] items rs Hrow _ IH];
    intros Hok Hdiff Hne fs Hat body.
  - cbn. now rewrite with_tree_id.
  - cbn [rows_outcome for_each]. cbn in Hrow.
    destruct (Hok (t, p) (list_elem_of_here _ _)) as [Ht Hp]. cbn in Ht, Hp.
    apply teams_differ_cons in Hdiff as (Htp & _ & Hdiff). cbn in Htp.
    pose proof (loop_body_at fs dir D team_col photo_col i row t p
                  Hat Hrow Ht Hp Htp
                  (fun H => Hne H (t, p) (list_elem_of_here _ _))) as Hbody.
    destruct (row_effect D (t, p) (tree fs)) as [t1|] eqn:E.
    + unfold body. erewrite bind_returns by exact Hbody.
      assert (image_directory_at (with_tree fs t1) dir D) as Hat1.
      { apply image_directory_at_agree; [assumption..|].
        intros k Hk. now apply (row_effect_above _ _ _ _ _ E). }
      specialize (IH (fun r Hin => Hok r (list_elem_of_further _ _ _ Hin))
                    Hdiff
                    (fun H r Hin => Hne H r (list_elem_of_further _ _ _ Hin))
                    _ Hat1).
      cbn [tree with_tree] in IH.
      destruct (rows_outcome D rs t1) as [[] t']; exact IH.
    + now apply raises_in_bind.
Qed.

Section run_at.

Variable read_csv : string -> FS -> outcome DataFrame.

Lemma organize_at csv_path dir D team_col photo_col fs df rs :
  read_csv csv_path fs = Returns df ->
  image_directory_at fs dir D -> no_dotdot dir = true ->
  table_rows team_col photo_col df = Some rs ->
  plain_rows rs = true ->
  (dir = "" -> named_teams rs = true) ->
  let run := Organize.organize_photos_by_team read_csv csv_path dir
               team_col photo_col fs in
  match rows_outcome D rs (tree fs) with
  | (true, t') => run = (Returns tt, with_tree fs t')
  | (false, t') => raises_in (with_tree fs t') run
  end.
Proof.
  intros Hread Hat Hdd Hrows [Hok Hdiff]%plain_rows_inv Hne run. unfold run.
  rewrite (organize_unfold _ _ _ _ _ _ _ Hread).
  apply for_each_at; auto; [now apply iterrows_names|].
  intros Hdir r Hin Hr. specialize (Hne Hdir). unfold named_teams in Hne.
  rewrite forallb_forall in Hne. apply list_elem_of_In, Hne in Hin.
  rewrite Hr in Hin. discriminate.
Qed.

End run_at.

(** ** Single rows at the edges *)

Lemma team_name_ok_plain team : plain_name team = true -> team_name_ok team = true.
Proof. intros H. unfold team_name_ok. rewrite H. apply orb_true_r. Qed.

Lemma leads_to_dir_at fs dir D : leads_to_dir fs dir D -> image_directory_at fs dir D.
Proof. now right. Qed.

(** A row of plain names whose effect is known returns with it. *)
Lemma loop_body_returns fs dir D team_col photo_col i row team photo t' :
  leads_to_dir fs dir D ->
  names team_col photo_col row = Some (team, photo) ->
  plain_name team = true -> plain_name photo = true -> team <> photo ->
  row_effect D (team, photo) (tree fs) = Some t' ->
  Organize.loop_body dir team_col photo_col (i, row) fs
  = (Returns tt, with_tree fs t').
Proof.
  intros Hdir Hnames Ht Hp Htp Heff.
  pose proof (loop_body_effect fs dir D team_col photo_col i row team photo
                Hdir Hnames (team_name_ok_plain _ Ht) Hp Htp) as H.
  now rewrite Heff in H.
Qed.

Lemma row_effect_plain D team photo t :
  plain_name team = true ->
  row_effect D (team, photo) t
  = relocate D team photo (ensure_dir_at (D ++ [team]) t).
Proof.
  intros Ht. cbn. now rewrite is_empty_false by now apply plain_name_inv in Ht.
Qed.

Lemma two_ne_one (D : list string) a b c : D ++ [a; b] <> D ++ [c].
Proof.
  intros H. apply (f_equal length) in H. rewrite !length_app in H. cbn in H. lia.
Qed.

Lemma three_ne_one (D : list string) a b c d : D ++ [a; b; c] <> D ++ [d].
Proof.
  intros H. apply (f_equal length) in H. rewrite !length_app in H. cbn in H. lia.
Qed.

(** X1. A regular file that is already at [dir/team/photo] is replaced
    without an error.  For a row of plain names, the team other than the
    photo, with a regular file at [dir/photo], a directory at [dir/team]
    and a regular file at [dir/team/photo], the row returns; the content
    that was at [dir/photo] is at [dir/team/photo], nothing is at
    [dir/photo], and every location that is not at or below one of the two
    is as before. *)
Theorem file_at_destination_is_replaced image_directory D team_col photo_col
    i row team photo fs c c' :
  leads_to_dir fs image_directory D ->
  names team_col photo_col row = Some (team, photo) ->
  plain_name team = true -> plain_name photo = true -> team <> photo ->
  tree fs !! (D ++ [photo]) = Some (File c) ->
  tree fs !! (D ++ [team]) = Some Dir ->
  tree fs !! (D ++ [team; photo]) = Some (File c') ->
  exists fs',
    Organize.loop_body image_directory team_col photo_col (i, row) fs
    = (Returns tt, fs')
    /\ tree fs' !! (D ++ [team; photo]) = Some (File c)
    /\ tree fs' !! (D ++ [photo]) = None
    /\ (forall k, ¬ D ++ [photo] `prefix_of` k ->
                  ¬ D ++ [team; photo] `prefix_of` k ->
                  tree fs' !! k = tree fs !! k).
Proof.
  intros Hdir Hnames Ht Hp Htp Hsrc Hteam Hdst.
  assert (row_effect D (team, photo) (tree fs)
          = Some (move_subtree (D ++ [photo]) (D ++ [team; photo]) (tree fs)))
    as Heff.
  { rewrite (row_effect_plain _ _ _ _ Ht), ensure_dir_at_id by eauto.
    unfold relocate, move_plan, is_dir_at. now rewrite Hsrc, Hteam, Hdst. }
  eexists. split;
    [exact (loop_body_returns fs image_directory D team_col photo_col i row
              team photo _ Hdir Hnames Ht Hp Htp Heff)|].
  cbn [tree with_tree]. repeat split.
  - pose proof (lookup_move_subtree_new (D ++ [photo]) (D ++ [team; photo])
                  (tree fs) []) as H.
    rewrite !app_nil_r in H. now rewrite H.
  - apply lookup_move_subtree_old; [not_prefix|reflexivity].
  - intros k H1 H2. now apply lookup_move_subtree_other.
Qed.


(** X3. With a directory at [dir/team/photo] and an entry at
    [dir/team/photo/photo], the row raises the [shutil.Error] that names
    [dir/team/photo/photo] as a destination that already exists, and
    leaves the tree as it is. *)
Theorem taken_name_in_directory_at_destination_raises image_directory D
    team_col photo_col i row team photo fs e e' :
  leads_to_dir fs image_directory D ->
  names team_col photo_col row = Some (team, photo) ->
  plain_name team = true -> plain_name photo = true -> team <> photo ->
  tree fs !! (D ++ [photo]) = Some e ->
  tree fs !! (D ++ [team]) = Some Dir ->
  tree fs !! (D ++ [team; photo]) = Some Dir ->
  tree fs !! (D ++ [team; photo; photo]) = Some e' ->
  Organize.loop_body image_directory team_col photo_col (i, row) fs
  = (Raises (ShutilError
               (DestinationExists
                  (join (join (join image_directory team) photo) photo))),
     fs).
Proof.
  intros Hdir Hnames Ht Hp Htp Hsrc Hteam Hdst Htaken.
  rewrite (loop_body_names _ _ _ _ _ _ _ _ Hnames).
  erewrite bind_returns by now apply (create_team_directory_join _ _ D).
  rewrite ensure_dir_at_id, with_tree_id by eauto.
  rewrite move_if_exists_present
    by (rewrite (path_exists_join_dir _ _ _ _ Hdir Hp);
        apply bool_decide_eq_true; eauto).
  rewrite (move_into_dir_at fs image_directory D team photo e
             (leads_to_dir_at _ _ _ Hdir) Ht Hp Htp Hsrc Hteam Hdst).
  now rewrite Htaken.
Qed.


(** X5. A directory at [dir/photo] does not replace a regular file at
    [dir/team/photo]: the row raises [FileExistsError] and leaves the tree
    as it is. *)
Theorem directory_does_not_replace_file image_directory D team_col photo_col
    i row team photo fs c :
  leads_to_dir fs image_directory D ->
  names team_col photo_col row = Some (team, photo) ->
  plain_name team = true -> plain_name photo = true -> team <> photo ->
  tree fs !! (D ++ [photo]) = Some Dir ->
  tree fs !! (D ++ [team]) = Some Dir ->
  tree fs !! (D ++ [team; photo]) = Some (File c) ->
  Organize.loop_body image_directory team_col photo_col (i, row) fs
  = (Raises (OSError EEXIST), fs).
Proof.
  intros Hdir Hnames Ht Hp Htp Hsrc Hteam Hdst.
  rewrite (loop_body_names _ _ _ _ _ _ _ _ Hnames).
  erewrite bind_returns by now apply (create_team_directory_join _ _ D).
  rewrite ensure_dir_at_id, with_tree_id by eauto.
  rewrite move_if_exists_present
    by (rewrite (path_exists_join_dir _ _ _ _ Hdir Hp);
        apply bool_decide_eq_true; eauto).
  pose proof (move_to_free_at fs image_directory D team photo Dir
                (leads_to_dir_at _ _ _ Hdir) Ht Hp Htp Hsrc Hteam) as H.
  unfold is_dir_at in H. rewrite Hdst in H. now apply H.
Qed.



(** X8. With the empty string as image directory, a row whose team value
    is empty after trimming raises [FileNotFoundError], from [os.makedirs]
    on the empty path, and leaves the tree as it is, whatever the photo
    value and the tree. *)
Theorem blank_team_without_directory_raises team_col photo_col i row photo fs :
  names team_col photo_col row = Some ("", photo) ->
  Organize.loop_body "" team_col photo_col (i, row) fs
  = (Raises (OSError ENOENT), fs).
Proof.
  intros Hnames. rewrite (loop_body_names _ _ _ _ _ _ _ _ Hnames).
  apply bind_raises. reflexivity.
Qed.

(** A row with one name for team and photo raises, whatever is in the
    tree, and moves nothing. *)
Lemma loop_body_same_name image_directory D team_col
    photo_col i row name fs :
  leads_to_dir fs image_directory D ->
  names team_col photo_col row = Some (name, name) ->
  plain_name name = true ->
  exists e,
    Organize.loop_body image_directory team_col photo_col (i, row) fs
    = (Raises e,
       with_tree fs (match tree fs !! (D ++ [name]) with
                     | None => <[D ++ [name] := Dir]> (tree fs)
                     | Some _ => tree fs
                     end))
    /\ (tree fs !! (D ++ [name]) = None ->
        tree fs !! (D ++ [name; name]) = None ->
        e = ShutilError
              (MoveIntoItself (join image_directory name)
                 (join (join image_directory name) name))).
Proof.
  intros Hdir Hnames Hn.
  rewrite (loop_body_names _ _ _ _ _ _ _ _ Hnames).
  erewrite bind_returns by now apply (create_team_directory_join _ _ D).
  change (match tree fs !! (D ++ [name]) with
          | Some _ => tree fs
          | None => <[D ++ [name]:=Dir]> (tree fs)
          end) with (ensure_dir_at (D ++ [name]) (tree fs)).
  set (t1 := ensure_dir_at (D ++ [name]) (tree fs)).
  set (fs1 := with_tree fs t1).
  assert (leads_to_dir fs1 image_directory D) as Hdir1.
  { apply leads_to_dir_mono; [|exact Hdir]. intros k e. apply ensure_dir_at_mono. }
  destruct (ensure_dir_at_is_Some (D ++ [name]) (tree fs)) as [e0 He0].
  fold t1 in He0.
  assert (tree fs1 !! (D ++ [name]) = Some e0) as He0' by exact He0.
  rewrite move_if_exists_present
    by (rewrite (path_exists_join_dir _ _ _ _ Hdir1 Hn);
        apply bool_decide_eq_true; eauto).
  set (src := join image_directory name). set (dst := join src name).
  pose proof (dir_nonempty _ _ _ Hdir1) as Hne.
  assert (stat fs1 src = inr (D ++ [name])) as Hstat_src
    by (unfold src; now rewrite (stat_join_dir _ _ _ _ Hdir1 Hn), He0').
  assert (parent_and_name fs1 src = inr (D, Some name)) as Hpar_src
    by apply (parent_src _ _ _ _ Hdir1 Hn).
  assert (isdir fs1 src = match e0 with Dir => true | File _ => false end)
    as Hisdir_src
    by (unfold isdir, is_dir_at; now rewrite Hstat_src, He0').
  destruct e0 as [c|].
  - (* a regular file has the name *)
    assert (tree fs !! (D ++ [name]) = Some (File c)) as Hfile.
    { unfold t1 in He0. rewrite lookup_ensure_dir_at, decide_True in He0
        by reflexivity.
      destruct (tree fs !! (D ++ [name])) as [e|]; cbn in He0; congruence. }
    exists (OSError ENOTDIR). split; [|congruence].
    assert (t1 = tree fs) as Et1 by (unfold t1; apply ensure_dir_at_id; eauto).
    assert (fs1 = fs) as -> by (unfold fs1; rewrite Et1; apply with_tree_id).
    destruct (rename_under_file fs image_directory D name name (File c)
                (leads_to_dir_at _ _ _ Hdir) Hn Hn Hfile c Hfile)
      as (Hstat_dst & Hpar_dst & Hren).
    fold src dst in Hstat_dst, Hpar_dst, Hren.
    assert (isdir fs dst = false) as Hisdir
      by (unfold isdir; now rewrite Hstat_dst).
    unfold move. rewrite bind_inspect, Hisdir.
    unfold rename_or_copy, except_OSError. rewrite Hren. cbn [is_OSError].
    rewrite bind_inspect, Hisdir_src.
    apply bind_raises. unfold copy2.
    rewrite bind_inspect, Hisdir, bind_inspect.
    unfold _samefile, samefile. rewrite Hstat_src, Hstat_dst.
    rewrite bind_inspect, Hstat_src, Hfile.
    unfold syscall, write_sys. now rewrite Hpar_dst.
  - (* the name is a directory, there before or just made *)
    assert (leads_to_dir fs1 src (D ++ [name])) as Hsrc_dir
      by (apply leads_to_dir_join; [assumption..|now apply is_dir_at_lookup]).
    assert (forall real_dst P q,
              parent_and_name fs1 real_dst = inr (D ++ name :: P, Some q) ->
              is_dots q = false ->
              rename_or_copy src dst real_dst fs1
              = (Raises (ShutilError (MoveIntoItself src dst)), fs1)) as Hinto.
    { intros real_dst P q Hpar Hq. unfold rename_or_copy, except_OSError.
      assert (rename src real_dst fs1 = (Raises (OSError EINVAL), fs1)) as ->.
      { unfold rename, syscall, rename_sys.
        rewrite Hpar_src, Hpar, (is_dots_plain _ Hn), Hq. cbn [orb].
        rewrite He0'.
        rewrite bool_decide_false.
        2:{ intros H. apply (f_equal length) in H.
            rewrite !length_app in H. cbn in H. lia. }
        rewrite (proj2 (is_prefix_true _ _)); [reflexivity|].
        exists (P ++ [q]). now rewrite <- !app_assoc. }
      cbn [is_OSError]. rewrite bind_inspect, Hisdir_src.
      rewrite bind_inspect. unfold dst, src.
      rewrite (destinsrc_join _ _ _ _ Hn Hn).
      now rewrite bool_decide_true. }
    assert (stat fs1 dst = match tree fs1 !! (D ++ [name; name]) with
                           | Some _ => inr (D ++ [name; name])
                           | None => inl ENOENT
                           end) as Hstat_dst
      by (unfold dst; now rewrite (stat_join_dir _ _ _ _ Hsrc_dir Hn),
            <- app_assoc).
    assert (parent_and_name fs1 dst = inr (D ++ [name], Some name)) as Hpar_dst.
    { unfold dst. rewrite (parent_and_name_join _ _ _ _ (proj1 Hsrc_dir) Hn).
      now rewrite He0'. }
    unfold move. rewrite bind_inspect.
    destruct (isdir fs1 dst) eqn:Edst.
    + (* [dir/name/name] is a directory *)
      unfold isdir in Edst. rewrite Hstat_dst in Edst.
      destruct (tree fs1 !! (D ++ [name; name])) as [e1|] eqn:E1;
        [|discriminate].
      apply is_dir_at_lookup in Edst.
      assert (leads_to_dir fs1 dst (D ++ [name; name])) as Hdst_dir
        by (split; [exact Hstat_dst|now apply is_dir_at_lookup]).
      rewrite bind_inspect. unfold _samefile, samefile.
      rewrite Hstat_src, Hstat_dst.
      rewrite bool_decide_false by apply snoc_ne_snoc2.
      replace (_basename src) with name
        by (unfold src; now rewrite (basename_join _ _ Hne Hn)).
      rewrite bind_inspect.
      destruct (path_exists fs1 (join dst name)) eqn:Etaken.
      * eexists. split; [reflexivity|].
        intros H1 H2. exfalso. cbn [tree fs1 with_tree] in E1. unfold t1 in E1.
        rewrite lookup_ensure_dir_at_ne in E1 by apply snoc_ne_snoc2.
        congruence.
      * eexists. split.
        -- apply (Hinto _ [name] name); [|now apply is_dots_plain].
           now rewrite (parent_and_name_join _ _ _ _ (proj1 Hdst_dir) Hn), Edst.
        -- reflexivity.
    + eexists. split; [|reflexivity].
      apply (Hinto _ [] name); [exact Hpar_dst|now apply is_dots_plain].
Qed.

(** X10. A row of plain names that raises has moved nothing.  For a row
    whose trimmed photo is a plain name and whose trimmed team is a plain
    name or empty, in an image directory that is an existing directory:
    when the row raises, every location of the tree other than [dir/team]
    holds what it held before the row, [dir/team] holds what it held or,
    when nothing was there, a new directory, and the working directory is
    the same. *)
Theorem failed_row_moves_nothing image_directory D team_col photo_col i row
    team photo fs e fs' :
  leads_to_dir fs image_directory D ->
  names team_col photo_col row = Some (team, photo) ->
  team_name_ok team = true -> plain_name photo = true ->
  Organize.loop_body image_directory team_col photo_col (i, row) fs
  = (Raises e, fs') ->
  cwd fs' = cwd fs
  /\ (forall k, k <> D ++ [team] -> tree fs' !! k = tree fs !! k)
  /\ (tree fs' !! (D ++ [team]) = tree fs !! (D ++ [team])
      \/ (tree fs !! (D ++ [team]) = None
          /\ tree fs' !! (D ++ [team]) = Some Dir)).
Proof.
  intros Hdir Hnames Ht Hp Hrun.
  assert (fs' = with_tree fs (ensure_dir_at (D ++ [team]) (tree fs))) as ->.
  { destruct (decide (team = photo)) as [->|Htp].
    - destruct (loop_body_same_name image_directory D team_col photo_col i
                  row photo fs Hdir Hnames Hp) as (e' & H & _).
      rewrite H in Hrun. now injection Hrun as _ <-.
    - pose proof (loop_body_at fs image_directory D team_col photo_col i row
                    team photo (leads_to_dir_at _ _ _ Hdir) Hnames Ht Hp Htp)
        as H.
      destruct (row_effect D (team, photo) (tree fs)) as [t'|].
      + rewrite H in Hrun; [discriminate|].
        intros ->. now destruct (stat_nonempty _ _ _ (proj1 Hdir)).
      + destruct H as (e' & H).
        { intros ->. now destruct (stat_nonempty _ _ _ (proj1 Hdir)). }
        rewrite H in Hrun. now injection Hrun as _ <-. }
  cbn [tree cwd with_tree]. split; [reflexivity|]. split.
  - intros k Hk. now apply lookup_ensure_dir_at_ne.
  - rewrite lookup_ensure_dir_at, decide_True by reflexivity.
    destruct (tree fs !! (D ++ [team])); [now left|now right].
Qed.

(** X9. A row with one plain name as team and as photo, in an image
    directory that is an existing directory, always raises and moves
    nothing, whatever is in the directory: every location of the tree other
    than [dir/name] holds what it held before, and [dir/name] holds what it
    held or, when nothing was there, a new directory.  When nothing was at
    [dir/name] and at [dir/name/name], the name has at most 255 bytes and
    no null byte and the path [dir/name/name] is shorter than 4096 bytes,
    the directory [dir/name] is made and the exception is the
    [shutil.Error] for moving the directory [dir/name] into itself,
    [dir/name/name]. *)
Theorem same_name_for_team_and_photo_raises image_directory D team_col
    photo_col i row name fs :
  leads_to_dir fs image_directory D ->
  names team_col photo_col row = Some (name, name) ->
  plain_name name = true ->
  exists e fs',
    Organize.loop_body image_directory team_col photo_col (i, row) fs
    = (Raises e, fs')
    /\ cwd fs' = cwd fs
    /\ (forall k, k <> D ++ [name] -> tree fs' !! k = tree fs !! k)
    /\ (tree fs' !! (D ++ [name]) = tree fs !! (D ++ [name])
        \/ (tree fs !! (D ++ [name]) = None
            /\ tree fs' !! (D ++ [name]) = Some Dir))
    /\ (tree fs !! (D ++ [name]) = None ->
        tree fs !! (D ++ [name; name]) = None ->
        name_fits name = true ->
        path_fits (join (join image_directory name) name) = true ->
        tree fs' !! (D ++ [name]) = Some Dir
        /\ e = ShutilError
                (MoveIntoItself (join image_directory name)
                   (join (join image_directory name) name))).
Proof.
  intros Hdir Hnames Hn.
  destruct (loop_body_same_name image_directory D team_col photo_col i row
              name fs Hdir Hnames Hn) as (e & Hrun & He).
  exists e. eexists. split; [exact Hrun|].
  change (match tree fs !! (D ++ [name]) with
          | Some _ => tree fs
          | None => <[D ++ [name]:=Dir]> (tree fs)
          end) with (ensure_dir_at (D ++ [name]) (tree fs)).
  cbn [tree cwd with_tree]. split; [reflexivity|]. split; [|split].
  - intros k Hk. now apply lookup_ensure_dir_at_ne.
  - rewrite lookup_ensure_dir_at, decide_True by reflexivity.
    destruct (tree fs !! (D ++ [name])); [now left|now right].
  - intros H1 H2 _ _. split; [|now apply He].
    rewrite lookup_ensure_dir_at, decide_True by reflexivity. now rewrite H1.
Qed.

(** ** Photo values that are absolute paths *)

Lemma join_absolute a b : isabs b = true -> join a b = b.
Proof. unfold isabs, join. now intros ->. Qed.

(** Moving an entry onto itself changes nothing. *)
Lemma move_onto_itself fs dir P name e :
  leads_to_dir fs dir P -> plain_name name = true ->
  tree fs !! (P ++ [name]) = Some e ->
  move (join dir name) (join dir name) fs = (Returns tt, fs).
Proof.
  intros Hdir Hp Hsrc.
  pose proof (dir_nonempty _ _ _ Hdir) as Hne.
  assert (stat fs (join dir name) = inr (P ++ [name])) as Hstat
    by now rewrite (stat_join_dir _ _ _ _ Hdir Hp), Hsrc.
  assert (rename_sys (join dir name) (join dir name) fs = inr fs) as Hren.
  { unfold rename_sys.
    rewrite (parent_src _ _ _ _ Hdir Hp).
    rewrite (is_dots_plain _ Hp), Hsrc. cbn [orb].
    rewrite !endswith_sep_join by assumption.
    rewrite bool_decide_true by reflexivity. destruct e; reflexivity. }
  unfold move. rewrite bind_inspect. unfold isdir. rewrite Hstat.
  unfold is_dir_at. rewrite Hsrc. destruct e as [c|].
  - unfold rename_or_copy. apply except_OSError_returns.
    unfold rename, syscall. now rewrite Hren.
  - rewrite bind_inspect. unfold _samefile, samefile.
    rewrite Hstat. rewrite bool_decide_true by reflexivity.
    unfold rename, syscall. now rewrite Hren.
Qed.

(** X11. A photo value that is an absolute path, [photo_directory/name]
    with an existing directory and a plain name, moves nothing:
    [os.path.join] drops the image directory and the team directory in
    front of it, so source and destination are that same path.  In an
    image directory that is an existing directory, for a team that is a
    plain name of at most 255 bytes with no null byte and a path [dir/team]
    shorter than 4096 bytes, the row returns, and the tree is the tree
    before with the team directory put in place. *)
Theorem absolute_photo_moves_nothing image_directory D team_col photo_col
    i row team photo_directory P name fs :
  leads_to_dir fs image_directory D ->
  leads_to_dir fs photo_directory P -> isabs photo_directory = true ->
  plain_name name = true -> plain_name team = true ->
  name_fits team = true -> path_fits (join image_directory team) = true ->
  names team_col photo_col row = Some (team, join photo_directory name) ->
  exists fs',
    Organize.loop_body image_directory team_col photo_col (i, row) fs
    = (Returns tt, fs')
    /\ cwd fs' = cwd fs
    /\ (forall k, k <> D ++ [team] -> tree fs' !! k = tree fs !! k)
    /\ tree fs' !! (D ++ [team])
       = Some (default Dir (tree fs !! (D ++ [team]))).
Proof.
  intros Hdir Hpd Habs Hn Ht _ _ Hnames.
  exists (with_tree fs (ensure_dir_at (D ++ [team]) (tree fs))).
  split.
  - rewrite (loop_body_names _ _ _ _ _ _ _ _ Hnames).
    erewrite bind_returns by now apply (create_team_directory_join _ _ D).
    set (fs1 := with_tree fs _).
    assert (isabs (join photo_directory name) = true) as Habs'
      by (rewrite isabs_join_plain;
          [exact Habs|exact (stat_nonempty _ _ _ (proj1 Hpd))|exact Hn]).
    rewrite !(join_absolute _ _ Habs').
    assert (leads_to_dir fs1 photo_directory P) as Hpd1.
    { apply leads_to_dir_mono; [|exact Hpd]. intros k e.
      apply ensure_dir_at_mono. }
    destruct (tree fs1 !! (P ++ [name])) as [e|] eqn:E.
    + rewrite move_if_exists_present
        by (rewrite (path_exists_join_dir _ _ _ _ Hpd1 Hn);
            apply bool_decide_eq_true; eauto).
      now apply (move_onto_itself _ _ P _ e).
    + apply move_if_exists_absent.
      rewrite (path_exists_join_dir _ _ _ _ Hpd1 Hn).
      apply bool_decide_eq_false. intros [? ?]. congruence.
  - cbn [tree cwd with_tree]. split; [reflexivity|]. split.
    + intros k Hk. now apply lookup_ensure_dir_at_ne.
    + now rewrite lookup_ensure_dir_at, decide_True.
Qed.

(** ** No file is made *)




Section invariants.

Variable read_csv : string -> FS -> outcome DataFrame.


(** X18. A slash at the end of the image directory makes no difference:
    for a non-empty directory path with no slash at its end, the call with
    the path followed by "/" gives the same outcome and the same tree as
    the call with the path, for every table and every tree. *)
Theorem trailing_slash_makes_no_difference csv_path image_directory team_col
    photo_col fs :
  is_empty image_directory = false ->
  endswith_sep image_directory = false ->
  Organize.organize_photos_by_team read_csv csv_path (image_directory +:+ "/")
    team_col photo_col fs
  = Organize.organize_photos_by_team read_csv csv_path image_directory
      team_col photo_col fs.
Proof.
  intros Hne Hend.
  assert (forall b, join (image_directory +:+ "/") b = join image_directory b)
    as Hjoin.
  { intros b. unfold join. destruct (startswith_sep b); [reflexivity|].
    rewrite Hne, Hend. cbn [orb].
    assert (endswith_sep (image_directory +:+ "/") = true) as ->
      by now rewrite endswith_sep_app.
    rewrite orb_true_r. apply append_assoc. }
  unfold Organize.organize_photos_by_team.
  apply bind_ext. intros df fs1. apply for_each_ext. intros [index row] fs2.
  unfold Organize.loop_body.
  apply bind_ext. intros team_value fs3. cbv zeta.
  apply bind_ext. intros photo_value fs4. cbv zeta.
  now rewrite !Hjoin.
Qed.

End invariants.

(** ** Whole runs *)


Lemma leads_to_dir_dot fs :
  is_dir_at (tree fs) (cwd fs) = true -> leads_to_dir fs "." (cwd fs).
Proof.
  intros Hd. split; [|exact Hd]. apply is_dir_at_lookup in Hd.
  change (stat fs ".")
    with (match lookup_step (tree fs) (cwd fs) "." with
          | inr c => inr c
          | inl e => inl e
          end : errno + list string).
  unfold lookup_step. rewrite Hd.
  rewrite decide_True by now right. reflexivity.
Qed.

Section runs.

Variable read_csv : string -> FS -> outcome DataFrame.



(** X16. With the empty string as image directory, as when the directory
    dialog was cancelled, the call organizes the working directory: when
    the working directory is a directory of the tree and the table is read
    without an error, every row with a team and a photo cell, plain names
    only, no empty team and no photo value a team value, the call leaves
    the same tree as the call with the image directory ".", and returns
    without an error exactly when that call does. *)
Theorem empty_image_directory_is_the_working_directory csv_path team_col
    photo_col fs df rs :
  read_csv csv_path fs = Returns df ->
  is_dir_at (tree fs) (cwd fs) = true ->
  table_rows team_col photo_col df = Some rs ->
  plain_rows rs = true -> named_teams rs = true ->
  let run := Organize.organize_photos_by_team read_csv csv_path ""
               team_col photo_col fs in
  let run' := Organize.organize_photos_by_team read_csv csv_path "."
                team_col photo_col fs in
  run.2 = run'.2 /\ (run.1 = Returns tt <-> run'.1 = Returns tt).
Proof.
  intros Hread Hcwd Hrows Hplain Hnamed run run'.
  assert (image_directory_at fs "" (cwd fs)) as Hat by (left; auto).
  pose proof (organize_at read_csv csv_path "" (cwd fs) team_col photo_col
                fs df rs Hread Hat eq_refl Hrows Hplain (fun _ => Hnamed)) as H.
  pose proof (organize_at read_csv csv_path "." (cwd fs) team_col photo_col
                fs df rs Hread (leads_to_dir_at _ _ _ (leads_to_dir_dot _ Hcwd))
                eq_refl Hrows Hplain (fun _ => Hnamed)) as H'.
  fold run in H. fold run' in H'.
  destruct (rows_outcome (cwd fs) rs (tree fs)) as [[] t'].
  - rewrite H, H'. now split.
  - destruct H as (e & ->), H' as (e' & ->). cbn. split; [reflexivity|].
    split; discriminate.
Qed.

End runs.

(** ** A photo listed in several rows *)





Section duplicates.

Variable read_csv : string -> FS -> outcome DataFrame.


End duplicates.

(** ** An image directory that is not there *)

Lemma vacant_lookup t k k' :
  vacant t k = true -> k `prefix_of` k' -> t !! k' = None.
Proof.
  unfold vacant. rewrite forallb_forall. intros H Hpre.
  destruct (t !! k') as [e|] eqn:E; [|reflexivity].
  assert (k' ∈ keys t) as Hin by (apply elem_of_keys; eauto).
  apply list_elem_of_In, H in Hin. apply negb_true_iff, is_prefix_false in Hin.
  contradiction.
Qed.

Lemma length_join_plain d p :
  plain_name p = true -> (String.length d < String.length (join d p))%nat.
Proof.
  intros Hp. pose proof (plain_name_inv _ Hp) as (Hne & _).
  apply is_empty_false, is_empty_length in Hne.
  destruct d as [|c d]; [rewrite join_empty_l; cbn; lia|].
  destruct (join_plain (String c d) p) as (stem & -> & _ & [-> | ->]);
    [discriminate|exact Hp|..];
    rewrite !length_append; cbn [String.length]; lia.
Qed.

Lemma forallb_app_true {A} (f : A -> bool) l1 l2 :
  forallb f (l1 ++ l2) = true <-> forallb f l1 = true /\ forallb f l2 = true.
Proof. rewrite forallb_app. apply andb_true_iff. Qed.

Lemma no_dotdot_join parent name :
  no_dotdot parent = true -> plain_name name = true ->
  no_dotdot (join parent name) = true.
Proof.
  intros Hdd Hp. pose proof (plain_name_inv _ Hp) as (Hne & Hsep & _ & Hdots).
  assert (forallb (fun comp => negb (bool_decide (comp = ".."))) [name] = true)
    as Hname by (cbn; now rewrite bool_decide_false).
  unfold no_dotdot in *.
  destruct parent as [|c parent].
  { rewrite join_empty_l, (split_sep_no_sep _ Hsep). exact Hname. }
  destruct (join_plain (String c parent) name) as (stem & -> & _ & Hstem);
    [discriminate|exact Hp|].
  rewrite split_sep_app, (split_sep_no_sep _ Hsep).
  apply forallb_app_true. split; [|exact Hname].
  destruct Hstem as [<-|Hstem]; [exact Hdd|].
  rewrite Hstem in Hdd.
  change (stem +:+ "/") with (stem +:+ String "/" "") in Hdd.
  rewrite split_sep_app in Hdd. now apply forallb_app_true in Hdd as [? _].
Qed.

(** [os.makedirs] creates the missing directory and the one below it. *)
Lemma makedirs_two_levels fs parent P name team :
  image_directory_at fs parent P ->
  plain_name name = true -> plain_name team = true ->
  tree fs !! (P ++ [name]) = None ->
  tree fs !! (P ++ [name; team]) = None ->
  makedirs (join (join parent name) team) fs
  = (Returns tt,
     with_tree fs (<[P ++ [name; team] := Dir]>
                     (<[P ++ [name] := Dir]> (tree fs)))).
Proof.
  intros Hat Hn Ht Hfree Hfree'.
  pose proof (length_join_plain (join parent name) team Ht) as Hlen.
  unfold makedirs.
  destruct (String.length (join (join parent name) team)) as [|n]; [lia|].
  cbn [makedirs_rec].
  rewrite split_join_no_trailing;
    [|now apply join_plain_nonempty|now apply endswith_sep_join_plain|exact Ht].
  rewrite (is_empty_false team) by now apply plain_name_inv in Ht.
  rewrite bind_inspect, (path_exists_join_at _ _ _ _ Hat Hn), Hfree.
  rewrite bool_decide_false by (intros [? ?]; discriminate).
  rewrite (is_empty_false (join parent name)) by now apply join_plain_nonempty.
  cbn [negb andb].
  rewrite (is_empty_false team) by now apply plain_name_inv in Ht.
  cbn [negb andb].
  assert (makedirs_rec n (join parent name) fs
          = (Returns tt, with_tree fs (<[P ++ [name] := Dir]> (tree fs)))) as Hhead.
  { rewrite makedirs_rec_enough by lia.
    now rewrite (makedirs_join_at _ _ _ _ Hat Hn), (mkdir_join_at _ _ _ _ Hat Hn),
      Hfree. }
  erewrite bind_returns by (unfold pass_FileExistsError; rewrite Hhead; reflexivity).
  rewrite bool_decide_false
    by (apply plain_name_inv in Ht as (_ & _ & ? & _); assumption).
  set (fs1 := with_tree fs (<[P ++ [name] := Dir]> (tree fs))).
  assert (image_directory_at fs1 parent P) as Hat1.
  { apply image_directory_at_mono; [|exact Hat]. intros k e Hk.
    rewrite lookup_insert_ne; [exact Hk|]. intros <-. congruence. }
  assert (leads_to_dir fs1 (join parent name) (P ++ [name])) as Hdir1.
  { apply leads_to_dir_join_at; [assumption..|].
    apply is_dir_at_lookup. apply lookup_insert_eq. }
  rewrite (mkdir_join _ _ _ _ Hdir1 Ht). cbn [tree fs1 with_tree].
  rewrite <- app_assoc. cbn [app].
  rewrite lookup_insert_ne by (symmetry; apply two_ne_one).
  now rewrite Hfree'.
Qed.

(** Rows whose photos are not there only put the team directories in
    place. *)
Lemma rows_effect_no_photos D rs x :
  teams_differ_from_photos rs -> named_teams rs = true ->
  (forall r, r ∈ rs -> x !! (D ++ [r.2]) = None) ->
  exists z,
    rows_effect D rs x = Some z
    /\ forall k,
         z !! k = if bool_decide (k ∈ (fun r => D ++ [r.1]) <$> rs)
                  then Some (default Dir (x !! k)) else x !! k.
Proof.
  revert x. induction rs as [|[t p] rs IH]; intros x Hdiff Hnamed Habs.
  - exists x. split; [reflexivity|]. intros k.
    rewrite bool_decide_false; [reflexivity|]. cbn. apply not_elem_of_nil.
  - apply teams_differ_cons in Hdiff as (Htp & Hr & Hdiff). cbn in Htp.
    cbn in Hnamed. apply andb_true_iff in Hnamed as [Ht Hnamed].
    apply negb_true_iff in Ht.
    set (y := ensure_dir_at (D ++ [t]) x).
    assert (row_effect D (t, p) x = Some y) as Erow.
    { cbn. rewrite Ht. unfold relocate.
      rewrite (proj2 (move_plan_stay D t p _)); [reflexivity|].
      rewrite lookup_ensure_dir_at_ne;
        [apply (Habs (t, p)), list_elem_of_here|].
      intros ?; simplify_list_eq; congruence. }
    destruct (IH y Hdiff Hnamed) as (z & Hz & Hlook).
    { intros r Hin. unfold y. rewrite lookup_ensure_dir_at_ne.
      - apply Habs. now apply list_elem_of_further.
      - destruct (Hr r Hin) as [H1 _]. cbn in H1.
        intros ?; simplify_list_eq; congruence. }
    exists z. split; [cbn [rows_effect]; now rewrite Erow|].
    intros k. rewrite Hlook. unfold y. rewrite lookup_ensure_dir_at.
    cbn [fmap list_fmap fst].
    destruct (decide (D ++ [t] = k)) as [<-|Hne].
    + rewrite (bool_decide_true (_ ∈ _ :: _)) by apply list_elem_of_here.
      now destruct (bool_decide _).
    + destruct (bool_decide (k ∈ _)) eqn:E.
      * apply bool_decide_eq_true in E.
        rewrite bool_decide_true; [reflexivity|].
        now apply list_elem_of_further.
      * apply bool_decide_eq_false in E.
        rewrite bool_decide_false; [reflexivity|].
        intros [->|Hin]%elem_of_cons; [now apply Hne|now apply E].
Qed.

Lemma snoc_ne_self (D : list string) a : D ++ [a] <> D.
Proof.
  intros H. apply (f_equal length) in H. rewrite length_app in H. cbn in H. lia.
Qed.

Section missing_directory.

Variable read_csv : string -> FS -> outcome DataFrame.

(** X17. An image directory that does not exist is created by the first
    row, and nothing is moved.  When [parent] is an existing directory
    given by a path with no ".." segment (or empty, for the working
    directory), [name] is a plain name of at most 255 bytes with no null
    byte, nothing is at or below [parent/name], and the table has at least
    one row, plain names only, no empty team, no photo value a team value,
    every team of at most 255 bytes with no null byte and every path
    [parent/name/team] shorter than 4096 bytes, the call with the image
    directory [parent/name] returns without an error; [parent/name] and
    [parent/name/team] for every team are directories after it, and every
    other location is as before. *)
Theorem missing_image_directory_is_created csv_path parent name team_col
    photo_col fs df r rs P :
  read_csv csv_path fs = Returns df ->
  image_directory_at fs parent P -> no_dotdot parent = true ->
  plain_name name = true ->
  vacant (tree fs) (P ++ [name]) = true ->
  table_rows team_col photo_col df = Some (r :: rs) ->
  plain_rows (r :: rs) = true -> named_teams (r :: rs) = true ->
  name_fits name = true -> teams_fit (join parent name) (r :: rs) = true ->
  exists fs',
    Organize.organize_photos_by_team read_csv csv_path (join parent name)
      team_col photo_col fs = (Returns tt, fs')
    /\ tree fs' !! (P ++ [name]) = Some Dir
    /\ (forall r', r' ∈ r :: rs -> tree fs' !! (P ++ [name; r'.1]) = Some Dir)
    /\ (forall k, k <> P ++ [name] ->
                  (forall r', r' ∈ r :: rs -> k <> P ++ [name; r'.1]) ->
                  tree fs' !! k = tree fs !! k).
Proof.
  intros Hread Hat Hdd Hn Hvac Hrows Hplain Hnamed _ _.
  assert (forall a, P ++ [name; a] = (P ++ [name]) ++ [a]) as Eapp
    by (intros a; now rewrite <- app_assoc).
  setoid_rewrite Eapp.
  remember (join parent name) as dir eqn:Edir.
  remember (P ++ [name]) as D eqn:ED.
  assert (forall l, tree fs !! (D ++ l) = None) as Hnone
    by (intros l; apply (vacant_lookup _ _ _ Hvac); now apply prefix_app_r).
  pose proof (Hnone []) as HD. rewrite app_nil_r in HD.
  destruct (plain_rows_inv _ Hplain) as [Hok Hdiff].
  destruct r as [t p].
  destruct (Hok (t, p) (list_elem_of_here _ _)) as [Ht Hp]. cbn in Ht, Hp.
  pose proof Hnamed as Hnamed'. cbn in Hnamed'.
  apply andb_true_iff in Hnamed' as [Hte Hnamed']. apply negb_true_iff in Hte.
  destruct (team_name_ok_inv _ Ht) as [->|Ht']; [discriminate|].
  pose proof (teams_differ_cons _ _ Hdiff) as (Htp & Hr & Hdiff'). cbn in Htp.
  rewrite (organize_unfold _ _ _ _ _ _ _ Hread).
  pose proof (iterrows_names _ _ _ _ Hrows) as Hitems.
  apply Forall2_cons_inv_r in Hitems as ([i row] & items & Hrow & Hitems & ->).
  cbn in Hrow. cbn [for_each].
  (* the tree after the first row *)
  set (t1 := <[D ++ [t] := Dir]> (<[D := Dir]> (tree fs))).
  assert (forall k, t1 !! k = if decide (k = D ++ [t]) then Some Dir
                              else if decide (k = D) then Some Dir
                              else tree fs !! k) as Ht1.
  { intros k. unfold t1.
    destruct (decide (k = D ++ [t])) as [->|H1];
      [apply lookup_insert_eq|rewrite lookup_insert_ne by congruence].
    destruct (decide (k = D)) as [->|H2];
      [apply lookup_insert_eq|now rewrite lookup_insert_ne by congruence]. }
  assert (leads_to_dir (with_tree fs t1) dir D) as Hdir1.
  { assert (image_directory_at (with_tree fs t1) parent P) as Hat1.
    { apply image_directory_at_mono; [|exact Hat]. intros k e Hk.
      rewrite Ht1, !decide_False; [exact Hk|intros ->..].
      - congruence.
      - rewrite Hnone in Hk. discriminate. }
    rewrite Edir, ED. apply leads_to_dir_join_at; [assumption..|].
    apply is_dir_at_lookup. cbn. rewrite <- ED, Ht1.
    rewrite decide_False, decide_True; [reflexivity..|].
    intros H. symmetry in H. now apply snoc_ne_self in H. }
  assert (forall q, q <> t -> t1 !! (D ++ [q]) = None) as Hq.
  { intros q Hqt. rewrite Ht1, !decide_False, Hnone; [reflexivity|..].
    - apply snoc_ne_self.
    - intros ?; simplify_list_eq; congruence. }
  (* the first row creates the directory and the team directory *)
  assert (Organize.loop_body dir team_col photo_col (i, row) fs
          = (Returns tt, with_tree fs t1)) as Hfirst.
  { rewrite (loop_body_names _ _ _ _ _ _ _ _ Hrow).
    assert (stat fs dir = inl ENOENT) as Hstat
      by (rewrite Edir, (stat_join_at _ _ _ _ Hat Hn), <- ED; now rewrite HD).
    erewrite bind_returns.
    2:{ rewrite create_team_directory_absent.
        - rewrite Edir. apply (makedirs_two_levels _ _ _ _ _ Hat Hn Ht').
          + now rewrite <- ED.
          + rewrite Eapp. apply Hnone.
        - unfold path_exists.
          rewrite stat_join_plain, Hstat;
            [reflexivity|rewrite Edir; now apply join_plain_nonempty|exact Ht']. }
    rewrite Eapp, <- ED. fold t1.
    apply move_if_exists_absent.
    rewrite (path_exists_join_dir _ _ _ _ Hdir1 Hp).
    apply bool_decide_eq_false. cbn. rewrite Hq by congruence.
    now intros [? ?]. }
  erewrite bind_returns by exact Hfirst.
  (* the rows after it find the directory in place and no photo *)
  destruct (rows_effect_no_photos D rs t1 Hdiff' Hnamed') as (z & Hz & Hlook).
  { intros r' Hin. destruct (Hr r' Hin) as [H1 _]. cbn in H1.
    apply Hq. congruence. }
  assert (no_dotdot dir = true) as Hdd'
    by (rewrite Edir; now apply no_dotdot_join).
  pose proof (for_each_effect dir D team_col photo_col items rs
                Hdd' Hitems
                (fun r' Hin => Hok r' (list_elem_of_further _ _ _ Hin))
                Hdiff' _ Hdir1) as Hrest.
  cbn [tree with_tree] in Hrest. rewrite Hz in Hrest.
  exists (with_tree fs z). split; [exact Hrest|].
  cbn [tree with_tree].
  assert (D <> D ++ [t]) as HDt
    by (intros H; symmetry in H; now apply snoc_ne_self in H).
  split; [|split].
  - rewrite Hlook, Ht1, decide_False, decide_True by auto.
    now destruct (bool_decide _).
  - intros r' Hin. rewrite Hlook, Ht1.
    apply elem_of_cons in Hin as [->|Hin].
    + cbn. rewrite decide_True by reflexivity. now destruct (bool_decide _).
    + rewrite bool_decide_true
        by (apply list_elem_of_fmap; exists r'; split; [reflexivity|exact Hin]).
      destruct (decide (D ++ [r'.1] = D ++ [t])); [reflexivity|].
      rewrite decide_False, Hnone; [reflexivity|]. apply snoc_ne_self.
  - intros k HkD Hk.
    rewrite Hlook, bool_decide_false, Ht1.
    + rewrite decide_False, decide_False; [reflexivity|exact HkD|].
      apply (Hk (t, p)), list_elem_of_here.
    + intros (r' & -> & Hin)%list_elem_of_fmap. apply (Hk r'); [|reflexivity].
      now apply list_elem_of_further.
Qed.

End missing_directory.

(** ** The team directory a row makes *)

(** C2 (amended). Let the trimmed photo of a row name no entry at
    [dir/photo].  When an entry is at the path [dir/team] of the team
    directory, the row leaves the tree as it is and raises no error.  When
    none is, the image directory is an existing directory, the photo is a
    plain name, the team is a plain name other than the photo, of at most
    255 bytes and with no null byte, and the path [dir/team] is shorter
    than 4096 bytes, the row raises no error and moves nothing: it makes
    the directory [dir/team], and every other location of the tree is as
    before. *)
Theorem missing_photo_moves_nothing image_directory D team_col photo_col
    i row team photo fs :
  names team_col photo_col row = Some (team, photo) ->
  path_exists fs (join image_directory photo) = false ->
  (path_exists fs (join image_directory team) = true ->
   Organize.loop_body image_directory team_col photo_col (i, row) fs
   = (Returns tt, fs))
  /\ (path_exists fs (join image_directory team) = false ->
      leads_to_dir fs image_directory D ->
      plain_name team = true -> plain_name photo = true -> team <> photo ->
      name_fits team = true ->
      path_fits (join image_directory team) = true ->
      Organize.loop_body image_directory team_col photo_col (i, row) fs
      = (Returns tt, with_tree fs (<[D ++ [team] := Dir]> (tree fs)))).
Proof.
  intros Hnames Hsrc. split.
  - intros Hteam. rewrite (loop_body_names _ _ _ _ _ _ _ _ Hnames).
    erewrite bind_returns by now apply create_team_directory_exists.
    now apply move_if_exists_absent.
  - intros Hteam Hdir Ht Hp Htp _ _.
    rewrite (path_exists_join_dir _ _ _ _ Hdir Hp) in Hsrc.
    rewrite (path_exists_join_dir _ _ _ _ Hdir Ht) in Hteam.
    apply bool_decide_eq_false in Hsrc, Hteam.
    assert (tree fs !! (D ++ [photo]) = None) as Hsrc'
      by (destruct (tree fs !! (D ++ [photo])); [destruct Hsrc; eauto|reflexivity]).
    assert (tree fs !! (D ++ [team]) = None) as Hteam'
      by (destruct (tree fs !! (D ++ [team])); [destruct Hteam; eauto|reflexivity]).
    pose proof (loop_body_effect fs image_directory D team_col photo_col i row
                  team photo Hdir Hnames (team_name_ok_plain _ Ht) Hp Htp) as H.
    rewrite (row_effect_plain _ _ _ _ Ht) in H.
    unfold relocate in H.
    rewrite (proj2 (move_plan_stay _ _ _ _)) in H.
    + unfold ensure_dir_at in H. now rewrite Hteam' in H.
    + rewrite lookup_ensure_dir_at_ne; [exact Hsrc'|].
      intros E. apply app_inv_head in E. congruence.
Qed.

(** C5. For every row the team cell and the photo cell are turned into
    text with [str] and stripped of the white space at both ends, and the
    stripped texts are the segments the paths of the row are joined from:
    the team directory is [join image_directory team], the source
    [join image_directory photo] and the destination
    [join (join image_directory team) photo].  So the directory a row
    makes has the stripped team for its name and the file it moves is
    found and filed under the stripped photo: in an existing image
    directory, for stripped values that are plain names and differ, a team
    of at most 255 bytes with no null byte and a destination path shorter
    than 4096 bytes, with nothing at [dir/team] and at [dir/team/photo]
    and a regular file at [dir/photo], the row returns, [dir/team] is a
    directory, the file is at [dir/team/photo] and no longer at
    [dir/photo], and every location that is not at or under one of these
    is as before. *)
Theorem values_are_stripped image_directory D team_col photo_col i row vt vp
    fs :
  cell row team_col = Some vt ->
  cell row photo_col = Some vp ->
  let team := strip (str vt) in
  let photo := strip (str vp) in
  stripped_of (str vt) team /\ stripped_of (str vp) photo
  /\ Organize.loop_body image_directory team_col photo_col (i, row) fs
     = bind (Organize.create_team_directory (join image_directory team))
         (fun _ => Organize.move_if_exists (join image_directory photo)
                     (join (join image_directory team) photo)) fs
  /\ (leads_to_dir fs image_directory D ->
      plain_name team = true -> plain_name photo = true -> team <> photo ->
      name_fits team = true ->
      path_fits (join (join image_directory team) photo) = true ->
      tree fs !! (D ++ [team]) = None ->
      tree fs !! (D ++ [team; photo]) = None ->
      forall c, tree fs !! (D ++ [photo]) = Some (File c) ->
      exists fs',
        Organize.loop_body image_directory team_col photo_col (i, row) fs
        = (Returns tt, fs')
        /\ tree fs' !! (D ++ [team]) = Some Dir
        /\ tree fs' !! (D ++ [team; photo]) = Some (File c)
        /\ tree fs' !! (D ++ [photo]) = None
        /\ (forall k, k <> D ++ [team] ->
                      ¬ (D ++ [team; photo]) `prefix_of` k ->
                      ¬ (D ++ [photo]) `prefix_of` k ->
                      tree fs' !! k = tree fs !! k)).
Proof.
  intros Hvt Hvp team photo. split; [|split; [|split]].
  - apply strip_stripped_of.
  - apply strip_stripped_of.
  - now apply loop_body_cells.
  - intros Hdir Ht Hp Htp _ _ Hteam Hdst c Hsrc.
    assert (names team_col photo_col row = Some (team, photo)) as Hnames.
    { unfold names, trimmed. now rewrite Hvt, Hvp. }
    set (x1 := <[D ++ [team] := Dir]> (tree fs)).
    assert (row_effect D (team, photo) (tree fs)
            = Some (move_subtree (D ++ [photo]) (D ++ [team; photo]) x1)) as Heff.
    { rewrite (row_effect_plain _ _ _ _ Ht). unfold ensure_dir_at.
      rewrite Hteam. fold x1. unfold relocate, move_plan, is_dir_at.
      unfold x1. rewrite lookup_insert_eq.
      rewrite !lookup_insert_ne
        by (intros E; apply app_inv_head in E; congruence).
      now rewrite Hsrc, Hdst. }
    eexists. split.
    { exact (loop_body_returns _ _ _ _ _ _ _ _ _ _ Hdir Hnames Ht Hp Htp Heff). }
    cbn [tree with_tree]. split; [|split; [|split]].
    + rewrite lookup_move_subtree_other by not_prefix.
      apply lookup_insert_eq.
    + pose proof (lookup_move_subtree_new (D ++ [photo]) (D ++ [team; photo])
                    x1 []) as H.
      rewrite !app_nil_r in H. rewrite H. unfold x1.
      rewrite lookup_insert_ne by (intros E; apply app_inv_head in E; congruence).
      exact Hsrc.
    + apply lookup_move_subtree_old; [not_prefix|reflexivity].
    + intros k Hk Hnew Hold. rewrite lookup_move_subtree_other by assumption.
      unfold x1. now rewrite lookup_insert_ne by congruence.
Qed.

(** ** Rows that share a team *)

Lemma rows_effect_one_team D team photos x :
  is_empty team = false ->
  x !! (D ++ [team]) = Some Dir ->
  (forall q, q ∈ photos -> q <> team) ->
  (forall q, q ∈ photos -> is_Some (x !! (D ++ [q])) ->
             x !! (D ++ [team; q]) = None) ->
  rows_effect D ((fun q => (team, q)) <$> photos) x
  = Some (foldl (filed D team) x photos).
Proof.
  intros Hne. revert x. induction photos as [|q photos IH];
    intros x Hdir Hqt Hfree; [reflexivity|].
  cbn [fmap list_fmap rows_effect foldl]. cbn [row_effect]. rewrite Hne.
  rewrite ensure_dir_at_id by eauto.
  assert (q <> team) as Hq by (apply Hqt; left).
  unfold relocate, move_plan, filed at 2.
  destruct (x !! (D ++ [q])) as [e|] eqn:Esrc.
  - rewrite (Hfree q) by (try left; rewrite ?Esrc; eauto).
    unfold is_dir_at. rewrite Hdir, (Hfree q) by (try left; rewrite ?Esrc; eauto).
    apply IH.
    + rewrite lookup_move_subtree_other by not_prefix. exact Hdir.
    + intros q' Hin. apply Hqt. now right.
    + intros q' Hin Hsome. destruct (decide (q' = q)) as [->|Hne'].
      * rewrite lookup_move_subtree_old in Hsome; [|not_prefix|reflexivity].
        now destruct Hsome.
      * assert (q' <> team) by (apply Hqt; now right).
        rewrite lookup_move_subtree_other in Hsome by not_prefix.
        rewrite lookup_move_subtree_other by not_prefix.
        apply Hfree; [now right|exact Hsome].
  - apply IH; [exact Hdir| |].
    + intros q' Hin. apply Hqt. now right.
    + intros q' Hin. apply Hfree. now right.
Qed.

(** Where an entry of the tree with a photo filed was before. *)
Lemma filed_from D team x q k e :
  filed D team x q !! k = Some e ->
  x !! k = Some e
  \/ exists rest, k = D ++ team :: q :: rest /\ x !! (D ++ q :: rest) = Some e.
Proof.
  unfold filed. destruct (x !! (D ++ [q])); [|now left].
  rewrite lookup_move_subtree. unfold move_lookup.
  destruct (is_prefix (D ++ [team; q]) k) eqn:En.
  - apply is_prefix_true in En as [rest ->]. rewrite rebase_app.
    intros H. right. exists rest. split.
    + now rewrite <- app_assoc.
    + now rewrite <- app_assoc in H.
  - destruct (is_prefix (D ++ [q]) k); [discriminate|now left].
Qed.

Lemma gathered_from D team photos x k e :
  (forall q, q ∈ photos -> q <> team) ->
  foldl (filed D team) x photos !! k = Some e ->
  x !! k = Some e
  \/ exists q rest, q ∈ photos /\ k = D ++ team :: q :: rest
                    /\ x !! (D ++ q :: rest) = Some e.
Proof.
  revert x. induction photos as [|p photos IH]; intros x Hqt H; [now left|].
  cbn [foldl] in H.
  apply IH in H; [|intros q Hin; apply Hqt; now right].
  destruct H as [H|(q & rest & Hin & -> & H)].
  - apply filed_from in H as [H|(rest & -> & H)]; [now left|].
    right. exists p, rest. split; [left|]. now split.
  - apply filed_from in H as [H|(rest' & E & H)].
    + right. exists q, rest. split; [now right|]. now split.
    + apply app_inv_head in E. injection E as E _.
      destruct (Hqt q); [now right|exact E].
Qed.

Section one_team.

Variable read_csv : string -> FS -> outcome DataFrame.

(** C6 (amended). Let the image directory be an existing directory given
    by a path with no ".." segment, let the rows of the table, one or more,
    share one trimmed team value, a plain name of at most 255 bytes with no
    null byte, every trimmed photo value be a plain name other than the
    team, every path [dir/team/photo] be shorter than 4096 bytes, and let
    nothing be at or below [dir/team] before the run.  Then the call
    completes without an error, and the tree after it is the tree before
    with one directory made, [dir/team], and then the entries of the listed
    photos moved into it: [dir/team] is a directory, and every other entry
    of the tree after the run was in the tree before, at its place or, for
    a listed photo, at or under [dir/photo] and now at or under
    [dir/team/photo].  So [dir/team] is made once, whatever the number of
    rows.  And a row that finds an entry at the path of its team directory
    makes nothing: its outcome and the tree it leaves are those of its move
    alone. *)
Theorem team_directory_creation_idempotent csv_path image_directory D
    team_col photo_col fs df team photo photos :
  read_csv csv_path fs = Returns df ->
  leads_to_dir fs image_directory D -> no_dotdot image_directory = true ->
  table_rows team_col photo_col df
  = Some ((fun q => (team, q)) <$> photo :: photos) ->
  plain_name team = true ->
  plain_rows ((fun q => (team, q)) <$> photo :: photos) = true ->
  name_fits team = true ->
  forallb (fun q => path_fits (join (join image_directory team) q))
    (photo :: photos) = true ->
  vacant (tree fs) (D ++ [team]) = true ->
  (Organize.organize_photos_by_team read_csv csv_path image_directory team_col
     photo_col fs
   = (Returns tt,
      with_tree fs (gathered D team (photo :: photos) (tree fs)))
   /\ gathered D team (photo :: photos) (tree fs) !! (D ++ [team]) = Some Dir
   /\ (forall k e,
         gathered D team (photo :: photos) (tree fs) !! k = Some e ->
         k = D ++ [team] \/ tree fs !! k = Some e
         \/ exists q rest,
              q ∈ photo :: photos /\ k = D ++ team :: q :: rest
              /\ tree fs !! (D ++ q :: rest) = Some e))
  /\ (forall fs0 i row q,
        names team_col photo_col row = Some (team, q) ->
        path_exists fs0 (join image_directory team) = true ->
        Organize.loop_body image_directory team_col photo_col (i, row) fs0
        = Organize.move_if_exists (join image_directory q)
            (join (join image_directory team) q) fs0).
Proof.
  intros Hread Hdir Hdd Hrows Ht Hplain _ _ Hvac.
  destruct (plain_rows_inv _ Hplain) as [Hok Hdiff].
  assert (forall q, q ∈ photo :: photos -> q <> team) as Hqt.
  { intros q Hin E.
    apply (Hdiff (team, q) (team, q)); [| |now rewrite E];
      apply (list_elem_of_fmap_2 (fun q => (team, q))); exact Hin. }
  assert (forall l, tree fs !! (D ++ [team] ++ l) = None) as Hnone.
  { intros l. apply (vacant_lookup _ _ _ Hvac). rewrite app_assoc.
    now apply prefix_app_r. }
  pose proof (Hnone []) as Hteam. cbn in Hteam.
  set (x1 := <[D ++ [team] := Dir]> (tree fs)).
  assert (rows_effect D ((fun q => (team, q)) <$> photo :: photos) (tree fs)
          = Some (gathered D team (photo :: photos) (tree fs))) as Heff.
  { unfold gathered. fold x1.
    rewrite <- (rows_effect_one_team D team (photo :: photos) x1).
    - cbn [fmap list_fmap rows_effect row_effect].
      rewrite (is_empty_false team) by now apply plain_name_inv in Ht.
      replace (ensure_dir_at (D ++ [team]) (tree fs)) with x1
        by (unfold ensure_dir_at; now rewrite Hteam).
      rewrite (ensure_dir_at_id _ x1); [reflexivity|].
      unfold x1. rewrite lookup_insert_eq. eauto.
    - apply is_empty_false. now apply plain_name_inv in Ht.
    - apply lookup_insert_eq.
    - exact Hqt.
    - intros q Hin _. unfold x1.
      rewrite lookup_insert_ne by (intros E; apply app_inv_head in E; discriminate).
      apply (Hnone [q]). }
  split.
  - pose proof (organize_effect read_csv _ _ _ _ _ _ _ _ Hread Hdir Hdd Hrows
                  Hplain) as Hrun.
    rewrite Heff in Hrun. split; [exact Hrun|].
    unfold gathered. fold x1. split.
    2:{ intros k e H. apply gathered_from in H; [|exact Hqt].
        destruct H as [H|(q & rest & Hin & -> & H)].
        - unfold x1 in H. destruct (decide (k = D ++ [team])) as [->|Hk];
            [now left|].
          right. left. now rewrite lookup_insert_ne in H by congruence.
        - right. right. exists q, rest. split; [exact Hin|]. split; [reflexivity|].
          unfold x1 in H. rewrite lookup_insert_ne in H; [exact H|].
          intros E. apply app_inv_head in E. injection E as E _.
          now destruct (Hqt q Hin). }
    assert (forall qs x, x !! (D ++ [team]) = Some Dir ->
                         (forall q, q ∈ qs -> q <> team) ->
                         foldl (filed D team) x qs !! (D ++ [team]) = Some Dir)
      as Hkeep.
    { induction qs as [|q qs IH]; intros x Hx Hq; [exact Hx|].
      cbn [foldl]. apply IH; [|intros q' Hin; apply Hq; now right].
      assert (q <> team) by (apply Hq; left).
      unfold filed. destruct (x !! (D ++ [q])); [|exact Hx].
      now rewrite lookup_move_subtree_other by not_prefix. }
    apply Hkeep; [apply lookup_insert_eq|exact Hqt].
  - intros fs0 i row q Hnames Hex.
    rewrite (loop_body_names _ _ _ _ _ _ _ _ Hnames).
    now erewrite bind_returns by now apply create_team_directory_exists.
Qed.

End one_team.

(** ** The windows *)

Lemma substring_none n s : substring n 0 s = "".
Proof.
  revert n. induction s as [|c s IH]; intros [|n]; cbn; try reflexivity.
  apply IH.
Qed.

Lemma substring_all n s : (String.length s <= n)%nat -> substring 0 n s = s.
Proof.
  revert n. induction s as [|c s IH]; intros [|n] H; cbn in *;
    try reflexivity; [lia|].
  rewrite IH by lia. reflexivity.
Qed.

(** Deleting from the start to [tk.END] empties an entry. *)
Lemma delete_all text : Tk.delete (Tk.Position 0) Tk.END text = "".
Proof.
  unfold Tk.delete, Tk.resolve, Tk.upto, Tk.from. cbn [Nat.min].
  destruct (0 <? String.length text)%nat eqn:E.
  - rewrite Nat.sub_diag, !substring_none. reflexivity.
  - apply Nat.ltb_ge in E. destruct text; [reflexivity|cbn in E; lia].
Qed.

Lemma insert_into_empty i s : Tk.insert i s "" = s.
Proof.
  unfold Tk.insert, Tk.upto, Tk.from.
  assert (Tk.resolve i "" = 0%nat) as -> by (destruct i as [[|n]|]; reflexivity).
  cbn. apply append_empty_r.
Qed.

(** X19. The Browse buttons of organize.py replace the text of their
    entry: after [browse_csv] the CSV entry holds what the file dialog
    returned, whatever it held before, and the three other widgets are as
    before; likewise [browse_dir] and the directory entry.  A cancelled
    dialog, which returns the empty string, empties the entry. *)
Theorem browse_replaces_the_text filename dirname w :
  OrganizeWindow.browse_csv filename w
  = Organize.mkWidgets filename (Organize.dir_entry w)
      (Organize.team_col_combobox w) (Organize.photo_col_combobox w)
  /\ OrganizeWindow.browse_dir dirname w
     = Organize.mkWidgets (Organize.csv_entry w) dirname
         (Organize.team_col_combobox w) (Organize.photo_col_combobox w).
Proof.
  unfold OrganizeWindow.browse_csv, OrganizeWindow.browse_dir.
  now rewrite !delete_all, !insert_into_empty.
Qed.

Lemma setText_short text :
  (String.length text <=? Qt.maxLength)%nat = true -> Qt.setText text = text.
Proof.
  intros H. apply Nat.leb_le in H. unfold Qt.setText.
  generalize dependent Qt.maxLength. intros n. apply substring_all.
Qed.

Lemma length_substring_le n s : (String.length (substring 0 n s) <= n)%nat.
Proof.
  revert n. induction s as [|c s IH]; intros [|n]; cbn; try lia.
  specialize (IH n). lia.
Qed.

Section windows.

Variable read_csv : string -> FS -> outcome DataFrame.

Lemma mac_run_organizer_unfold self fs :
  OrganizeMac.run_organizer read_csv self fs
  = Organize.organize_photos_by_team read_csv
      (OrganizeMac.csv_entry self) (OrganizeMac.dir_entry self)
      (OrganizeMac.team_col_combobox self)
      (OrganizeMac.photo_col_combobox self) fs.
Proof.
  unfold OrganizeMac.run_organizer, Organize.organize_photos_by_team,
    Organize.pd_read_csv.
  apply bind_ext. intros df fs1.
  apply for_each_ext. intros [index row] fs2. reflexivity.
Qed.

(** X20. In the window of organize.py, [run_organizer] after Browse for
    the table and Browse for the directory, in either order, is
    [organize_photos_by_team] on the two paths the dialogs returned and
    the column names the comboboxes hold, whatever the entries held
    before. *)
Theorem run_after_browsing_uses_the_chosen_paths filename dirname w fs :
  Organize.run_organizer read_csv
    (OrganizeWindow.browse_dir dirname (OrganizeWindow.browse_csv filename w)) fs
  = Organize.organize_photos_by_team read_csv filename dirname
      (Organize.team_col_combobox w) (Organize.photo_col_combobox w) fs
  /\ Organize.run_organizer read_csv
       (OrganizeWindow.browse_csv filename (OrganizeWindow.browse_dir dirname w))
       fs
     = Organize.organize_photos_by_team read_csv filename dirname
         (Organize.team_col_combobox w) (Organize.photo_col_combobox w) fs.
Proof.
  unfold Organize.run_organizer, OrganizeWindow.browse_csv,
    OrganizeWindow.browse_dir.
  cbn [Organize.csv_entry Organize.dir_entry Organize.team_col_combobox
       Organize.photo_col_combobox].
  now rewrite !delete_all, !insert_into_empty.
Qed.

(** X21. The Browse buttons of organize-mac.py set the text of their line
    edit: for a path of at most [QLineEdit.maxLength] (32767) characters,
    after [browse_csv] the CSV line edit holds the path the file dialog
    returned, the filter it also returned playing no part, and the three
    other widgets are as before; likewise [browse_dir] and the directory
    line edit. *)
Theorem qt_browse_sets_the_text filename filter dirname self :
  (String.length filename <=? Qt.maxLength)%nat = true ->
  (String.length dirname <=? Qt.maxLength)%nat = true ->
  OrganizeMacWindow.browse_csv (filename, filter) self
  = OrganizeMac.mkPhotoOrganizer filename (OrganizeMac.dir_entry self)
      (OrganizeMac.team_col_combobox self)
      (OrganizeMac.photo_col_combobox self)
  /\ OrganizeMacWindow.browse_dir dirname self
     = OrganizeMac.mkPhotoOrganizer (OrganizeMac.csv_entry self) dirname
         (OrganizeMac.team_col_combobox self)
         (OrganizeMac.photo_col_combobox self).
Proof.
  intros Hf Hd. unfold OrganizeMacWindow.browse_csv, OrganizeMacWindow.browse_dir.
  now rewrite (setText_short _ Hf), (setText_short _ Hd).
Qed.

(** X22. The two windows agree.  From the widgets as [initUI] builds them
    in organize-mac.py and as the module builds them in organize.py, after
    Browse for the same table path and Browse for the same directory path,
    each of at most 32767 characters, the two [run_organizer] give the same
    outcome and the same tree: both run on the two paths with the columns
    "Team" and "Photo". *)
Theorem windows_agree_after_browsing filename filter dirname fs :
  (String.length filename <=? Qt.maxLength)%nat = true ->
  (String.length dirname <=? Qt.maxLength)%nat = true ->
  OrganizeMac.run_organizer read_csv
    (OrganizeMacWindow.browse_dir dirname
       (OrganizeMacWindow.browse_csv (filename, filter)
          OrganizeMacWindow.initUI)) fs
  = Organize.run_organizer read_csv
      (OrganizeWindow.browse_dir dirname
         (OrganizeWindow.browse_csv filename OrganizeWindow.window)) fs.
Proof.
  intros Hf Hd. rewrite mac_run_organizer_unfold.
  unfold Organize.run_organizer, OrganizeWindow.browse_csv,
    OrganizeWindow.browse_dir, OrganizeMacWindow.browse_csv,
    OrganizeMacWindow.browse_dir.
  cbn [Organize.csv_entry Organize.dir_entry Organize.team_col_combobox
       Organize.photo_col_combobox OrganizeMac.csv_entry OrganizeMac.dir_entry
       OrganizeMac.team_col_combobox OrganizeMac.photo_col_combobox
       OrganizeWindow.window].
  rewrite !delete_all, !insert_into_empty.
  rewrite (setText_short _ Hf), (setText_short _ Hd).
  reflexivity.
Qed.

End windows.

(** ** The further properties at concrete inputs *)

Import Cases.

(** X1 at the row (Red, a.jpg), with an older [/D/Red/a.jpg]. *)
Lemma file_at_destination_is_replaced_witness :
  exists fs',
    Organize.loop_body "/D" "Team" "Photo" (0%nat, row "Red" "a.jpg")
      photos_dir_with_old_copy = (Returns tt, fs')
    /\ tree fs' !! (["D"] ++ ["Red"; "a.jpg"]) = Some (File "A")
    /\ tree fs' !! (["D"] ++ ["a.jpg"]) = None
    /\ (forall k, ¬ ["D"] ++ ["a.jpg"] `prefix_of` k ->
                  ¬ ["D"] ++ ["Red"; "a.jpg"] `prefix_of` k ->
                  tree fs' !! k = tree photos_dir_with_old_copy !! k).
Proof.
  apply (file_at_destination_is_replaced "/D" ["D"] "Team" "Photo" 0%nat
           (row "Red" "a.jpg") "Red" "a.jpg" photos_dir_with_old_copy
           "A" "old").
  - split; vm_compute; reflexivity.
  - reflexivity.
  - vm_compute; reflexivity.
  - vm_compute; reflexivity.
  - discriminate.
  - vm_compute; reflexivity.
  - vm_compute; reflexivity.
  - vm_compute; reflexivity.
Defined.


(** X3 at the row (Red, a.jpg), with [/D/Red/a.jpg/a.jpg] in place. *)
Lemma taken_name_in_directory_at_destination_raises_witness :
  Organize.loop_body "/D" "Team" "Photo" (0%nat, row "Red" "a.jpg")
    photos_dir_with_full_album
  = (Raises (ShutilError
               (DestinationExists
                  (join (join (join "/D" "Red") "a.jpg") "a.jpg"))),
     photos_dir_with_full_album).
Proof.
  apply (taken_name_in_directory_at_destination_raises "/D" ["D"] "Team"
           "Photo" 0%nat (row "Red" "a.jpg") "Red" "a.jpg"
           photos_dir_with_full_album (File "A") (File "old")).
  - split; vm_compute; reflexivity.
  - reflexivity.
  - vm_compute; reflexivity.
  - vm_compute; reflexivity.
  - discriminate.
  - vm_compute; reflexivity.
  - vm_compute; reflexivity.
  - vm_compute; reflexivity.
  - vm_compute; reflexivity.
Defined.


(** X5 at the row (Red, sub), where [/D/sub] is a directory and
    [/D/Red/sub] a regular file. *)
Lemma directory_does_not_replace_file_witness :
  Organize.loop_body "/D" "Team" "Photo" (0%nat, row "Red" "sub")
    albums_dir_with_file_sub
  = (Raises (OSError EEXIST), albums_dir_with_file_sub).
Proof.
  apply (directory_does_not_replace_file "/D" ["D"] "Team" "Photo" 0%nat
           (row "Red" "sub") "Red" "sub" albums_dir_with_file_sub "s").
  - split; vm_compute; reflexivity.
  - reflexivity.
  - vm_compute; reflexivity.
  - vm_compute; reflexivity.
  - discriminate.
  - vm_compute; reflexivity.
  - vm_compute; reflexivity.
  - vm_compute; reflexivity.
Defined.



(** X8 at a row whose team cell is two spaces, with no directory. *)
Lemma blank_team_without_directory_raises_witness :
  Organize.loop_body "" "Team" "Photo" (0%nat, row "  " "a.jpg") photos_cwd
  = (Raises (OSError ENOENT), photos_cwd).
Proof.
  apply (blank_team_without_directory_raises "Team" "Photo" 0%nat
           (row "  " "a.jpg") "a.jpg" photos_cwd).
  vm_compute; reflexivity.
Defined.

(** X9 at the row (x, x), with nothing named [x]. *)
Lemma same_name_for_team_and_photo_raises_witness :
  exists e fs',
    Organize.loop_body "/D" "Team" "Photo" (0%nat, row "x" "x") photos_dir
    = (Raises e, fs')
    /\ cwd fs' = cwd photos_dir
    /\ (forall k, k <> ["D"] ++ ["x"] -> tree fs' !! k = tree photos_dir !! k)
    /\ (tree fs' !! (["D"] ++ ["x"]) = tree photos_dir !! (["D"] ++ ["x"])
        \/ (tree photos_dir !! (["D"] ++ ["x"]) = None
            /\ tree fs' !! (["D"] ++ ["x"]) = Some Dir))
    /\ (tree photos_dir !! (["D"] ++ ["x"]) = None ->
        tree photos_dir !! (["D"] ++ ["x"; "x"]) = None ->
        name_fits "x" = true ->
        path_fits (join (join "/D" "x") "x") = true ->
        tree fs' !! (["D"] ++ ["x"]) = Some Dir
        /\ e = ShutilError
                (MoveIntoItself (join "/D" "x") (join (join "/D" "x") "x"))).
Proof.
  apply (same_name_for_team_and_photo_raises "/D" ["D"] "Team" "Photo" 0%nat
           (row "x" "x") "x" photos_dir).
  - split; vm_compute; reflexivity.
  - reflexivity.
  - vm_compute; reflexivity.
Defined.

(** X10 at the row (x, x), which puts [/D/x] in place and raises. *)
Lemma failed_row_moves_nothing_witness :
  let run := Organize.loop_body "/D" "Team" "Photo" (0%nat, row "x" "x")
               photos_dir in
  cwd run.2 = cwd photos_dir
  /\ (forall k, k <> ["D"] ++ ["x"] -> tree run.2 !! k = tree photos_dir !! k)
  /\ (tree run.2 !! (["D"] ++ ["x"]) = tree photos_dir !! (["D"] ++ ["x"])
      \/ (tree photos_dir !! (["D"] ++ ["x"]) = None
          /\ tree run.2 !! (["D"] ++ ["x"]) = Some Dir)).
Proof.
  intros run.
  apply (failed_row_moves_nothing "/D" ["D"] "Team" "Photo" 0%nat
           (row "x" "x") "x" "x" photos_dir
           (ShutilError (MoveIntoItself "/D/x" "/D/x/x")) run.2).
  - split; vm_compute; reflexivity.
  - reflexivity.
  - vm_compute; reflexivity.
  - vm_compute; reflexivity.
  - vm_compute; reflexivity.
Defined.

(** X11 at the row (Red, /D/b.jpg). *)
Lemma absolute_photo_moves_nothing_witness :
  exists fs',
    Organize.loop_body "/D" "Team" "Photo" (0%nat, row "Red" "/D/b.jpg")
      photos_dir = (Returns tt, fs')
    /\ cwd fs' = cwd photos_dir
    /\ (forall k, k <> ["D"] ++ ["Red"] ->
                  tree fs' !! k = tree photos_dir !! k)
    /\ tree fs' !! (["D"] ++ ["Red"])
       = Some (default Dir (tree photos_dir !! (["D"] ++ ["Red"]))).
Proof.
  apply (absolute_photo_moves_nothing "/D" ["D"] "Team" "Photo" 0%nat
           (row "Red" "/D/b.jpg") "Red" "/D" ["D"] "b.jpg" photos_dir).
  - split; vm_compute; reflexivity.
  - split; vm_compute; reflexivity.
  - reflexivity.
  - vm_compute; reflexivity.
  - vm_compute; reflexivity.
  - vm_compute; reflexivity.
  - vm_compute; reflexivity.
  - vm_compute; reflexivity.
Defined.





(** X16 at the rows (Red, a.jpg), (Blue, b.jpg), run from [/D]. *)
Lemma empty_image_directory_is_the_working_directory_witness :
  let rows := [("Red", "a.jpg"); ("Blue", "b.jpg")] in
  let run := Organize.organize_photos_by_team (reads (table rows))
               "t.csv" "" "Team" "Photo" photos_cwd in
  let run' := Organize.organize_photos_by_team (reads (table rows))
                "t.csv" "." "Team" "Photo" photos_cwd in
  run.2 = run'.2 /\ (run.1 = Returns tt <-> run'.1 = Returns tt).
Proof.
  intros rows.
  apply (empty_image_directory_is_the_working_directory (reads (table rows))
           "t.csv" "Team" "Photo" photos_cwd (table rows) rows).
  - reflexivity.
  - vm_compute; reflexivity.
  - vm_compute; reflexivity.
  - vm_compute; reflexivity.
  - vm_compute; reflexivity.
Defined.

(** X17 at the directory [/D/new], which is not there. *)
Lemma missing_image_directory_is_created_witness :
  let rows := [("Red", "a.jpg"); ("Blue", "b.jpg")] in
  exists fs',
    Organize.organize_photos_by_team (reads (table rows)) "t.csv"
      (join "/D" "new") "Team" "Photo" photos_dir = (Returns tt, fs')
    /\ tree fs' !! (["D"] ++ ["new"]) = Some Dir
    /\ (forall r', r' ∈ rows -> tree fs' !! (["D"] ++ ["new"; r'.1]) = Some Dir)
    /\ (forall k, k <> ["D"] ++ ["new"] ->
                  (forall r', r' ∈ rows -> k <> ["D"] ++ ["new"; r'.1]) ->
                  tree fs' !! k = tree photos_dir !! k).
Proof.
  intros rows.
  apply (missing_image_directory_is_created (reads (table rows)) "t.csv"
           "/D" "new" "Team" "Photo" photos_dir (table rows)
           ("Red", "a.jpg") [("Blue", "b.jpg")] ["D"]).
  - reflexivity.
  - right. split; vm_compute; reflexivity.
  - vm_compute; reflexivity.
  - vm_compute; reflexivity.
  - vm_compute; reflexivity.
  - vm_compute; reflexivity.
  - vm_compute; reflexivity.
  - vm_compute; reflexivity.
  - vm_compute; reflexivity.
  - vm_compute; reflexivity.
Defined.

(** X18 at the directory [/D]. *)
Lemma trailing_slash_makes_no_difference_witness :
  let read := reads (table [("Red", "a.jpg")]) in
  Organize.organize_photos_by_team read "t.csv" ("/D" +:+ "/") "Team" "Photo"
    photos_dir
  = Organize.organize_photos_by_team read "t.csv" "/D" "Team" "Photo"
      photos_dir.
Proof.
  intros read.
  apply (trailing_slash_makes_no_difference read "t.csv" "/D" "Team" "Photo"
           photos_dir).
  - reflexivity.
  - reflexivity.
Defined.

(** X21 at the paths [/D/t.csv] and [/D]. *)
Lemma qt_browse_sets_the_text_witness :
  OrganizeMacWindow.browse_csv ("/D/t.csv", "CSV files")
    OrganizeMacWindow.initUI
  = OrganizeMac.mkPhotoOrganizer "/D/t.csv" "" "Team" "Photo"
  /\ OrganizeMacWindow.browse_dir "/D" OrganizeMacWindow.initUI
     = OrganizeMac.mkPhotoOrganizer "" "/D" "Team" "Photo".
Proof.
  apply (qt_browse_sets_the_text "/D/t.csv" "CSV files" "/D"
           OrganizeMacWindow.initUI).
  - vm_compute; reflexivity.
  - vm_compute; reflexivity.
Defined.

(** X22 at the paths [/D/t.csv] and [/D]. *)
Lemma windows_agree_after_browsing_witness :
  let read := reads (table [("Red", "a.jpg")]) in
  OrganizeMac.run_organizer read
    (OrganizeMacWindow.browse_dir "/D"
       (OrganizeMacWindow.browse_csv ("/D/t.csv", "CSV files")
          OrganizeMacWindow.initUI)) photos_dir
  = Organize.run_organizer read
      (OrganizeWindow.browse_dir "/D"
         (OrganizeWindow.browse_csv "/D/t.csv" OrganizeWindow.window))
      photos_dir.
Proof.
  intros read.
  apply (windows_agree_after_browsing read "/D/t.csv" "CSV files"
           "/D" photos_dir).
  - vm_compute; reflexivity.
  - vm_compute; reflexivity.
Defined.

(** C2 at the row (Red, c.jpg): with [/D/Red] in place nothing changes,
    without it the row makes [/D/Red] and nothing else. *)
Lemma missing_photo_moves_nothing_witness :
  Organize.loop_body "/D" "Team" "Photo" (0%nat, row "Red" "c.jpg")
    photos_dir_with_Red = (Returns tt, photos_dir_with_Red)
  /\ Organize.loop_body "/D" "Team" "Photo" (0%nat, row "Red" "c.jpg")
       photos_dir
     = (Returns tt,
        with_tree photos_dir (<[["D"] ++ ["Red"] := Dir]> (tree photos_dir))).
Proof.
  split.
  - apply (proj1 (missing_photo_moves_nothing "/D" ["D"] "Team" "Photo" 0%nat
                    (row "Red" "c.jpg") "Red" "c.jpg" photos_dir_with_Red
                    eq_refl eq_refl)).
    vm_compute; reflexivity.
  - apply (proj2 (missing_photo_moves_nothing "/D" ["D"] "Team" "Photo" 0%nat
                    (row "Red" "c.jpg") "Red" "c.jpg" photos_dir
                    eq_refl eq_refl)).
    + vm_compute; reflexivity.
    + split; vm_compute; reflexivity.
    + vm_compute; reflexivity.
    + vm_compute; reflexivity.
    + discriminate.
    + vm_compute; reflexivity.
    + vm_compute; reflexivity.
Defined.

(** C5 at a row with the team cell " Red " and the photo cell " a.jpg":
    the directory made is [/D/Red], the file goes to [/D/Red/a.jpg], and
    nothing is at [/D/ Red ]. *)
Lemma values_are_stripped_witness :
  stripped_of " Red " "Red" /\ stripped_of " a.jpg" "a.jpg"
  /\ exists fs',
       Organize.loop_body "/D" "Team" "Photo" (0%nat, row " Red " " a.jpg")
         photos_dir = (Returns tt, fs')
       /\ tree fs' !! ["D"; "Red"] = Some Dir
       /\ tree fs' !! ["D"; "Red"; "a.jpg"] = Some (File "A")
       /\ tree fs' !! ["D"; "a.jpg"] = None
       /\ tree fs' !! ["D"; " Red "] = None.
Proof.
  destruct (values_are_stripped "/D" ["D"] "Team" "Photo" 0%nat
              (row " Red " " a.jpg") (SStr " Red ") (SStr " a.jpg") photos_dir
              eq_refl eq_refl) as (Hteam & Hphoto & _ & Hrow).
  split; [exact Hteam|]. split; [exact Hphoto|].
  destruct (Hrow ltac:(split; vm_compute; reflexivity)
              ltac:(vm_compute; reflexivity) ltac:(vm_compute; reflexivity)
              ltac:(discriminate) ltac:(vm_compute; reflexivity)
              ltac:(vm_compute; reflexivity) ltac:(vm_compute; reflexivity)
              ltac:(vm_compute; reflexivity) "A"
              ltac:(vm_compute; reflexivity))
    as (fs' & Hrun & Hdir & Hfile & Hgone & Hrest).
  exists fs'. split; [exact Hrun|]. split; [exact Hdir|].
  split; [exact Hfile|]. split; [exact Hgone|].
  rewrite (Hrest ["D"; " Red "]); [vm_compute; reflexivity|discriminate|..].
  - intros [k Hk]. discriminate.
  - intros [k Hk]. discriminate.
Defined.

(** C6 at three rows with the team Red. *)
Lemma team_directory_creation_idempotent_witness :
  let photos := ["a.jpg"; "c.jpg"; "b.jpg"] in
  let rows := (fun q => ("Red", q)) <$> photos in
  Organize.organize_photos_by_team (reads (table rows)) "t.csv" "/D" "Team"
    "Photo" photos_dir
  = (Returns tt,
     with_tree photos_dir (gathered ["D"] "Red" photos (tree photos_dir)))
  /\ gathered ["D"] "Red" photos (tree photos_dir) !! (["D"] ++ ["Red"])
     = Some Dir.
Proof.
  intros photos rows.
  destruct (team_directory_creation_idempotent (reads (table rows)) "t.csv"
              "/D" ["D"] "Team" "Photo" photos_dir (table rows) "Red" "a.jpg"
              ["c.jpg"; "b.jpg"]) as [(Hrun & Hdir & _) _].
  - reflexivity.
  - split; vm_compute; reflexivity.
  - vm_compute; reflexivity.
  - vm_compute; reflexivity.
  - vm_compute; reflexivity.
  - vm_compute; reflexivity.
  - vm_compute; reflexivity.
  - vm_compute; reflexivity.
  - vm_compute; reflexivity.
  - split; [exact Hrun|exact Hdir].
Defined.
